(** * HHESTIA training tools: a shallow embedding of [training/tools/functions.py]

    The module holds seven helper functions of a classification workflow:
    [plot_confusion_matrix], [getBranchNames], [appendTreeArray],
    [randomizeData], [plotPerformance], [plotProbabilities] and
    [make_keras_picklable].  Each one is embedded below next to the part of
    the Python, numpy, matplotlib and file-system behaviour it relies on, and
    the properties stated for it in the specification are proved (or refuted)
    on the embedding.

    Conventions.
    - Python lists that are mutated through a reference live in an explicit
      store ([gmap loc _]); a reference is a [loc].
    - numpy's [float64] is IEEE 754 binary64, taken from the standard
      library's executable specification [SpecFloat] ([prec = 53],
      [emax = 1024]); numpy's [int64] is [Z] with the wrap-around written out.
    - A call that can raise returns [result], with the exception named.
    - matplotlib's [pyplot] is a state machine over figures, axes and the
      files written by [savefig]. *)

From Stdlib Require Import ZArith QArith Qpower Qabs Lqa Lia List String Ascii.
From Stdlib Require Import Permutation.
From Corelib Require Import SpecFloat.
From stdpp Require Import gmap strings list.

Open Scope string_scope.
Open Scope Z_scope.
Open Scope nat_scope.
Open Scope list_scope.

(* ================================================================== *)
(** * Python basics *)
(* ================================================================== *)

(** The exceptions the embedded code can raise. *)
Inductive exn : Type :=
  | IndexError
  | ValueError
  | TypeError
  | KeyError
  | AttributeError
  | FileNotFoundError.

(** Outcome of a call: a value, or a raised exception. *)
Inductive result (A : Type) : Type :=
  | Ok (a : A)
  | Raise (e : exn).
Arguments Ok {A} a.
Arguments Raise {A} e.

(** [result] is a monad; stdpp's notation [x ← r; k] sequences calls and
    propagates the first exception. *)
#[global] Instance result_ret : MRet result := fun _ a => Ok a.
#[global] Instance result_bind : MBind result := fun _ _ k r =>
  match r with
  | Ok a => k a
  | Raise e => Raise e
  end.

(** [seq_[i]] on a Python list with a non-negative index. *)
Definition getitem {A : Type} (l : list A) (i : nat) : result A :=
  match l !! i with
  | Some x => Ok x
  | None => Raise IndexError
  end.

(** Object references. *)
Definition loc := positive.

(* ------------------------------------------------------------------ *)
(** ** Strings: the [in] operator *)

(** [startswith s p]: [p] is a prefix of [s]. *)
Fixpoint startswith (s p : string) {struct p} : bool :=
  match p, s with
  | EmptyString, _ => true
  | String c p', String d s' => Ascii.eqb c d && startswith s' p'
  | String _ _, EmptyString => false
  end.

(** [str_in sub s] is Python's [sub in s] on strings: [sub] occurs in [s]
    at some position (byte-for-byte, hence case-sensitive). *)
Fixpoint str_in (sub s : string) : bool :=
  startswith s sub ||
  match s with
  | EmptyString => false
  | String _ s' => str_in sub s'
  end.

(** The mathematical reading of [sub in s]. *)
Definition substring_of (sub s : string) : Prop :=
  exists pre post : string, s = pre +:+ sub +:+ post.

(* ================================================================== *)
(** * [getBranchNames] *)
(* ================================================================== *)

(** A ROOT branch, as far as the function looks at it, and a tree with its
    branches in their native order. *)
Record TBranch : Type := { GetName : string }.
Record TTree : Type := { GetListOfBranches : list TBranch }.

(** The [for] loop of [getBranchNames]: [treeVars] is the list built so far;
    each [if ... in name: continue] skips the append. *)
Fixpoint getBranchNames_loop (branches : list TBranch) (treeVars : list string)
  : list string :=
  match branches with
  | [] => treeVars
  | branch :: branches' =>
      let name := GetName branch in
      if str_in "nJets" name then getBranchNames_loop branches' treeVars
      else if str_in "SoftDropMass" name then getBranchNames_loop branches' treeVars
      else if str_in "mass" name then getBranchNames_loop branches' treeVars
      else if str_in "gen" name then getBranchNames_loop branches' treeVars
      else if str_in "pt" name then getBranchNames_loop branches' treeVars
      else getBranchNames_loop branches' (treeVars ++ [name])
  end.

Definition getBranchNames (tree : TTree) : list string :=
  getBranchNames_loop (GetListOfBranches tree) [].

(** The five substrings the specification lists. *)
Definition denylist : list string :=
  ["nJets"; "SoftDropMass"; "mass"; "gen"; "pt"].

(** A name is kept when no denylisted substring occurs in it. *)
Definition allowed (name : string) : Prop :=
  forall d, In d denylist -> ~ substring_of d name.

Definition allowedb (name : string) : bool :=
  forallb (fun d => negb (str_in d name)) denylist.

Definition tree_of_names (names : list string) : TTree :=
  {| GetListOfBranches := map (fun n => {| GetName := n |}) names |}.

(* ================================================================== *)
(** * Python objects: values and the store of list objects *)
(* ================================================================== *)

(** A Python value as the list-handling functions see it: a scalar of some
    type [V] (a number read from a tree), an [int], a tuple, or a reference
    to an object.  Rows, pools and the lists built by the functions are list
    objects reached through references, so that two names for one list see
    each other's [append] and [pop].  A tuple stands for the sequences that
    are not lists (a tuple, a [str], a numpy array): it has a length and
    items, and no [pop]. *)
#[warnings="-register-all"]
Inductive value (V : Type) : Type :=
  | VScalar (x : V)
  | VInt (z : Z)
  | VTuple (items : list (value V))
  | VRef (l : loc).
Arguments VScalar {V} x.
Arguments VInt {V} z.
Arguments VTuple {V} items.
Arguments VRef {V} l.

(** The list objects of the heap, by reference.  A reference that is not in
    the store stands for an object that is no sequence at all: it has no
    length, no items and no [pop] ([None], say). *)
Abbreviation liststore V := (gmap loc (list (value V))).

Section ListObjects.
Context {V : Type}.

(** [[]] or [list(...)]: a new list object at a reference not yet in use. *)
Definition new_list (items : list (value V)) (h : liststore V)
  : loc * liststore V :=
  let l := fresh (dom h) in (l, <[l := items]> h).

(** The items of the sequence [v]: of the list object it refers to, or of
    the tuple it is.  A number is no sequence: [len] of it and indexing it
    raise [TypeError]. *)
Definition list_items (h : liststore V) (v : value V) : result (list (value V)) :=
  match v with
  | VRef l => match h !! l with
              | Some items => Ok items
              | None => Raise TypeError
              end
  | VTuple items => Ok items
  | VScalar _ | VInt _ => Raise TypeError
  end.

(** [len(v)]. *)
Definition len (h : liststore V) (v : value V) : result Z :=
  items ← list_items h v; Ok (Z.of_nat (length items)).

(** [l.append(x)]: in place. *)
Definition list_append (l : loc) (x : value V) (h : liststore V) : liststore V :=
  alter (fun items => items ++ [x]) l h.

(** [v.pop()]: removes the last item of the list object in place and returns
    it; [IndexError] on an empty list.  Only a list has the method: on a
    tuple, a number or any other object the attribute lookup fails. *)
Definition list_pop (h : liststore V) (v : value V)
  : result (value V * liststore V) :=
  match v with
  | VRef l =>
      match h !! l with
      | Some items =>
          match last items with
          | Some x => Ok (x, <[l := removelast items]> h)
          | None => Raise IndexError
          end
      | None => Raise AttributeError
      end
  | VTuple _ | VScalar _ | VInt _ => Raise AttributeError
  end.

(** [seq[i]] for a Python [int] index: a negative index counts from the end. *)
Definition getitem_int {A : Type} (items : list A) (i : Z) : result A :=
  let n := Z.of_nat (length items) in
  let j := (if i <? 0 then i + n else i)%Z in
  if ((0 <=? j) && (j <? n))%Z then getitem items (Z.to_nat j)
  else Raise IndexError.

End ListObjects.
Arguments list_pop {V} h v : simpl never.

(* ================================================================== *)
(** * [appendTreeArray] *)
(* ================================================================== *)

(** A numpy structured array made from a tree: the field names of its dtype
    and one record per entry, each record holding the field values in field
    order.  Iterating over the array (or over the view [array[:]], which reads
    the same records) yields the records; [list(entry)] is the list of one
    record's field values in field order. *)
Record struct_array (V : Type) : Type := {
  dtype_names : list string;
  records : list (list V)
}.
Arguments dtype_names {V} _.
Arguments records {V} _.

(** The heap [appendTreeArray] runs in: numpy arrays and list objects. *)
Record pyheap (V : Type) : Type := {
  ndarrays : gmap loc (struct_array V);
  lists : liststore V
}.
Arguments ndarrays {V} _.
Arguments lists {V} _.

Section AppendTreeArray.
Context {V : Type}.

(** [list(entry)]: a new list object holding the record's values. *)
Definition list_of_entry (entry : list V) (h : liststore V) : loc * liststore V :=
  new_list (map VScalar entry) h.

(** One iteration of the loop: [a = list(entry); tmpArray.append(a)]. *)
Definition appendTreeArray_body (tmpArray : loc) (h : liststore V) (entry : list V)
  : liststore V :=
  let '(a, h1) := list_of_entry entry h in
  list_append tmpArray (VRef a) h1.

(** [appendTreeArray(array)].  [array] is a reference to a numpy array; the
    result is the reference of the returned list and the heap after the call.
    [None] only for a reference that names no array. *)
Definition appendTreeArray (array : loc) (h : pyheap V) : option (loc * pyheap V) :=
  arr ← ndarrays h !! array;
  let '(tmpArray, h1) := new_list [] (lists h) in
  let h2 := foldl (appendTreeArray_body tmpArray) h1 (records arr) in
  (* copy.copy(tmpArray): a new list object with the same items *)
  items ← h2 !! tmpArray;
  let '(newArray, h3) := new_list items h2 in
  Some (newArray, {| ndarrays := ndarrays h; lists := h3 |}).

End AppendTreeArray.

(* ================================================================== *)
(** * [randomizeData] *)
(* ================================================================== *)

(** [random.randint(a, b)]: [ValueError] on an empty range, otherwise one of
    the integers [a..b].  The generator is an oracle: [raw] is the number it
    yields for this call, and every integer of [a..b] is the outcome for one
    residue of [raw] (each for the same share of the raw numbers, which is
    what "uniformly" means for this model). *)
Definition randint (a b : Z) (raw : nat) : result Z :=
  if (b <? a)%Z then Raise ValueError
  else Ok (a + Z.of_nat raw mod (b - a + 1))%Z.

(** The outcomes [randint a b] chooses among, each listed once. *)
Definition randint_outcomes (a b : Z) : list Z := seqZ a (b - a + 1).

Section RandomizeData.
Context {V : Type}.

(** The local variables of [randomizeData] together with the store holding
    the caller's list objects ([array] and the pools it refers to).
    [trainData] and [targetData] are the two lists under construction. *)
Record rd_state : Type := {
  rd_heap : liststore V;
  trainData : list (value V);
  targetData : list Z;
  nEvents : Z
}.

(** The counting loop:
    [for iArray in range(len(array)): nEvents = nEvents + len(array[iArray])]. *)
Fixpoint randomizeData_count (h : liststore V) (array : value V)
  (indices : list nat) (nEvents : Z) : result Z :=
  match indices with
  | [] => Ok nEvents
  | iArray :: indices' =>
      items ← list_items h array;
      pool ← getitem items iArray;
      n ← len h pool;
      randomizeData_count h array indices' (nEvents + n)%Z
  end.

(** The body of the [while] loop, for the raw number [raw] the generator
    yields in this iteration. *)
Definition randomizeData_body (array : value V) (raw : nat) (st : rd_state)
  : result rd_state :=
  let h := rd_heap st in
  n ← len h array;
  rng ← randint 0 (n - 1) raw;
  items ← list_items h array;
  pool ← getitem_int items rng;
  m ← len h pool;
  if (0 <? m)%Z then
    '(row, h') ← list_pop h pool;
    Ok {| rd_heap := h';
          trainData := trainData st ++ [row];
          targetData := targetData st ++ [rng];
          nEvents := (nEvents st - 1)%Z |}
  else Ok st.

(** [while nEvents > 0: body].  [draws k] is the raw number of the [k]-th
    call of the generator and [fuel] bounds the number of iterations looked
    at: [None] means the loop is still running after [fuel] iterations. *)
Fixpoint randomizeData_while (draws : nat -> nat) (array : value V)
  (fuel k : nat) (st : rd_state) : option (result rd_state) :=
  if (0 <? nEvents st)%Z then
    match fuel with
    | O => None
    | S fuel' =>
        match randomizeData_body array (draws k) st with
        | Ok st' => randomizeData_while draws array fuel' (S k) st'
        | Raise e => Some (Raise e)
        end
    end
  else Some (Ok st).

(** The state when the [while] loop is entered. *)
Definition randomizeData_init (array : value V) (h : liststore V)
  : result rd_state :=
  items ← list_items h array;
  n ← randomizeData_count h array (seq 0 (length items)) 0%Z;
  Ok {| rd_heap := h; trainData := []; targetData := []; nEvents := n |}.

(** [randomizeData(array)]: the returned pair and the store after the call. *)
Definition randomizeData (draws : nat -> nat) (fuel : nat) (array : value V)
  (h : liststore V)
  : option (result (list (value V) * list Z * liststore V)) :=
  match randomizeData_init array h with
  | Raise e => Some (Raise e)
  | Ok st0 =>
      match randomizeData_while draws array fuel 0 st0 with
      | None => None
      | Some (Raise e) => Some (Raise e)
      | Some (Ok st) => Some (Ok (trainData st, targetData st, rd_heap st))
      end
  end.

(** The state after [k] iterations of the loop body, whatever [nEvents] is;
    used to speak about the run of the loop. *)
Fixpoint randomizeData_iter (draws : nat -> nat) (array : value V)
  (k : nat) (st : rd_state) : result rd_state :=
  match k with
  | O => Ok st
  | S k' =>
      st' ← randomizeData_iter draws array k' st;
      randomizeData_body array (draws k') st'
  end.

(** The rule of the rejection sampling, on the pools' sizes alone: the number
    of rows each pool holds after the first [k] draws, when the draw number
    [k] selects the pool at index [draws k mod count], a pool that holds rows
    loses one to a draw and an empty pool stays as it is.  [sizes] are the
    sizes the pools start with. *)
Fixpoint sizes_after (draws : nat -> nat) (sizes : list nat) (k : nat) : list nat :=
  match k with
  | O => sizes
  | S k' =>
      let cur := sizes_after draws sizes k' in
      let i := draws k' mod length sizes in
      match cur !! i with
      | Some (S n) => <[i := n]> cur
      | _ => cur
      end
  end.

(** Rows remain after [k] draws: some pool still holds one. *)
Definition rows_remain (draws : nat -> nat) (sizes : list nat) (k : nat) : Prop :=
  exists i n, sizes_after draws sizes k !! i = Some (S n).

(** The draw number [k] hits a non-empty pool. *)
Definition hits (draws : nat -> nat) (sizes : list nat) (k : nat) : Prop :=
  exists n, sizes_after draws sizes k !! (draws k mod length sizes) = Some (S n).

(** The assumption on the random draws: as long as rows remain, some later
    draw hits a non-empty pool.  It speaks of the generator's numbers and the
    pools' sizes only, not of the code. *)
Definition eventually_hits (draws : nat -> nat) (sizes : list nat) : Prop :=
  forall k, rows_remain draws sizes k -> exists j, k <= j /\ hits draws sizes j.

(** A well-formed argument: [array] is a list object whose items are
    references to pairwise distinct list objects (the pools), none of them
    [array] itself. *)
Definition pools_at (h : liststore V) (array : loc) (pools : list loc) : Prop :=
  h !! array = Some (map VRef pools) /\
  NoDup pools /\
  (array ∉ pools) /\
  forall p, p ∈ pools -> is_Some (h !! p).

(** The rows of pool number [i]. *)
Definition pool_rows (h : liststore V) (pools : list loc) (i : nat)
  : list (value V) :=
  match pools !! i with
  | Some p => default [] (h !! p)
  | None => []
  end.

(** The pools' rows, pool by pool, and the number of rows left in them. *)
Definition cur_pools (h : liststore V) (pools : list loc) : list (list (value V)) :=
  map (fun p => default [] (h !! p)) pools.

Definition rows_left (h : liststore V) (pools : list loc) : nat :=
  length (concat (cur_pools h pools)).

(** The pools' sizes, pool by pool. *)
Definition pool_sizes (h : liststore V) (pools : list loc) : list nat :=
  map length (cur_pools h pools).

(** The rows of [trainData] that [targetData] labels with [i], in order. *)
Fixpoint labelled (i : Z) (train : list (value V)) (target : list Z)
  : list (value V) :=
  match train, target with
  | row :: train', t :: target' =>
      if (t =? i)%Z then row :: labelled i train' target'
      else labelled i train' target'
  | _, _ => []
  end.

End RandomizeData.
Arguments rd_state V : clear implicits.

(* ================================================================== *)
(** * numpy: [int64] and [float64] arrays *)
(* ================================================================== *)

(** [float64] is IEEE 754 binary64. *)
Definition float64 : Type := spec_float.

Definition f64_div : float64 -> float64 -> float64 := SFdiv 53 1024.
Definition f64_add : float64 -> float64 -> float64 := SFadd 53 1024.
Definition f64_ltb : float64 -> float64 -> bool := SFltb.

(** Conversion of an integer to the nearest [float64] (ties to even). *)
Definition f64_of_Z (z : Z) : float64 := binary_normalize 53 1024 z 0 false.

(** [int64] arithmetic wraps around. *)
Definition wrap64 (z : Z) : Z := ((z + 2 ^ 63) mod 2 ^ 64 - 2 ^ 63)%Z.
Definition int64_add (a b : Z) : Z := wrap64 (a + b).
Definition is_int64 (z : Z) : Prop := (- 2 ^ 63 <= z < 2 ^ 63)%Z.

Definition is_nan (x : float64) : bool :=
  match x with S754_nan => true | _ => false end.
Definition is_inf (x : float64) : bool :=
  match x with S754_infinity _ => true | _ => false end.
Definition is_zero (x : float64) : bool :=
  match x with S754_zero _ => true | _ => false end.
Definition is_finite_nonzero (x : float64) : bool :=
  match x with S754_finite _ _ _ => true | _ => false end.

(** The exact rational value of a finite [float64]. *)
Definition f64_to_Q (x : float64) : Q :=
  match x with
  | S754_finite s m e =>
      let v := (inject_Z (Z.pos m) * Qpower 2 e)%Q in
      if s then Qopp v else v
  | _ => 0%Q
  end.

(** The arrays the functions meet: one- and two-dimensional, of dtype
    [int64] or [float64].  A two-dimensional array is the list of its rows,
    all of one length. *)
Inductive ndarray : Type :=
  | Int1 (xs : list Z)
  | Int2 (rows : list (list Z))
  | Float1 (xs : list float64)
  | Float2 (rows : list (list float64)).

(** An array element, as [cm[i, j]] or [cm.max()] return it. *)
Inductive scalar : Type :=
  | SInt (z : Z)
  | SFloat (x : float64).

(** The value of a scalar as a [float64] (numpy's promotion of [int64] in a
    mixed operation). *)
Definition scalar_to_f64 (s : scalar) : float64 :=
  match s with
  | SInt z => f64_of_Z z
  | SFloat x => x
  end.

(** [a.astype('float')]: a new array of dtype [float64]. *)
Definition astype_float (a : ndarray) : ndarray :=
  match a with
  | Int1 xs => Float1 (map f64_of_Z xs)
  | Int2 rows => Float2 (map (map f64_of_Z) rows)
  | Float1 xs => Float1 xs
  | Float2 rows => Float2 rows
  end.

(** numpy adds up a contiguous run of [float64] by pairwise summation
    ([pairwise_sum] in numpy's [umath] loops).  Fewer than 8 elements are
    added one after the other, starting from 0.  Up to 128 elements go
    through 8 accumulators: accumulator [k] adds up the elements at the
    positions [k], [k + 8], [k + 16], ... of the full blocks of 8; the
    accumulators are combined pairwise, and the elements after the last full
    block are added one by one.  A longer run is split in two, the first part
    a multiple of 8 long, and the sums of the parts are added.  [fuel] bounds
    the depth of the splitting; the length of the run is always enough
    ([pairwise_sum_fuel] below). *)
Definition f64_zero : float64 := S754_zero false.

Definition pairwise_combine (r : list float64) : float64 :=
  match r with
  | [r0; r1; r2; r3; r4; r5; r6; r7] =>
      f64_add (f64_add (f64_add r0 r1) (f64_add r2 r3))
              (f64_add (f64_add r4 r5) (f64_add r6 r7))
  | _ => foldl f64_add f64_zero r
  end.

Fixpoint pairwise_blocks (blocks : nat) (r a : list float64)
  : list float64 * list float64 :=
  match blocks with
  | O => (r, a)
  | S blocks' => pairwise_blocks blocks' (zip_with f64_add r (take 8 a)) (drop 8 a)
  end.

Fixpoint pairwise_sum (fuel : nat) (a : list float64) : float64 :=
  let n := length a in
  if n <? 8 then foldl f64_add f64_zero a
  else if n <=? 128 then
    let '(r, rest) := pairwise_blocks (n / 8 - 1) (take 8 a) (drop 8 a) in
    foldl f64_add (pairwise_combine r) rest
  else
    match fuel with
    | O => foldl f64_add f64_zero a
    | S fuel' =>
        let n2 := n / 2 - (n / 2) mod 8 in
        f64_add (pairwise_sum fuel' (take n2 a)) (pairwise_sum fuel' (drop n2 a))
    end.

(** The sum of one row of a C-contiguous [float64] matrix, as
    [a.sum(axis=1)] computes it: the reduction starts from the identity 0.0
    and adds the pairwise sum of the row. *)
Definition f64_row_sum (row : list float64) : float64 :=
  f64_add f64_zero (pairwise_sum (length row) row).

(** [a.sum(axis=1)] of a two-dimensional array: the row sums, in [int64]
    (wrapping around) for an [int64] array and in [float64] for a [float64]
    array.  numpy's axis error on a one-dimensional array is a
    [ValueError]. *)
Definition sum_axis1 (a : ndarray) : result ndarray :=
  match a with
  | Int2 rows => Ok (Int1 (map (foldl int64_add 0%Z) rows))
  | Float2 rows => Ok (Float1 (map f64_row_sum rows))
  | Int1 _ | Float1 _ => Raise ValueError
  end.

(** [v[:, numpy.newaxis]] of a one-dimensional array: the column with the
    same elements, of shape (n, 1). *)
Definition newaxis_column (v : ndarray) : result ndarray :=
  match v with
  | Int1 xs => Ok (Int2 (map (fun x => [x]) xs))
  | Float1 xs => Ok (Float2 (map (fun x => [x]) xs))
  | Int2 _ | Float2 _ => Raise IndexError
  end.

(** All results of a sequence of element operations, or the first exception. *)
Fixpoint sequence {C : Type} (cs : list (result C)) : result (list C) :=
  match cs with
  | [] => Ok []
  | c :: cs' => z ← c; zs ← sequence cs'; Ok (z :: zs)
  end.

(** Element by element on two sequences of equal length. *)
Fixpoint zip_result {A B C : Type} (f : A -> B -> result C)
  (xs : list A) (ys : list B) : result (list C) :=
  match xs, ys with
  | [], [] => Ok []
  | x :: xs', y :: ys' => z ← f x y; zs ← zip_result f xs' ys'; Ok (z :: zs)
  | _, _ => Raise ValueError
  end.

(** Broadcasting of one axis: two lists of equal length are paired, a list of
    length 1 is stretched to the other's length, anything else is the
    [ValueError] "operands could not be broadcast together". *)
Definition broadcast {A B C : Type} (f : A -> B -> result C)
  (xs : list A) (ys : list B) : result (list C) :=
  if length xs =? length ys then zip_result f xs ys
  else match xs, ys with
       | _, [y] => sequence (map (fun x => f x y) xs)
       | [x], _ => sequence (map (fun y => f x y) ys)
       | _, _ => Raise ValueError
       end.

(** [a / b] (true division) of a two-dimensional [float64] array by a
    two-dimensional array: [b] is promoted to [float64], the shapes are
    broadcast, the elements divided in IEEE arithmetic.  Division by zero
    does not raise: it yields an infinity or NaN. *)
Definition true_divide (a b : ndarray) : result ndarray :=
  match a, astype_float b with
  | Float2 rows, Float2 rows' =>
      q ← broadcast (broadcast (fun x y => Ok (f64_div x y))) rows rows';
      Ok (Float2 q)
  | _, _ => Raise TypeError
  end.

(** The larger of two [float64], NaN winning (numpy's [maximum]). *)
Definition f64_maximum (x y : float64) : float64 :=
  if is_nan x then x else if is_nan y then y
  else if f64_ltb x y then y else x.

(** The maximum of a non-empty sequence; [ValueError] on an empty one. *)
Definition max_of {A : Type} (mx : A -> A -> A) (xs : list A) : result A :=
  match xs with
  | x :: xs' => Ok (foldl mx x xs')
  | [] => Raise ValueError
  end.

(** [a.max()]: the largest element of the array. *)
Definition ndarray_max (a : ndarray) : result scalar :=
  match a with
  | Int1 xs => z ← max_of Z.max xs; Ok (SInt z)
  | Int2 rows => z ← max_of Z.max (concat rows); Ok (SInt z)
  | Float1 xs => x ← max_of f64_maximum xs; Ok (SFloat x)
  | Float2 rows => x ← max_of f64_maximum (concat rows); Ok (SFloat x)
  end.

(** [a.shape[0]] and [a.shape[1]]. *)
Definition shape0 (a : ndarray) : nat :=
  match a with
  | Int1 xs => length xs
  | Float1 xs => length xs
  | Int2 rows => length rows
  | Float2 rows => length rows
  end.

Definition shape1 (a : ndarray) : result nat :=
  match a with
  | Int2 rows => Ok (length (default [] (head rows)))
  | Float2 rows => Ok (length (default [] (head rows)))
  | Int1 _ | Float1 _ => Raise IndexError
  end.

(** [a[i, j]]. *)
Definition getitem2 (a : ndarray) (i j : nat) : result scalar :=
  match a with
  | Int2 rows => row ← getitem rows i; x ← getitem row j; Ok (SInt x)
  | Float2 rows => row ← getitem rows i; x ← getitem row j; Ok (SFloat x)
  | Int1 _ | Float1 _ => Raise IndexError
  end.

(* ================================================================== *)
(** * The plotting functions' world: heap, pyplot, files, console *)
(* ================================================================== *)

(** The text of a cell annotation, [format(value, fmt)], kept as the value
    and the format specification. *)
Inductive cell_text : Type := Formatted (v : scalar) (fmt : string).

(** What has been drawn on, or set for, one axes, in call order. *)
Inductive ax_cmd : Type :=
  | Plot (ydata : list float64) (label : string)
  | Hist (data : list float64) (bins : nat) (range_lo range_hi : Z)
         (label color histtype : string) (normed log : bool)
  | Imshow (data : ndarray) (interpolation cmap : string)
  | Text (x y : nat) (s : cell_text) (horizontalalignment color : string)
  | SetTitle (s : string)
  | SetXlabel (s : string)
  | SetYlabel (s : string)
  | SetXticks (ticks : list Z) (labels : list string) (rotation : Z)
  | SetYticks (ticks : list Z) (labels : list string)
  | Legend (loc : string) (ncol : nat) (expand : bool).

Inductive fig_cmd : Type := Colorbar | TightLayout.

(** An axes at a subplot position (rows, columns, index); [ax_id] tells the
    axes of one figure apart (the number of axes the figure had before). *)
Record axes : Type := {
  ax_id : nat;
  ax_position : nat * nat * nat;
  ax_cmds : list ax_cmd
}.

(** A figure: its stack of axes, the current one first. *)
Record figure : Type := {
  fig_size : option (nat * nat);
  fig_axes : list axes;
  fig_cmds : list fig_cmd
}.

Inductive output : Type :=
  | PrintStr (s : string)
  | PrintArray (a : ndarray).

(** A record of pyplot-level calls, kept for stating what a function did
    (figures that were closed leave no other mark). *)
Inductive event : Type :=
  | EFigure (num : nat)
  | ESavefig (path : string) (fig : figure)
  | EClose (num : nat).

(** [figs] are the open figures by number, the current one first. *)
Record world : Type := {
  heap : gmap loc ndarray;
  figs : list (nat * figure);
  dirs : gset string;
  files : gmap string figure;
  stdout : list output;
  trace : list event
}.

(** Computations in the world that may raise: the state reached is kept in
    either case, as in Python. *)
Definition py (A : Type) : Type := world -> world * result A.

#[global] Instance py_ret : MRet py := fun _ a w => (w, Ok a).
#[global] Instance py_bind : MBind py := fun _ _ k m w =>
  match m w with
  | (w', Ok a) => k a w'
  | (w', Raise e) => (w', Raise e)
  end.

Definition lift {A : Type} (r : result A) : py A := fun w => (w, r).
Definition update (f : world -> world) : py unit := fun w => (f w, Ok tt).

Fixpoint for_each {A : Type} (xs : list A) (body : A -> py unit) : py unit :=
  match xs with
  | [] => mret tt
  | x :: xs' => body x;; for_each xs' body
  end.

Definition set_heap (h : gmap loc ndarray) (w : world) : world :=
  {| heap := h; figs := figs w; dirs := dirs w; files := files w;
     stdout := stdout w; trace := trace w |}.
Definition set_figs (fs : list (nat * figure)) (w : world) : world :=
  {| heap := heap w; figs := fs; dirs := dirs w; files := files w;
     stdout := stdout w; trace := trace w |}.
Definition set_files (fl : gmap string figure) (w : world) : world :=
  {| heap := heap w; figs := figs w; dirs := dirs w; files := fl;
     stdout := stdout w; trace := trace w |}.
Definition add_stdout (o : output) (w : world) : world :=
  {| heap := heap w; figs := figs w; dirs := dirs w; files := files w;
     stdout := stdout w ++ [o]; trace := trace w |}.
Definition add_trace (e : event) (w : world) : world :=
  {| heap := heap w; figs := figs w; dirs := dirs w; files := files w;
     stdout := stdout w; trace := trace w ++ [e] |}.

(* ------------------------------------------------------------------ *)
(** ** numpy arrays in the heap *)

(** A new array object. *)
Definition np_new (a : ndarray) : py loc := fun w =>
  let l := fresh (dom (heap w)) in (set_heap (<[l := a]> (heap w)) w, Ok l).

(** The array a reference names. *)
Definition np_get (l : loc) : py ndarray := fun w =>
  match heap w !! l with
  | Some a => (w, Ok a)
  | None => (w, Raise TypeError)
  end.

Definition print (o : output) : py unit := update (add_stdout o).

(* ------------------------------------------------------------------ *)
(** ** pyplot *)

Definition empty_figure (figsize : option (nat * nat)) : figure :=
  {| fig_size := figsize; fig_axes := []; fig_cmds := [] |}.

(** [plt.figure(...)]: a new figure, numbered one more than the largest
    open number, becomes the current figure. *)
Definition plt_figure (figsize : option (nat * nat)) : py nat := fun w =>
  let num := S (foldr Nat.max 0 (map fst (figs w))) in
  (add_trace (EFigure num) (set_figs ((num, empty_figure figsize) :: figs w) w),
   Ok num).

(** [plt.gcf()]: the current figure; one is created when none is open. *)
Definition plt_gcf : py (nat * figure) := fun w =>
  match head (figs w) with
  | Some nf => (w, Ok nf)
  | None =>
      match plt_figure None w with
      | (w', Ok num) => (w', Ok (num, empty_figure None))
      | (w', Raise e) => (w', Raise e)
      end
  end.

(** Replace the current figure (the first of [figs]). *)
Definition set_current_figure (f : figure) : py unit :=
  update (fun w =>
    match figs w with
    | (num, _) :: rest => set_figs ((num, f) :: rest) w
    | [] => w
    end).

(** The axes of a figure at a subplot position, and the other axes. *)
Definition axes_at (pos : nat * nat * nat) (f : figure) : option axes :=
  snd <$> list_find (fun a => ax_position a = pos) (fig_axes f).

Definition axes_not_at (pos : nat * nat * nat) (f : figure) : list axes :=
  filter (fun a => ax_position a ≠ pos) (fig_axes f).

(** [plt.subplot(r, c, i)]: the axes of the current figure at that position,
    added if there is none, becomes the current axes; the result is a handle
    on it (figure number, axes id). *)
Definition plt_subplot (r c i : nat) : py (nat * nat) :=
  '(num, f) ← plt_gcf;
  match axes_at (r, c, i) f with
  | Some a =>
      set_current_figure
        {| fig_size := fig_size f;
           fig_axes := a :: axes_not_at (r, c, i) f;
           fig_cmds := fig_cmds f |};;
      mret (num, ax_id a)
  | None =>
      let a := {| ax_id := length (fig_axes f); ax_position := (r, c, i);
                  ax_cmds := [] |} in
      set_current_figure
        {| fig_size := fig_size f; fig_axes := a :: fig_axes f;
           fig_cmds := fig_cmds f |};;
      mret (num, ax_id a)
  end.

(** [plt.gca()]: the current axes; a figure without axes gets one. *)
Definition plt_gca : py (nat * nat) :=
  '(num, f) ← plt_gcf;
  match fig_axes f with
  | [] => plt_subplot 1 1 1
  | a :: _ => mret (num, ax_id a)
  end.

Definition axes_add (c : ax_cmd) (a : axes) : axes :=
  {| ax_id := ax_id a; ax_position := ax_position a; ax_cmds := ax_cmds a ++ [c] |}.

Definition figure_axes_add (id : nat) (c : ax_cmd) (f : figure) : figure :=
  {| fig_size := fig_size f;
     fig_axes := map (fun a => if decide (ax_id a = id) then axes_add c a else a)
                     (fig_axes f);
     fig_cmds := fig_cmds f |}.

(** A method call on an axes handle, as [ax.plot(...)]. *)
Definition ax_call (handle : nat * nat) (c : ax_cmd) : py unit :=
  update (fun w =>
    set_figs
      (map (fun nf : nat * figure =>
              if decide (nf.1 = handle.1)
              then (nf.1, figure_axes_add handle.2 c nf.2) else nf)
           (figs w)) w).

(** A pyplot call that acts on the current axes, as [plt.hist(...)]. *)
Definition plt_call (c : ax_cmd) : py unit :=
  handle ← plt_gca; ax_call handle c.

(** [plt.imshow(a, ...)]: the current axes is looked up (and created when
    there is none), then the image is made from [a]: a two-dimensional array
    is shown on that axes, a one-dimensional one is refused with a
    [TypeError] ("invalid shape for image data") and nothing is drawn. *)
Definition two_dimensional (a : ndarray) : bool :=
  match a with
  | Int2 _ | Float2 _ => true
  | Int1 _ | Float1 _ => false
  end.

Definition plt_imshow (a : ndarray) (interpolation cmap : string) : py unit :=
  handle ← plt_gca;
  if two_dimensional a then ax_call handle (Imshow a interpolation cmap)
  else lift (Raise TypeError).

(** A pyplot call that acts on the current figure. *)
Definition plt_fig_call (c : fig_cmd) : py unit :=
  '(_, f) ← plt_gcf;
  set_current_figure
    {| fig_size := fig_size f; fig_axes := fig_axes f;
       fig_cmds := fig_cmds f ++ [c] |}.

(** The directory part of a path: what precedes the last [/]. *)
Fixpoint dirname (path : string) : string :=
  match path with
  | EmptyString => EmptyString
  | String c rest =>
      if str_in "/" rest then String c (dirname rest) else EmptyString
  end.

(** Writing a figure to [path]: the directory must exist (the working
    directory always does). *)
Definition write_figure (path : string) (f : figure) : py unit := fun w =>
  if decide (dirname path = "" \/ dirname path ∈ dirs w)
  then (add_trace (ESavefig path f) (set_files (<[path := f]> (files w)) w), Ok tt)
  else (w, Raise FileNotFoundError).

(** [plt.savefig(path)]: writes the current figure, as it is now. *)
Definition plt_savefig (path : string) : py unit :=
  '(_, f) ← plt_gcf; write_figure path f.

(** [plt.close()]: closes the current figure, if there is one. *)
Definition plt_close : py unit :=
  update (fun w =>
    match figs w with
    | (num, _) :: rest => add_trace (EClose num) (set_figs rest w)
    | [] => w
    end).

(* ================================================================== *)
(** * [plot_confusion_matrix] *)
(* ================================================================== *)

(** [format(v, fmt)]: an integer takes both formats used here, a float does
    not take ['d']. *)
Definition py_format (v : scalar) (fmt : string) : result cell_text :=
  match v with
  | SInt _ => Ok (Formatted v fmt)
  | SFloat _ => if String.eqb fmt "d" then Raise ValueError else Ok (Formatted v fmt)
  end.

(** The sum of a row as numpy computes it, and the matrix whose entries are
    the entries of [rows] divided by their row's sum. *)
Definition row_sum (row : list Z) : Z := foldl int64_add 0%Z row.

Definition normalized_rows (rows : list (list Z)) : list (list float64) :=
  map (fun row => map (fun x => f64_div (f64_of_Z x) (f64_of_Z (row_sum row))) row)
      rows.

(** The same for a matrix that is [float64] already. *)
Definition normalized_float_rows (rows : list (list float64)) : list (list float64) :=
  map (fun row => map (fun x => f64_div x (f64_row_sum row)) row) rows.

(** [cm.astype('float') / cm.sum(axis=1)[:, numpy.newaxis]]: every numpy
    operation returns a new array object; the result is the reference of the
    quotient. *)
Definition normalized (cm : loc) : py loc :=
  a ← np_get cm;
  cm_float ← np_new (astype_float a);
  a' ← np_get cm;
  sums ← lift (sum_axis1 a');
  cm_sum ← np_new sums;
  column ← lift (newaxis_column sums);
  cm_sum_col ← np_new column;
  x ← np_get cm_float;
  y ← np_get cm_sum_col;
  q ← lift (true_divide x y);
  np_new q.

(** The part of [plot_confusion_matrix] after [plt.imshow]: title, colour
    bar, ticks, one text per cell, layout and axis labels.  [cm] is the local
    name after the possible rebinding. *)
Definition annotate (cm : loc) (classes : list string) (normalize : bool)
  (title : string) : py unit :=
  plt_call (SetTitle title);;
  plt_fig_call Colorbar;;
  let tick_marks := seqZ 0 (Z.of_nat (length classes)) in
  plt_call (SetXticks tick_marks classes 45);;
  plt_call (SetYticks tick_marks classes);;
  let fmt := if normalize then ".2f" else "d" in
  a ← np_get cm;
  mx ← lift (ndarray_max a);
  let thresh := f64_div (scalar_to_f64 mx) (f64_of_Z 2) in
  n1 ← lift (shape1 a);
  for_each (list_prod (seq 0 (shape0 a)) (seq 0 n1)) (fun ij =>
    let '(i, j) := ij in
    v ← lift (getitem2 a i j);
    s ← lift (py_format v fmt);
    plt_call (Text j i s "center"
                (if f64_ltb thresh (scalar_to_f64 v) then "white" else "black")));;
  plt_fig_call TightLayout;;
  plt_call (SetYlabel "True label");;
  plt_call (SetXlabel "Predicted label").

(** [plot_confusion_matrix(cm, classes, normalize, title, cmap)].  [cm] is a
    reference to the caller's array, the [int64] matrix of counts that
    [sklearn.metrics.confusion_matrix] returns; the local name [cm] is
    rebound when [normalize] is set. *)
Definition plot_confusion_matrix (cm : loc) (classes : list string)
  (normalize : bool) (title cmap : string) : py unit :=
  cm ← (if normalize then
          cm' ← normalized cm;
          print (PrintStr "Normalized confusion matrix");;
          mret cm'
        else
          print (PrintStr "Confusion matrix, without normalization");;
          mret cm);
  a ← np_get cm;
  print (PrintArray a);;
  a ← np_get cm;
  plt_imshow a "nearest" cmap;;
  annotate cm classes normalize title.

(** The matrix that was printed: the last array written to the console. *)
Definition printed_matrix (w : world) : option ndarray :=
  match last (stdout w) with
  | Some (PrintArray a) => Some a
  | _ => None
  end.

(** The matrices shown by [imshow] on an axes, in call order, and the one
    shown last on the current axes of the current figure. *)
Definition images_of (a : axes) : list ndarray :=
  omap (fun c => match c with Imshow d _ _ => Some d | _ => None end) (ax_cmds a).

Definition plotted_matrix (w : world) : option ndarray :=
  '(_, f) ← head (figs w);
  a ← head (fig_axes f);
  last (images_of a).

(* ================================================================== *)
(** * [plotPerformance] *)
(* ================================================================== *)

(** [plotPerformance(loss, acc)]: [loss] and [acc] are sequences of series
    (training values first, validation values second). *)
Definition plotPerformance (loss acc : list (list float64)) : py unit :=
  plt_figure (Some (15, 10));;
  ax ← plt_subplot 2 2 1;
  y ← lift (getitem loss 0);
  ax_call ax (Plot y "loss");;
  y ← lift (getitem loss 1);
  ax_call ax (Plot y "val_loss");;
  ax_call ax (Legend "upper right" 1 false);;
  ax_call ax (SetXlabel "epoch");;
  ax_call ax (SetYlabel "loss");;
  plt_savefig "plots/loss.pdf";;
  plt_savefig "plots/loss.png";;
  ax ← plt_subplot 2 2 2;
  y ← lift (getitem acc 0);
  ax_call ax (Plot y "acc");;
  y ← lift (getitem acc 0);
  ax_call ax (Plot y "val_acc");;
  ax_call ax (Legend "upper left" 1 false);;
  ax_call ax (SetXlabel "epoch");;
  ax_call ax (SetYlabel "acc");;
  plt_savefig "plots/acc.pdf";;
  plt_savefig "plots/acc.png".

(** The series drawn on an axes, with their labels, in call order. *)
Definition lines_of (a : axes) : list (list float64 * string) :=
  omap (fun c => match c with Plot y l => Some (y, l) | _ => None end) (ax_cmds a).

(* ================================================================== *)
(** * [plotProbabilities] *)
(* ================================================================== *)

(** The probability array of one class: one row per event of that class, one
    column per class. *)
Record prob_array : Type := {
  n_columns : nat;
  prob_rows : list (list float64)
}.

(** [a.T[i]]: column [i] of the array. *)
Definition column (a : prob_array) (i : nat) : result (list float64) :=
  if i <? n_columns a then
    foldr (fun row acc => x ← getitem row i; xs ← acc; Ok (x :: xs)) (Ok [])
          (prob_rows a)
  else Raise IndexError.

(** One entry [[probArray, label, color]] of [probs]. *)
Record prob_entry : Type := {
  prob : prob_array;
  label : string;
  color : string
}.

(** The body of the inner loop. *)
Definition plotProbabilities_body (probs : list prob_entry) (iProb jProb : nat)
  : py unit :=
  plt_figure None;;
  p_i ← lift (getitem probs iProb);
  plt_call (SetXlabel ("Probability for " +:+ label p_i +:+ " Classification"));;
  p_j ← lift (getitem probs jProb);
  data ← lift (column (prob p_j) iProb);
  plt_call (Hist data 20 0 1 (label p_j) (color p_j) "step" true true);;
  plt_call (Legend "lower left" 6 true);;
  p_i ← lift (getitem probs iProb);
  plt_savefig ("prob_" +:+ label p_i +:+ ".pdf");;
  plt_close.

Definition plotProbabilities (probs : list prob_entry) : py unit :=
  for_each (seq 0 (length probs)) (fun iProb =>
    for_each (seq 0 (length probs)) (fun jProb =>
      plotProbabilities_body probs iProb jProb)).

(** The histogram series drawn on an axes and in a figure. *)
Definition hists_of (a : axes) : list ax_cmd :=
  List.filter (fun c => match c with Hist _ _ _ _ _ _ _ _ _ => true | _ => false end)
              (ax_cmds a).

Definition figure_hists (f : figure) : list ax_cmd :=
  concat (map hists_of (fig_axes f)).

(** The numbers of the figures created, and the paths written, in order. *)
Definition figures_created (w : world) : list nat :=
  omap (fun e => match e with EFigure n => Some n | _ => None end) (trace w).

Definition saves (w : world) : list (string * figure) :=
  omap (fun e => match e with ESavefig p f => Some (p, f) | _ => None end) (trace w).

(** An [imshow] call, as opposed to the other calls on an axes. *)
Definition is_imshow (c : ax_cmd) : bool :=
  match c with Imshow _ _ _ => true | _ => false end.

(** The world before anything has been plotted or printed, with heap [h]. *)
Definition fresh_world (h : gmap loc ndarray) (ds : gset string) : world :=
  {| heap := h; figs := []; dirs := ds; files := ∅; stdout := []; trace := [] |}.

(** The sum of a row in unbounded integers, the sum of a list of rationals,
    and the left-to-right [float64] sum of a row. *)
Definition exact_sum (row : list Z) : Z := foldr Z.add 0%Z row.
Definition Qsum (qs : list Q) : Q := foldr Qplus 0%Q qs.
Definition f64_sum (xs : list float64) : float64 := foldl f64_add (S754_zero false) xs.
Definition f64_one : float64 := f64_of_Z 1.

(** [2^-53], half the distance from 1 to the next [float64]. *)
Definition u53 : Q := 1 # 9007199254740992.

(** The specification's example matrix, and a matrix of counts whose first
    row is [2, 7, 1]; each in a world of its own, at reference 1. *)
Definition example_cm : list (list Z) := [[8; 2]; [3; 7]]%Z.
Definition example_cm_world : world :=
  fresh_world {[ 1%positive := Int2 example_cm ]} ∅.

Definition skewed_cm : list (list Z) := [[2; 7; 1]; [0; 10; 0]; [0; 0; 10]]%Z.
Definition skewed_cm_world : world :=
  fresh_world {[ 1%positive := Int2 skewed_cm ]} ∅.

(** A matrix of counts whose first row's sum, [2^63], does not fit [int64]. *)
Definition overflow_cm : list (list Z) := [[2 ^ 62; 2 ^ 62]; [1; 3]]%Z.
Definition overflow_cm_world : world :=
  fresh_world {[ 1%positive := Int2 overflow_cm ]} ∅.

(** A [float64] matrix with a row of zeros. *)
Definition zero_row_float_cm : list (list float64) :=
  [[f64_of_Z 0; f64_of_Z 0]; [f64_of_Z 1; f64_of_Z 3]].
Definition zero_row_float_cm_world : world :=
  fresh_world {[ 1%positive := Float2 zero_row_float_cm ]} ∅.

(** The figure one iteration of the inner loop of [plotProbabilities] builds:
    a single axes with the x label of class [p_i] and one histogram, of
    class [p_j]'s events. *)
Definition hist_figure (p_i p_j : prob_entry) (data : list float64) : figure :=
  {| fig_size := None;
     fig_axes :=
       [{| ax_id := 0; ax_position := (1, 1, 1);
           ax_cmds := [SetXlabel ("Probability for " +:+ label p_i +:+ " Classification");
                       Hist data 20 0 1 (label p_j) (color p_j) "step" true true;
                       Legend "lower left" 6 true] |}];
     fig_cmds := [] |}.

(** The file [plotProbabilities] writes for class [p]. *)
Definition prob_path (p : prob_entry) : string := "prob_" +:+ label p +:+ ".pdf".

(** A two-class bundle: class A with two events, class B with one. *)
Definition two_class_probs : list prob_entry :=
  [ {| prob := {| n_columns := 2;
                  prob_rows := [[f64_of_Z 1; f64_of_Z 0]; [f64_of_Z 1; f64_of_Z 0]] |};
       label := "A"; color := "r" |};
    {| prob := {| n_columns := 2; prob_rows := [[f64_of_Z 0; f64_of_Z 1]] |};
       label := "B"; color := "b" |} ].

(** A probability array with a column for each of [n] classes. *)
Definition well_shaped (n : nat) (a : prob_array) : Prop :=
  n <= n_columns a /\ Forall (fun row => length row = n_columns a) (prob_rows a).

(** The pyplot calls of one iteration of the inner loop, for the figure
    number [num]. *)
Definition body_events (probs : list prob_entry) (num iProb jProb : nat) : list event :=
  match probs !! iProb, probs !! jProb with
  | Some p_i, Some p_j =>
      match column (prob p_j) iProb with
      | Ok data => [EFigure num;
                    ESavefig (prob_path p_i) (hist_figure p_i p_j data);
                    EClose num]
      | Raise _ => []
      end
  | _, _ => []
  end.

(* ================================================================== *)
(** * [make_keras_picklable] *)
(* ================================================================== *)

(** Files by path, with their bytes. *)
Abbreviation disk := (gmap string (list Byte.byte)).

(** An open temporary file, as [tempfile.NamedTemporaryFile] returns it:
    its path, the position of the handle and the bytes written through the
    handle but not yet flushed to the file. *)
Record tmpfile : Type := {
  tmp_name : string;
  tmp_pos : nat;
  tmp_buffer : list Byte.byte
}.

(** [tempfile.NamedTemporaryFile(...)]: a new, empty file at a path not in
    use, open for reading and writing. *)
Definition NamedTemporaryFile (d : disk) : tmpfile * disk :=
  let name := fresh (dom d) in
  ({| tmp_name := name; tmp_pos := 0; tmp_buffer := [] |}, <[name := []]> d).

(** [fd.write(data)]: buffered. *)
Definition fd_write (fd : tmpfile) (data : list Byte.byte) : tmpfile :=
  {| tmp_name := tmp_name fd; tmp_pos := tmp_pos fd;
     tmp_buffer := tmp_buffer fd ++ data |}.

(** [fd.flush()]: the buffered bytes go to the file at the handle's
    position, which moves past them. *)
Definition fd_flush (fd : tmpfile) (d : disk) : tmpfile * disk :=
  let old := default [] (d !! tmp_name fd) in
  let new := take (tmp_pos fd) old ++ tmp_buffer fd
             ++ drop (tmp_pos fd + length (tmp_buffer fd)) old in
  ({| tmp_name := tmp_name fd;
      tmp_pos := tmp_pos fd + length (tmp_buffer fd);
      tmp_buffer := [] |},
   <[tmp_name fd := new]> d).

(** [fd.read()]: pending writes are flushed, then everything from the
    handle's position to the end of the file is returned. *)
Definition fd_read (fd : tmpfile) (d : disk) : list Byte.byte * tmpfile * disk :=
  let '(fd1, d1) := fd_flush fd d in
  let content := default [] (d1 !! tmp_name fd1) in
  (drop (tmp_pos fd1) content,
   {| tmp_name := tmp_name fd1; tmp_pos := Nat.max (tmp_pos fd1) (length content);
      tmp_buffer := [] |},
   d1).

(** Leaving the [with] block: the file is closed (pending writes flushed)
    and, with [delete=True], removed. *)
Definition tmp_close (fd : tmpfile) (d : disk) : disk :=
  delete (tmp_name fd) (fd_flush fd d).2.

(** Which implementation a pickling hook of the model class is bound to:
    Python's default, or the function [make_keras_picklable] defines. *)
Inductive hook : Type := DefaultHook | KerasHook.

Record model_class : Type := {
  cls_getstate : hook;
  cls_setstate : hook
}.

Section Keras.
(** A model's attribute dictionary ([__dict__]), what [get_weights] reads
    from it, and the model-native serialisation: the bytes
    [keras.models.save_model] writes to a path and the model
    [keras.models.load_model] builds from a file's bytes. *)
Variables (model_dict weights : Type).
Variable get_weights : model_dict -> weights.
Variable save_bytes : model_dict -> list Byte.byte.
Variable load_bytes : list Byte.byte -> result model_dict.

(** The process state: the files, the model objects by reference, and the
    class [keras.models.Model] with its pickling hooks. *)
Record kstate : Type := {
  files_of : disk;
  objects : gmap loc model_dict;
  Model : model_class
}.

Definition set_disk (d : disk) (s : kstate) : kstate :=
  {| files_of := d; objects := objects s; Model := Model s |}.

(** [keras.models.save_model(model, path, overwrite=True)]. *)
Definition save_model (m : model_dict) (path : string) (d : disk) : disk :=
  <[path := save_bytes m]> d.

(** [keras.models.load_model(path)]. *)
Definition load_model (path : string) (d : disk) : result model_dict :=
  match d !! path with
  | Some bytes => load_bytes bytes
  | None => Raise FileNotFoundError
  end.

(** The pickled state: the dictionary [{ 'model_str': model_str }]. *)
Abbreviation pickled := (gmap string (list Byte.byte)).

(** The [__getstate__] that [make_keras_picklable] defines. *)
Definition __getstate__ (self : loc) (s : kstate) : kstate * result pickled :=
  match objects s !! self with
  | None => (s, Raise TypeError)
  | Some m =>
      let '(fd, d1) := NamedTemporaryFile (files_of s) in
      let d2 := save_model m (tmp_name fd) d1 in
      let '(model_str, fd', d3) := fd_read fd d2 in
      let d4 := tmp_close fd' d3 in
      (set_disk d4 s, Ok {[ "model_str" := model_str ]})
  end.

(** The [__setstate__] that [make_keras_picklable] defines:
    [self.__dict__ = model.__dict__] makes [self] the loaded model. *)
Definition __setstate__ (self : loc) (state : pickled) (s : kstate)
  : kstate * result unit :=
  let '(fd, d1) := NamedTemporaryFile (files_of s) in
  match state !! "model_str" with
  | None => (set_disk (tmp_close fd d1) s, Raise KeyError)
  | Some model_str =>
      let fd1 := fd_write fd model_str in
      let '(fd2, d2) := fd_flush fd1 d1 in
      match load_model (tmp_name fd2) d2 with
      | Raise e => (set_disk (tmp_close fd2 d2) s, Raise e)
      | Ok model =>
          ({| files_of := tmp_close fd2 d2;
              objects := <[self := model]> (objects s);
              Model := Model s |}, Ok tt)
      end
  end.

(** [make_keras_picklable()]: binds both hooks of the class. *)
Definition make_keras_picklable (s : kstate) : kstate :=
  {| files_of := files_of s; objects := objects s;
     Model := {| cls_getstate := KerasHook; cls_setstate := KerasHook |} |}.

(** Capturing and restoring a model through the hooks the class has, as
    pickling does.  With the default hooks a Keras model does not pickle. *)
Definition capture (self : loc) (s : kstate) : kstate * result pickled :=
  match cls_getstate (Model s) with
  | KerasHook => __getstate__ self s
  | DefaultHook => (s, Raise TypeError)
  end.

Definition restore (target : loc) (state : pickled) (s : kstate)
  : kstate * result unit :=
  match cls_setstate (Model s) with
  | KerasHook => __setstate__ target state s
  | DefaultHook => (s, Raise TypeError)
  end.

End Keras.

(** A matrix of counts with two rows of sum zero, at reference 1. *)
Definition zero_row_cm : list (list Z) := [[0; 0]; [2; -2]; [3; 7]]%Z.
Definition zero_row_cm_world : world :=
  fresh_world {[ 1%positive := Int2 zero_row_cm ]} ∅.

(** A training history of two epochs. *)
Definition example_loss : list (list float64) :=
  [[f64_of_Z 4; f64_of_Z 2]; [f64_of_Z 5; f64_of_Z 3]].
Definition example_acc : list (list float64) :=
  [[f64_of_Z 0; f64_of_Z 1]; [f64_of_Z 1; f64_of_Z 0]].

(** A model reduced to a name and its weights; the file format keeps the
    weights only, so a loaded model has lost its name. *)
Record toy_model : Type := { toy_name : string; toy_weights : list Byte.byte }.
Definition toy_save (m : toy_model) : list Byte.byte := toy_weights m.
Definition toy_load (bytes : list Byte.byte) : result toy_model :=
  Ok {| toy_name := "loaded"; toy_weights := bytes |}.
Definition toy_state : kstate toy_model :=
  {| files_of := {[ "weights.h5" := [] ]};
     objects := {[ 1%positive := {| toy_name := "bes"; toy_weights := [Byte.x01; Byte.x02] |};
                   2%positive := {| toy_name := "blank"; toy_weights := [] |} ]};
     Model := {| cls_getstate := DefaultHook; cls_setstate := DefaultHook |} |}.

(** An argument of [randomizeData] whose items all refer to list objects,
    none of them [array] itself; unlike in [pools_at], one list object may
    stand at several indices. *)
Definition refs_at {V : Type} (h : liststore V) (array : loc) (refs : list loc)
  : Prop :=
  h !! array = Some (map VRef refs) /\
  (array ∉ refs) /\
  forall p, p ∈ refs -> is_Some (h !! p).

(** A number: a value that is no sequence and no reference. *)
Definition is_number {V : Type} (v : value V) : Prop :=
  match v with
  | VScalar _ | VInt _ => True
  | VTuple _ | VRef _ => False
  end.

(** A sequence: a list object of the store, or a tuple. *)
Definition is_sequence {V : Type} (h : liststore V) (v : value V) : Prop :=
  match v with
  | VRef l => is_Some (h !! l)
  | VTuple _ => True
  | VScalar _ | VInt _ => False
  end.

(** A list at 1 holding the pool [[7]] (object 2) and, in place of a second
    pool, the tuple [(5,)]. *)
Definition tuple_store : liststore Z :=
  <[1%positive := [VRef 2%positive; VTuple [VScalar 5%Z]]]>
    (<[2%positive := [VScalar 7%Z]]> ∅).

(** A list of no pools at 1; a list holding a number at 1; and the one pool
    [[7]] (object 2) standing twice in the list at 1. *)
Definition no_pools_store : liststore Z := <[1%positive := []]> ∅.

Definition number_store : liststore Z := <[1%positive := [VInt 5]]> ∅.

Definition aliased_store : liststore Z :=
  <[1%positive := [VRef 2%positive; VRef 2%positive]]>
    (<[2%positive := [VScalar 7%Z]]> ∅).

(** The current axes of the current figure, and the calls made on it so far,
    in call order. *)
Definition current_axes (w : world) : option axes :=
  '(_, f) ← head (figs w); head (fig_axes f).

Definition drawn (w : world) : list ax_cmd :=
  default [] (ax_cmds <$> current_axes w).

(** The cell texts among the calls on an axes, and their colours. *)
Definition texts_of (cmds : list ax_cmd) : list ax_cmd :=
  List.filter (fun c => match c with Text _ _ _ _ _ => true | _ => false end) cmds.

Definition text_color (c : ax_cmd) : option string :=
  match c with Text _ _ _ _ color => Some color | _ => None end.

(** The tick positions [numpy.arange(len(classes))]. *)
Definition tick_marks (classes : list string) : list Z :=
  seqZ 0 (Z.of_nat (length classes)).

(** A float matrix at reference 1, as a caller holds it who has normalised
    the counts already. *)
Definition float_cm : list (list float64) :=
  [[f64_div (f64_of_Z 8) (f64_of_Z 10); f64_div (f64_of_Z 2) (f64_of_Z 10)];
   [f64_div (f64_of_Z 3) (f64_of_Z 10); f64_div (f64_of_Z 7) (f64_of_Z 10)]].
Definition float_cm_world : world :=
  fresh_world {[ 1%positive := Float2 float_cm ]} ∅.

(** The call [plt.text(j, i, format(cm[i, j], fmt), ...)] of the annotation
    loop for the cell [ij = (i, j)] of the array [a], given the threshold. *)
Definition cell_command (a : ndarray) (fmt : string) (thresh : float64)
  (ij : nat * nat) : result ax_cmd :=
  v ← getitem2 a ij.1 ij.2;
  s ← py_format v fmt;
  Ok (Text ij.2 ij.1 s "center"
        (if f64_ltb thresh (scalar_to_f64 v) then "white" else "black")).

(** The matrices shown by [imshow] among the calls drawn on the current
    axes, in call order. *)
Definition images_drawn (w : world) : list ndarray :=
  omap (fun c => match c with Imshow d _ _ => Some d | _ => None end) (drawn w).

(** What a function that only draws leaves alone: the files, the paths
    written, the directories; and, when a figure was open to begin with
    ([had_figure]), the figures created so far and the number of open
    figures. *)
Definition draws_only (F : gmap string figure) (S : list (string * figure))
  (Dr : gset string) (had_figure : Prop) (N : list nat) (n : nat) (w : world) : Prop :=
  files w = F /\ saves w = S /\ dirs w = Dr /\
  (had_figure -> figs w ≠ [] /\ figures_created w = N /\ length (figs w) = n).

(** A one-dimensional array of counts at reference 1. *)
Definition flat_cm_world : world :=
  fresh_world {[ 1%positive := Int1 [8; 2; 3; 7]%Z ]} ∅.

(** A bundle whose first label holds a [/]: its file would lie in a
    directory [prob_W]. *)
Definition slash_probs : list prob_entry :=
  [ {| prob := {| n_columns := 1; prob_rows := [[f64_of_Z 1]] |};
       label := "W/Z"; color := "r" |} ].

(* ================================================================== *)
(** * Properties *)
(* ================================================================== *)

(* ------------------------------------------------------------------ *)
(** ** Strings *)

Lemma startswith_spec (s p : string) :
  startswith s p = true <-> exists post, s = p +:+ post.
Proof.
  revert s; induction p as [|c p IH]; intros s; simpl.
  - split; [intros _; now exists s | reflexivity].
  - destruct s as [|d s].
    + split; [discriminate | intros [post H]; discriminate].
    + rewrite andb_true_iff, Ascii.eqb_eq, IH. split.
      * intros [-> [post ->]]. now exists post.
      * intros [post H]. injection H as -> ->. split; [reflexivity | now exists post].
Qed.

Lemma str_in_spec (sub s : string) :
  str_in sub s = true <-> substring_of sub s.
Proof.
  unfold substring_of. induction s as [|d s IH]; simpl.
  - rewrite orb_false_r, startswith_spec. split.
    + intros [post H]. now exists EmptyString, post.
    + intros [[|c pre] [post H]]; [now exists post | discriminate].
  - rewrite orb_true_iff, IH, startswith_spec. split.
    + intros [[post H] | [pre [post H]]].
      * now exists EmptyString, post.
      * exists (String d pre), post. simpl. now rewrite H.
    + intros [[|c pre] [post H]].
      * left. now exists post.
      * right. simpl in H. injection H as _ H. now exists pre, post.
Qed.

Lemma allowedb_spec (name : string) : allowedb name = true <-> allowed name.
Proof.
  unfold allowedb, allowed. rewrite forallb_forall. split.
  - intros H d Hd Hsub. apply str_in_spec in Hsub.
    specialize (H d Hd). rewrite Hsub in H. discriminate.
  - intros H d Hd. destruct (str_in d name) eqn:E; [|reflexivity].
    exfalso. apply (H d Hd). now apply str_in_spec.
Qed.

(* ------------------------------------------------------------------ *)
(** ** [getBranchNames] *)

(** The chain of [continue] tests is the denylist test. *)
Lemma getBranchNames_loop_step (branch : TBranch) (branches : list TBranch)
  (treeVars : list string) :
  getBranchNames_loop (branch :: branches) treeVars =
  getBranchNames_loop branches
    (if allowedb (GetName branch) then treeVars ++ [GetName branch] else treeVars).
Proof.
  simpl. unfold allowedb, denylist. simpl.
  destruct (str_in "nJets" _); [reflexivity|].
  destruct (str_in "SoftDropMass" _); [reflexivity|].
  destruct (str_in "mass" _); [reflexivity|].
  destruct (str_in "gen" _); [reflexivity|].
  destruct (str_in "pt" _); reflexivity.
Qed.

Lemma getBranchNames_loop_filter (branches : list TBranch) (treeVars : list string) :
  getBranchNames_loop branches treeVars =
  treeVars ++ List.filter allowedb (map GetName branches).
Proof.
  revert treeVars; induction branches as [|b bs IH]; intros treeVars.
  - simpl. now rewrite app_nil_r.
  - rewrite getBranchNames_loop_step, IH. simpl.
    destruct (allowedb (GetName b)); [|reflexivity].
    now rewrite <- app_assoc.
Qed.

Lemma filter_sublist {A : Type} (f : A -> bool) (l : list A) :
  sublist (List.filter f l) l.
Proof.
  induction l as [|x l IH]; simpl.
  - constructor.
  - destruct (f x); now constructor.
Qed.

(** C3. For every tree, [getBranchNames] returns, in the input's order, exactly
    the branch names in which none of "nJets", "SoftDropMass", "mass", "gen",
    "pt" occurs as a (case-sensitive) substring: the result is the input
    filtered by that test, hence an ordered sublist of the input whose members
    are the allowed input names; it is a total function (no error case), empty
    when every name is denied; and the names
    "pt1", "massSD", "jetAK8_eta", "nJets" give just "jetAK8_eta". *)
Theorem getBranchNames_spec :
  (forall tree : TTree,
     let names := map GetName (GetListOfBranches tree) in
     getBranchNames tree = List.filter allowedb names /\
     sublist (getBranchNames tree) names /\
     (forall n, In n (getBranchNames tree) <-> In n names /\ allowed n) /\
     ((forall n, In n names -> ~ allowed n) -> getBranchNames tree = [])) /\
  (forall n, allowedb n = true <-> allowed n) /\
  getBranchNames (tree_of_names ["pt1"; "massSD"; "jetAK8_eta"; "nJets"])
    = ["jetAK8_eta"] /\
  allowedb "PT_jet" = true.
Proof.
  split; [|split; [exact allowedb_spec | split; reflexivity]].
  intros tree names.
  assert (E : getBranchNames tree = List.filter allowedb names).
  { unfold getBranchNames. now rewrite getBranchNames_loop_filter. }
  split; [exact E|]. rewrite E. split; [apply filter_sublist|]. split.
  - intros n. rewrite filter_In, allowedb_spec. reflexivity.
  - intros Hall. destruct (List.filter allowedb names) as [|n l] eqn:F; [reflexivity|].
    assert (Hn : In n (List.filter allowedb names)) by (rewrite F; now left).
    apply filter_In in Hn. destruct Hn as [Hin Hb].
    exfalso. apply (Hall n Hin). now apply allowedb_spec.
Qed.

(* ------------------------------------------------------------------ *)
(** ** List objects *)

Section ListObjectFacts.
Context {V : Type}.
Implicit Types (h : liststore V) (l : loc) (items : list (value V)).

Lemma new_list_fresh items h : (new_list items h).1 ∉ dom h.
Proof. apply is_fresh. Qed.

Lemma new_list_lookup items h :
  (new_list items h).2 !! (new_list items h).1 = Some items.
Proof. apply lookup_insert_eq. Qed.

Lemma new_list_frame items h l :
  l ∈ dom h -> (new_list items h).2 !! l = h !! l.
Proof.
  intros Hl. unfold new_list; simpl. apply lookup_insert_ne.
  intros E. apply (is_fresh (dom h)). now rewrite E.
Qed.

Lemma list_append_lookup l x h items :
  h !! l = Some items -> list_append l x h !! l = Some (items ++ [x]).
Proof. intros H. unfold list_append. now rewrite lookup_alter_eq, H. Qed.

Lemma list_append_frame l l' x h :
  l ≠ l' -> list_append l x h !! l' = h !! l'.
Proof. intros H. unfold list_append. now rewrite lookup_alter_ne. Qed.

End ListObjectFacts.

(* ------------------------------------------------------------------ *)
(** ** [appendTreeArray] *)

Section AppendTreeArrayFacts.
Context {V : Type}.
Implicit Types (h : liststore V) (entries : list (list V)).

(** The loop appends to [tmpArray] one new list object per record, holding
    that record's values, and touches no other list object. *)
Lemma appendTreeArray_loop_spec (tmpArray : loc) entries : forall h (done : list loc),
  h !! tmpArray = Some (map VRef done) ->
  exists rows : list loc,
    let h' := foldl (appendTreeArray_body tmpArray) h entries in
    h' !! tmpArray = Some (map VRef (done ++ rows)) /\
    length rows = length entries /\
    (forall i l, rows !! i = Some l ->
       (l ∉ dom h) /\ (exists e, entries !! i = Some e /\ h' !! l = Some (map VScalar e))) /\
    (forall l, l ∈ dom h -> l ≠ tmpArray -> h' !! l = h !! l).
Proof.
  induction entries as [|e entries IH]; intros h done Htmp.
  - exists []. simpl. rewrite app_nil_r.
    split; [assumption|]. split; [reflexivity|]. split; [|reflexivity].
    intros i l Hl. now rewrite lookup_nil in Hl.
  - simpl. unfold appendTreeArray_body at 2, list_of_entry.
    unfold new_list. set (a := fresh (dom h)).
    set (h1 := <[a := map VScalar e]> h).
    assert (Ha : a ∉ dom h) by apply is_fresh.
    assert (Hh1a : h1 !! a = Some (map VScalar e)) by apply lookup_insert_eq.
    assert (Hh1 : forall l, l ∈ dom h -> h1 !! l = h !! l).
    { intros l Hl. apply lookup_insert_ne. intros E. apply Ha. now rewrite E. }
    assert (Htmpdom : tmpArray ∈ dom h) by (apply elem_of_dom; eauto).
    assert (Hne : tmpArray ≠ a) by (intros ->; contradiction).
    set (h2 := list_append tmpArray (VRef a) h1).
    assert (Htmp2 : h2 !! tmpArray = Some (map VRef (done ++ [a]))).
    { unfold h2. rewrite map_app. apply list_append_lookup.
      rewrite Hh1; assumption. }
    destruct (IH h2 (done ++ [a]) Htmp2) as (rows & Hrows & Hlen & Hnew & Hframe).
    assert (Hdom2 : forall l, l ∈ dom h -> l ∈ dom h2).
    { intros l Hl. apply elem_of_dom. destruct (decide (l = tmpArray)) as [->|Hn].
      - rewrite Htmp2; eauto.
      - unfold h2. rewrite list_append_frame by congruence. rewrite Hh1 by assumption.
        now apply elem_of_dom. }
    assert (Ha2 : a ∈ dom h2).
    { apply elem_of_dom. unfold h2. rewrite list_append_frame by assumption. eauto. }
    exists (a :: rows). cbv zeta in *. split; [|split; [|split]].
    + rewrite Hrows. now rewrite <- app_assoc.
    + simpl. now rewrite Hlen.
    + intros [|i] l Hl; simpl in Hl.
      * injection Hl as <-. split; [assumption|]. exists e. split; [reflexivity|].
        rewrite Hframe by (assumption || congruence).
        unfold h2. now rewrite list_append_frame.
      * destruct (Hnew i l Hl) as [Hl2 He]. split; [|exact He].
        intros Hin. apply Hl2. now apply Hdom2.
    + intros l Hl Hn. rewrite Hframe by (auto).
      unfold h2. rewrite list_append_frame by congruence. now apply Hh1.
Qed.

(** C4. For every heap and every structured array in it, [appendTreeArray]
    returns a new list object (its reference was not in use before the call)
    with as many items as the array has records; its i-th item is a new plain
    list holding exactly the i-th record's field values, in field order and
    unchanged; no record is dropped; and the call changes neither any numpy
    array (in particular not its argument) nor any list object that existed
    before it. *)
Theorem appendTreeArray_spec (array : loc) (h : pyheap V) (arr : struct_array V) :
  ndarrays h !! array = Some arr ->
  exists (newArray : loc) (h' : pyheap V) (rows : list loc),
    appendTreeArray array h = Some (newArray, h') /\
    (newArray ∉ dom (lists h)) /\
    lists h' !! newArray = Some (map VRef rows) /\
    length rows = length (records arr) /\
    (forall i entry, records arr !! i = Some entry ->
       exists a, rows !! i = Some a /\ (a ∉ dom (lists h)) /\
                 lists h' !! a = Some (map VScalar entry)) /\
    ndarrays h' = ndarrays h /\
    (forall l, l ∈ dom (lists h) -> lists h' !! l = lists h !! l).
Proof.
  intros Harr. unfold appendTreeArray. rewrite Harr. simpl.
  unfold new_list. set (tmpArray := fresh (dom (lists h))).
  set (h1 := <[tmpArray := []]> (lists h)).
  assert (Htmp : tmpArray ∉ dom (lists h)) by apply is_fresh.
  assert (Hh1t : h1 !! tmpArray = Some (map VRef [])) by apply lookup_insert_eq.
  assert (Hh1 : forall l, l ∈ dom (lists h) -> h1 !! l = lists h !! l).
  { intros l Hl. apply lookup_insert_ne. intros E. apply Htmp. now rewrite E. }
  destruct (appendTreeArray_loop_spec tmpArray (records arr) h1 [] Hh1t)
    as (rows & Hrows & Hlen & Hnew & Hframe).
  cbv zeta in *. simpl in Hrows.
  set (h2 := foldl (appendTreeArray_body tmpArray) h1 (records arr)) in *.
  rewrite Hrows. simpl.
  set (newArray := fresh (dom h2)).
  set (h3 := <[newArray := map VRef rows]> h2).
  assert (Hnew3 : newArray ∉ dom h2) by apply is_fresh.
  assert (Hh3n : h3 !! newArray = Some (map VRef rows)) by apply lookup_insert_eq.
  assert (Hh3 : forall l, l ∈ dom h2 -> h3 !! l = h2 !! l).
  { intros l Hl. apply lookup_insert_ne. intros E. apply Hnew3. now rewrite E. }
  assert (Hold : forall l, l ∈ dom (lists h) -> h2 !! l = lists h !! l).
  { intros l Hl. rewrite Hframe.
    - now apply Hh1.
    - apply elem_of_dom. rewrite Hh1 by assumption. now apply elem_of_dom.
    - intros ->. contradiction. }
  assert (Hdom : forall l, l ∈ dom (lists h) -> l ∈ dom h2).
  { intros l Hl. apply elem_of_dom. rewrite Hold by assumption. now apply elem_of_dom. }
  exists newArray, {| ndarrays := ndarrays h; lists := h3 |}, rows. simpl.
  split; [reflexivity|]. split; [|split; [exact Hh3n|split; [exact Hlen|split; [|split]]]].
  - intros Hin. apply Hnew3. now apply Hdom.
  - intros i entry Hentry.
    destruct (rows !! i) as [a|] eqn:Ea.
    + destruct (Hnew i a Ea) as (Hfresh & e & He & Hval).
      assert (e = entry) by congruence. subst e.
      exists a. split; [reflexivity|]. split.
      * intros Hin. apply Hfresh. apply elem_of_dom. rewrite Hh1 by assumption.
        now apply elem_of_dom.
      * rewrite Hh3; [exact Hval|]. apply elem_of_dom. eauto.
    + apply lookup_ge_None in Ea. apply lookup_lt_Some in Hentry. lia.
  - reflexivity.
  - intros l Hl. rewrite Hh3 by (now apply Hdom). now apply Hold.
Qed.

End AppendTreeArrayFacts.

(* ------------------------------------------------------------------ *)
(** ** [randomizeData]: one iteration *)

Lemma randint_index (n raw : nat) :
  0 < n -> randint 0 (Z.of_nat n - 1) raw = Ok (Z.of_nat (raw mod n)).
Proof.
  intros Hn. unfold randint.
  destruct (Z.ltb_spec (Z.of_nat n - 1) 0) as [Hlt|_]; [lia|].
  rewrite Nat2Z.inj_mod.
  replace (Z.of_nat n - 1 - 0 + 1)%Z with (Z.of_nat n) by lia.
  now rewrite Z.add_0_l.
Qed.

Lemma randint_empty_range (raw : nat) : randint 0 (0 - 1) raw = Raise ValueError.
Proof. reflexivity. Qed.

Lemma getitem_int_of_nat {A : Type} (items : list A) (i : nat) (x : A) :
  items !! i = Some x -> getitem_int items (Z.of_nat i) = Ok x.
Proof.
  intros Hx. pose proof (lookup_lt_Some _ _ _ Hx) as Hlt.
  unfold getitem_int.
  destruct (Z.ltb_spec (Z.of_nat i) 0) as [Hneg|_]; [lia|].
  destruct (Z.leb_spec 0 (Z.of_nat i)) as [_|Hneg]; [|lia].
  destruct (Z.ltb_spec (Z.of_nat i) (Z.of_nat (length items))) as [_|Hge]; [|lia].
  simpl. unfold getitem. now rewrite Nat2Z.id, Hx.
Qed.

Section RandomizeDataFacts.
Context {V : Type}.
Implicit Types (h : liststore V) (st : rd_state V) (pools : list loc).

Lemma cur_pools_lookup h pools i p :
  pools !! i = Some p -> cur_pools h pools !! i = Some (default [] (h !! p)).
Proof. intros Hp. unfold cur_pools. now rewrite list_lookup_fmap, Hp. Qed.

Lemma cur_pools_length h pools : length (cur_pools h pools) = length pools.
Proof. apply length_map. Qed.

Lemma pool_rows_cur h pools i :
  pool_rows h pools i = default [] (cur_pools h pools !! i).
Proof.
  unfold pool_rows, cur_pools. rewrite list_lookup_fmap.
  now destruct (pools !! i).
Qed.

Lemma cur_pools_seq h pools :
  map (pool_rows h pools) (seq 0 (length pools)) = cur_pools h pools.
Proof.
  apply list_eq. intros i. rewrite list_lookup_fmap.
  destruct (decide (i < length pools)) as [Hlt|Hge].
  - rewrite lookup_seq_lt by assumption. simpl.
    destruct (lookup_lt_is_Some_2 pools i Hlt) as [p Hp].
    rewrite (cur_pools_lookup _ _ _ _ Hp). unfold pool_rows. now rewrite Hp.
  - rewrite lookup_seq_ge by lia. simpl. symmetry. apply lookup_ge_None.
    rewrite cur_pools_length. lia.
Qed.

(** Writing one pool changes that pool's entry only: the pools are distinct
    objects. *)
Lemma cur_pools_insert h pools i p rows :
  NoDup pools -> pools !! i = Some p ->
  cur_pools (<[p := rows]> h) pools = <[i := rows]> (cur_pools h pools).
Proof.
  intros Hnd Hp. apply list_eq. intros j.
  destruct (decide (j = i)) as [->|Hne].
  - rewrite list_lookup_insert_eq by (rewrite cur_pools_length; eapply lookup_lt_Some; eauto).
    rewrite (cur_pools_lookup _ _ _ _ Hp). now rewrite lookup_insert_eq.
  - rewrite list_lookup_insert_ne by congruence.
    unfold cur_pools. rewrite !list_lookup_fmap.
    destruct (pools !! j) as [q|] eqn:Hq; [simpl|reflexivity].
    rewrite lookup_insert_ne; [reflexivity|].
    intros ->. apply Hne. eapply NoDup_lookup; eauto.
Qed.

Lemma cur_pools_frame h h' pools :
  (forall p, p ∈ pools -> h' !! p = h !! p) -> cur_pools h' pools = cur_pools h pools.
Proof.
  intros H. unfold cur_pools. apply map_ext_in. intros p Hp.
  rewrite H; [reflexivity|]. now apply list_elem_of_In.
Qed.

(** Taking the last row out of one pool takes exactly that row out of the
    rows that are left. *)
Lemma concat_insert_last (cur : list (list (value V))) i rows r :
  cur !! i = Some (rows ++ [r]) ->
  concat cur ≡ₚ r :: concat (<[i := rows]> cur).
Proof.
  intros Hi. pose proof (lookup_lt_Some _ _ _ Hi) as Hlt.
  rewrite insert_take_drop by assumption.
  rewrite <- (take_drop_middle cur i _ Hi) at 1.
  rewrite !concat_app. simpl.
  rewrite <- app_assoc. simpl.
  rewrite (Permutation_middle (concat (take i cur)) _ r).
  apply Permutation_app_head.
  rewrite <- Permutation_middle. reflexivity.
Qed.

Lemma list_pop_snoc h p rows r :
  h !! p = Some (rows ++ [r]) ->
  list_pop h (VRef p) = Ok (r, <[p := rows]> h).
Proof.
  intros Hp. unfold list_pop. simpl. rewrite Hp. simpl.
  rewrite last_snoc. now rewrite removelast_last.
Qed.

Lemma len_list h p rows :
  h !! p = Some rows -> len h (VRef p) = Ok (Z.of_nat (length rows)).
Proof. intros Hp. unfold len. simpl. now rewrite Hp. Qed.

(** What one iteration does on a well-formed argument: the draw selects pool
    number [raw mod n] whatever that pool holds; an empty pool leaves the
    state as it is, a non-empty one loses its last row to [trainData], its
    index goes to [targetData] and [nEvents] drops by one. *)
Lemma randomizeData_body_spec (array : loc) pools (raw : nat) st :
  pools_at (rd_heap st) array pools -> pools ≠ [] ->
  exists p rows,
    pools !! (raw mod length pools) = Some p /\
    rd_heap st !! p = Some rows /\
    match last rows with
    | None =>
        rows = [] /\ randomizeData_body (VRef array) raw st = Ok st
    | Some r =>
        rows = removelast rows ++ [r] /\
        randomizeData_body (VRef array) raw st =
          Ok {| rd_heap := <[p := removelast rows]> (rd_heap st);
                trainData := trainData st ++ [r];
                targetData := targetData st ++ [Z.of_nat (raw mod length pools)];
                nEvents := (nEvents st - 1)%Z |}
    end.
Proof.
  intros (Harr & Hnd & Hself & Hpools) Hne.
  assert (Hn : 0 < length pools) by (destruct pools; [congruence | simpl; lia]).
  set (i := raw mod length pools).
  assert (Hi : i < length pools) by (apply Nat.mod_upper_bound; lia).
  destruct (lookup_lt_is_Some_2 pools i Hi) as [p Hp].
  destruct (Hpools p) as [rows Hrows]; [eapply list_elem_of_lookup_2; eauto|].
  exists p, rows. split; [assumption|]. split; [assumption|].
  assert (Hbody : forall k,
    (n ← len (rd_heap st) (VRef array);
     rng ← randint 0 (n - 1) raw;
     items ← list_items (rd_heap st) (VRef array);
     pool ← getitem_int items rng;
     k rng pool) = k (Z.of_nat i) (VRef p) :> result (rd_state V)).
  { intros k. rewrite (len_list _ _ _ Harr). simpl. rewrite length_map.
    rewrite randint_index by assumption. simpl. rewrite Harr. simpl.
    rewrite (getitem_int_of_nat _ i (VRef p)); [reflexivity|].
    now rewrite list_lookup_fmap, Hp. }
  unfold randomizeData_body. cbv zeta.
  rewrite (Hbody (fun rng pool => m ← len (rd_heap st) pool; _)).
  rewrite (len_list _ _ _ Hrows). simpl.
  destruct (last rows) as [r|] eqn:Hlast.
  - apply last_Some in Hlast. destruct Hlast as [rows' ->].
    rewrite removelast_last. split; [reflexivity|].
    rewrite length_app. simpl.
    destruct (Z.ltb_spec 0 (Z.of_nat (length rows' + 1))) as [_|Hle]; [|lia].
    rewrite (list_pop_snoc _ _ _ _ Hrows). reflexivity.
  - apply last_None in Hlast. subst rows. split; reflexivity.
Qed.

(* ------------------------------------------------------------------ *)
(** ** [randomizeData]: the loop invariant *)

Lemma labelled_snoc (i t : Z) (train : list (value V)) (target : list Z) r :
  length train = length target ->
  labelled i (train ++ [r]) (target ++ [t]) =
  labelled i train target ++ (if (t =? i)%Z then [r] else []).
Proof.
  revert target; induction train as [|x train IH]; intros [|y target] Hlen;
    simpl in *; try discriminate.
  - now destruct (t =? i)%Z.
  - rewrite IH by lia. now destruct (y =? i)%Z.
Qed.

Lemma labelled_length (i : Z) (train : list (value V)) (target : list Z) :
  length train = length target ->
  length (labelled i train target) = count_occ Z.eq_dec target i.
Proof.
  revert target; induction train as [|x train IH]; intros [|y target] Hlen;
    simpl in *; try discriminate; [reflexivity|].
  destruct (Z.eqb_spec y i) as [->|Hne].
  - destruct (Z.eq_dec i i); [|congruence]. simpl. rewrite IH; lia.
  - destruct (Z.eq_dec y i); [congruence|]. apply IH. lia.
Qed.

Lemma labelled_lookup (train : list (value V)) (target : list Z) k row t :
  train !! k = Some row -> target !! k = Some t -> row ∈ labelled t train target.
Proof.
  revert target k; induction train as [|x train IH]; intros [|y target] [|k];
    simpl; try discriminate.
  - intros [= ->] [= ->]. rewrite Z.eqb_refl. left.
  - intros Hr Ht. specialize (IH _ _ Hr Ht).
    destruct (y =? t)%Z; [now right | assumption].
Qed.

(** The invariant of the [while] loop, relative to the store [h0] the function
    was called in: the argument is still well formed; the two output lists
    have the same length and every label is a pool index; pool [i]'s original
    rows are the rows it still holds followed by the rows labelled [i] in
    reverse order of their drawing; and [nEvents] counts the rows left. *)
Record rd_inv (array : loc) pools (h0 : liststore V) (st : rd_state V) : Prop := {
  inv_wf : pools_at (rd_heap st) array pools;
  inv_len : length (trainData st) = length (targetData st);
  inv_labels : Forall (fun t => (0 <= t < Z.of_nat (length pools))%Z) (targetData st);
  inv_rows : forall i, i < length pools ->
    pool_rows h0 pools i =
    pool_rows (rd_heap st) pools i ++
    rev (labelled (Z.of_nat i) (trainData st) (targetData st));
  inv_perm : trainData st ++ concat (cur_pools (rd_heap st) pools)
             ≡ₚ concat (cur_pools h0 pools);
  inv_count : nEvents st = Z.of_nat (rows_left (rd_heap st) pools);
  inv_frame : forall l, l ∉ pools -> rd_heap st !! l = h0 !! l
}.

Lemma randomizeData_count_spec (array : loc) pools h :
  pools_at h array pools ->
  forall (indices : list nat) (acc : Z),
    Forall (fun i => i < length pools) indices ->
    randomizeData_count h (VRef array) indices acc =
    Ok (acc + Z.of_nat (length (concat (map (pool_rows h pools) indices))))%Z.
Proof.
  intros (Harr & Hnd & Hself & Hpools).
  induction indices as [|i indices IH]; intros acc Hall.
  - simpl. f_equal. lia.
  - inversion Hall as [|? ? Hi Hall']; subst.
    destruct (lookup_lt_is_Some_2 pools i Hi) as [p Hp].
    destruct (Hpools p) as [rows Hrows]; [eapply list_elem_of_lookup_2; eauto|].
    simpl. rewrite Harr. simpl. unfold getitem.
    rewrite list_lookup_fmap, Hp. simpl.
    rewrite (len_list _ _ _ Hrows). simpl. rewrite IH by assumption. f_equal.
    unfold pool_rows at 2. rewrite Hp, Hrows. simpl.
    rewrite length_app. lia.
Qed.

Lemma randomizeData_init_spec (array : loc) pools h :
  pools_at h array pools ->
  randomizeData_init (VRef array) h =
  Ok {| rd_heap := h; trainData := []; targetData := [];
        nEvents := Z.of_nat (rows_left h pools) |}.
Proof.
  intros Hwf. unfold randomizeData_init. simpl.
  destruct Hwf as (Harr & Hrest). rewrite Harr. simpl. rewrite length_map.
  rewrite (randomizeData_count_spec array pools h (conj Harr Hrest)).
  - simpl. unfold rows_left. now rewrite cur_pools_seq.
  - apply Forall_forall. intros i Hi. apply elem_of_seq in Hi. lia.
Qed.

Lemma rd_inv_init (array : loc) pools h :
  pools_at h array pools ->
  rd_inv array pools h
    {| rd_heap := h; trainData := []; targetData := [];
       nEvents := Z.of_nat (rows_left h pools) |}.
Proof.
  intros Hwf. constructor; simpl; auto.
  intros i _. now rewrite app_nil_r.
Qed.

Lemma rd_inv_body (array : loc) pools h0 raw st st' :
  rd_inv array pools h0 st -> pools ≠ [] ->
  randomizeData_body (VRef array) raw st = Ok st' ->
  rd_inv array pools h0 st'.
Proof.
  intros Hinv Hne Hbody.
  destruct (randomizeData_body_spec array pools raw st (inv_wf _ _ _ _ Hinv) Hne)
    as (p & rows & Hp & Hrows & Hcase).
  set (i := raw mod length pools) in *.
  destruct (last rows) as [r|].
  2:{ destruct Hcase as [_ E]. rewrite E in Hbody. now injection Hbody as <-. }
  destruct Hcase as [Erows E]. rewrite E in Hbody. injection Hbody as <-.
  set (rows' := removelast rows) in *.
  destruct Hinv as [(Harr & Hnd & Hself & Hpools) Hlen Hlab Hrw Hperm Hcnt Hfr].
  assert (Hi : i < length pools) by (eapply lookup_lt_Some; eauto).
  assert (Hpin : p ∈ pools) by (eapply list_elem_of_lookup_2; eauto).
  assert (Hcur : cur_pools (rd_heap st) pools !! i = Some (rows' ++ [r])).
  { rewrite (cur_pools_lookup _ _ _ _ Hp), Hrows. simpl. now rewrite <- Erows. }
  pose proof (concat_insert_last _ _ _ _ Hcur) as Hcat.
  constructor; simpl.
  - split; [|split; [assumption|split; [assumption|]]].
    + rewrite lookup_insert_ne; [assumption|]. intros ->. contradiction.
    + intros q Hq. destruct (decide (p = q)) as [->|Hpq].
      * rewrite lookup_insert_eq. eauto.
      * rewrite lookup_insert_ne by assumption. auto.
  - rewrite !length_app. simpl. lia.
  - apply Forall_app. split; [assumption|]. constructor; [lia|constructor].
  - intros j Hj. rewrite labelled_snoc by assumption.
    rewrite (Hrw j Hj), !pool_rows_cur, (cur_pools_insert _ _ _ _ _ Hnd Hp).
    destruct (decide (j = i)) as [->|Hji].
    + rewrite Z.eqb_refl.
      rewrite list_lookup_insert_eq by (rewrite cur_pools_length; assumption).
      rewrite Hcur. simpl. rewrite rev_app_distr. simpl.
      now rewrite <- app_assoc.
    + rewrite list_lookup_insert_ne by congruence.
      destruct (Z.eqb_spec (Z.of_nat i) (Z.of_nat j)) as [E'|_]; [lia|].
      now rewrite app_nil_r.
  - rewrite (cur_pools_insert _ _ _ _ _ Hnd Hp).
    rewrite <- Hperm. rewrite Hcat.
    rewrite <- app_assoc. simpl. apply Permutation_app_head.
    reflexivity.
  - unfold rows_left in *. rewrite (cur_pools_insert _ _ _ _ _ Hnd Hp).
    rewrite Hcnt. apply Permutation_length in Hcat. rewrite Hcat. simpl. lia.
  - intros l Hl. rewrite lookup_insert_ne; [now apply Hfr|].
    intros ->. contradiction.
Qed.

(** Rows are left only when there is a pool. *)
Lemma rd_inv_pools_nonempty (array : loc) pools h0 st :
  rd_inv array pools h0 st -> (0 < nEvents st)%Z -> pools ≠ [].
Proof.
  intros Hinv Hpos ->. rewrite (inv_count _ _ _ _ Hinv) in Hpos.
  unfold rows_left in Hpos. simpl in Hpos. lia.
Qed.

(* ------------------------------------------------------------------ *)
(** ** [randomizeData]: the run of the loop *)

(** An iteration either leaves the state as it is or takes one row. *)
Lemma randomizeData_body_cases (array : value V) raw st st' :
  randomizeData_body array raw st = Ok st' ->
  st' = st \/ nEvents st' = (nEvents st - 1)%Z.
Proof.
  unfold randomizeData_body. cbv zeta.
  destruct (len (rd_heap st) array) as [n|]; simpl; [|discriminate].
  destruct (randint 0 (n - 1) raw) as [rng|]; simpl; [|discriminate].
  destruct (list_items (rd_heap st) array) as [items|]; simpl; [|discriminate].
  destruct (getitem_int items rng) as [pool|]; simpl; [|discriminate].
  destruct (len (rd_heap st) pool) as [m|]; simpl; [|discriminate].
  destruct (0 <? m)%Z.
  - destruct (list_pop (rd_heap st) pool) as [[row h']|]; simpl; [|discriminate].
    intros [= <-]. now right.
  - intros [= <-]. now left.
Qed.

Lemma randomizeData_body_no_pools (array : loc) raw st :
  pools_at (rd_heap st) array [] ->
  randomizeData_body (VRef array) raw st = Raise ValueError.
Proof.
  intros (Harr & _). unfold randomizeData_body. cbv zeta.
  now rewrite (len_list _ _ _ Harr).
Qed.

Lemma rd_inv_body' (array : loc) pools h0 raw st st' :
  rd_inv array pools h0 st ->
  randomizeData_body (VRef array) raw st = Ok st' ->
  rd_inv array pools h0 st'.
Proof.
  intros Hinv Hbody. destruct pools as [|p pools].
  - rewrite (randomizeData_body_no_pools array raw st (inv_wf _ _ _ _ Hinv)) in Hbody.
    discriminate.
  - eapply rd_inv_body; eauto.
Qed.

Lemma concat_nonempty_lookup {A : Type} (l : list (list A)) :
  concat l <> [] -> exists i rows, l !! i = Some rows /\ rows <> [].
Proof.
  induction l as [|x l IH]; simpl; [congruence|].
  destruct x as [|a x].
  - intros H. destruct (IH H) as (i & rows & Hi & Hne). now exists (S i), rows.
  - intros _. now exists 0, (a :: x).
Qed.

Lemma sizes_after_length (draws : nat -> nat) (sizes : list nat) (k : nat) :
  length (sizes_after draws sizes k) = length sizes.
Proof.
  induction k as [|k IH]; [reflexivity|]. cbn [sizes_after]. cbv zeta.
  destruct (sizes_after draws sizes k !! (draws k mod length sizes)) as [[|n]|];
    rewrite ?length_insert; exact IH.
Qed.

Lemma pool_sizes_length h pools : length (pool_sizes h pools) = length pools.
Proof. unfold pool_sizes. now rewrite length_map, cur_pools_length. Qed.

Lemma pool_sizes_lookup h pools i p rows :
  pools !! i = Some p -> h !! p = Some rows ->
  pool_sizes h pools !! i = Some (length rows).
Proof.
  intros Hp Hrows. unfold pool_sizes.
  now rewrite list_lookup_fmap, (cur_pools_lookup _ _ _ _ Hp), Hrows.
Qed.

Section Run.
Variables (draws : nat -> nat) (array : loc) (pools : list loc).
Variables (h0 : liststore V) (st0 : rd_state V).
Hypothesis Hinv0 : rd_inv array pools h0 st0.

Local Abbreviation iter := (randomizeData_iter draws (VRef array)).
Local Abbreviation while := (randomizeData_while draws (VRef array)).

Lemma iter_succ k st :
  iter (S k) st0 = Ok st <->
  exists st_k, iter k st0 = Ok st_k /\
               randomizeData_body (VRef array) (draws k) st_k = Ok st.
Proof.
  simpl. destruct (iter k st0) as [st_k|e]; simpl.
  - split; [intros H; now exists st_k | intros (? & [= <-] & H); exact H].
  - split; [discriminate | intros (? & [=] & _)].
Qed.

Lemma iter_prefix j st_j k :
  iter j st0 = Ok st_j -> k <= j -> exists st_k, iter k st0 = Ok st_k.
Proof.
  revert st_j; induction j as [|j IH]; intros st_j Hj Hk.
  - assert (k = 0) as -> by lia. eauto.
  - destruct (decide (k = S j)) as [->|Hne]; [eauto|].
    apply iter_succ in Hj. destruct Hj as (st' & Hj & _).
    apply (IH st' Hj). lia.
Qed.

Lemma rd_inv_iter k st : iter k st0 = Ok st -> rd_inv array pools h0 st.
Proof.
  revert st; induction k as [|k IH]; intros st Hk.
  - simpl in Hk. now injection Hk as <-.
  - apply iter_succ in Hk. destruct Hk as (st_k & Hk & Hbody).
    exact (rd_inv_body' _ _ _ _ _ _ (IH _ Hk) Hbody).
Qed.

Lemma nEvents_nonneg k st : iter k st0 = Ok st -> (0 <= nEvents st)%Z.
Proof. intros Hk. rewrite (inv_count _ _ _ _ (rd_inv_iter k st Hk)). lia. Qed.

(** [nEvents] never grows. *)
Lemma nEvents_antitone k j st_k st_j :
  iter k st0 = Ok st_k -> iter j st0 = Ok st_j -> k <= j ->
  (nEvents st_j <= nEvents st_k)%Z.
Proof.
  revert st_j; induction j as [|j IH]; intros st_j Hk Hj Hle.
  - assert (k = 0) as -> by lia. rewrite Hk in Hj. injection Hj as <-. lia.
  - destruct (decide (k = S j)) as [->|Hne].
    + rewrite Hk in Hj. injection Hj as <-. lia.
    + apply iter_succ in Hj. destruct Hj as (st' & Hj & Hbody).
      specialize (IH st' Hk Hj ltac:(lia)).
      destruct (randomizeData_body_cases _ _ _ _ Hbody) as [->|E]; lia.
Qed.

(** The loop is deterministic in its fuel: more fuel never changes a result. *)
Lemma while_more_fuel fuel : forall fuel' k st r,
  while fuel k st = Some r -> fuel <= fuel' -> while fuel' k st = Some r.
Proof.
  induction fuel as [|fuel IH]; intros fuel' k st r Hr Hle.
  - simpl in Hr. destruct fuel'; simpl; destruct (0 <? nEvents st)%Z; congruence.
  - destruct fuel' as [|fuel']; [lia|]. simpl in *.
    destruct (0 <? nEvents st)%Z; [|assumption].
    destruct (randomizeData_body (VRef array) (draws k) st); [|assumption].
    apply IH; [assumption | lia].
Qed.

(** What the loop returns is the state at the first iteration count at which
    [nEvents] is no longer positive. *)
Lemma while_returns_first fuel : forall k st st',
  iter k st0 = Ok st ->
  while fuel k st = Some (Ok st') ->
  exists K, k <= K <= k + fuel /\ iter K st0 = Ok st' /\ (nEvents st' <= 0)%Z /\
    forall j st_j, k <= j < K -> iter j st0 = Ok st_j -> (0 < nEvents st_j)%Z.
Proof.
  induction fuel as [|fuel IH]; intros k st st' Hk Hw; simpl in Hw.
  - destruct (Z.ltb_spec 0 (nEvents st)) as [Hpos|Hle]; [discriminate|].
    injection Hw as <-. exists k. repeat split; auto; intros; lia.
  - destruct (Z.ltb_spec 0 (nEvents st)) as [Hpos|Hle].
    + destruct (randomizeData_body (VRef array) (draws k) st) as [st1|e] eqn:Hbody;
        [|discriminate].
      assert (Hk1 : iter (S k) st0 = Ok st1) by (apply iter_succ; eauto).
      destruct (IH (S k) st1 st' Hk1 Hw) as (K & HK & HiK & Hz & Hbefore).
      exists K. split; [lia|]. split; [assumption|]. split; [assumption|].
      intros j st_j Hj Hjs. destruct (decide (j = k)) as [->|Hne].
      * rewrite Hk in Hjs. now injection Hjs as <-.
      * apply (Hbefore j st_j); [lia | assumption].
    + injection Hw as <-. exists k. repeat split; auto; intros; lia.
Qed.

(** Conversely the loop reaches that state, given enough fuel. *)
Lemma while_reaches K st_K :
  iter K st0 = Ok st_K -> (nEvents st_K <= 0)%Z ->
  (forall j st_j, j < K -> iter j st0 = Ok st_j -> (0 < nEvents st_j)%Z) ->
  forall d k st_k, K = k + d -> iter k st0 = Ok st_k ->
    while d k st_k = Some (Ok st_K).
Proof.
  intros HK Hz Hbefore. induction d as [|d IH]; intros k st_k HKk Hk.
  - assert (k = K) as -> by lia. rewrite HK in Hk. injection Hk as <-.
    simpl. destruct (Z.ltb_spec 0 (nEvents st_K)); [lia | reflexivity].
  - simpl. pose proof (Hbefore k st_k ltac:(lia) Hk) as Hpos.
    destruct (Z.ltb_spec 0 (nEvents st_k)) as [_|Hle]; [|lia].
    destruct (iter_prefix K st_K (S k) HK ltac:(lia)) as [st1 Hk1].
    pose proof Hk1 as Hk1'. apply iter_succ in Hk1'.
    destruct Hk1' as (st_k' & Hk' & Hbody).
    rewrite Hk in Hk'. injection Hk' as <-. rewrite Hbody.
    apply IH; [lia | assumption].
Qed.

(** The run of the loop follows the rule of the sampling: every iteration
    returns, and after [k] of them the pools hold as many rows as the rule
    says. *)
Lemma iter_sizes k :
  pools ≠ [] ->
  exists st, iter k st0 = Ok st /\
    pool_sizes (rd_heap st) pools
    = sizes_after draws (pool_sizes (rd_heap st0) pools) k.
Proof.
  intros Hne. induction k as [|k IH]; [now exists st0|].
  destruct IH as (st & Hk & Hsz).
  pose proof (rd_inv_iter k st Hk) as Hinv.
  destruct (randomizeData_body_spec array pools (draws k) st (inv_wf _ _ _ _ Hinv) Hne)
    as (p & rows & Hp & Hrows & Hcase).
  cbn [sizes_after]. cbv zeta. rewrite <- Hsz, pool_sizes_length.
  rewrite (pool_sizes_lookup _ _ _ _ _ Hp Hrows).
  destruct (last rows) as [r|] eqn:Hlast.
  - destruct Hcase as [Erows Hbody].
    assert (Hlen : length rows = S (length (removelast rows))).
    { rewrite Erows at 1. rewrite length_app. simpl. lia. }
    rewrite Hlen. eexists. split; [apply iter_succ; eauto|]. simpl rd_heap.
    destruct (inv_wf _ _ _ _ Hinv) as (_ & Hnd & _).
    unfold pool_sizes. rewrite (cur_pools_insert _ _ _ _ _ Hnd Hp).
    now rewrite list_fmap_insert.
  - destruct Hcase as [-> Hbody]. exists st. split; [apply iter_succ; eauto|].
    reflexivity.
Qed.

(** A draw that hits a non-empty pool makes the body take a row. *)
Lemma eventually_hits_progress :
  eventually_hits draws (pool_sizes (rd_heap st0) pools) ->
  forall k st, iter k st0 = Ok st -> (0 < nEvents st)%Z ->
    exists j st_j st1, k <= j /\ iter j st0 = Ok st_j /\
      randomizeData_body (VRef array) (draws j) st_j = Ok st1 /\
      nEvents st1 = (nEvents st_j - 1)%Z.
Proof.
  intros Hhits k st Hk Hpos.
  pose proof (rd_inv_iter k st Hk) as Hinv.
  pose proof (rd_inv_pools_nonempty _ _ _ _ Hinv Hpos) as Hne.
  destruct (iter_sizes k Hne) as (st' & Hk' & Hsz).
  rewrite Hk in Hk'. injection Hk' as <-.
  assert (Hcat : concat (cur_pools (rd_heap st) pools) <> []).
  { intros E. rewrite (inv_count _ _ _ _ Hinv) in Hpos. unfold rows_left in Hpos.
    rewrite E in Hpos. simpl in Hpos. lia. }
  destruct (concat_nonempty_lookup _ Hcat) as (i & rows & Hi & Hrows).
  destruct (Hhits k) as (j & Hkj & n & Hhit).
  { exists i, (pred (length rows)). rewrite <- Hsz. unfold pool_sizes.
    rewrite list_lookup_fmap, Hi. simpl. destruct rows; [congruence | reflexivity]. }
  destruct (iter_sizes j Hne) as (st_j & Hj & Hszj).
  pose proof (rd_inv_iter j st_j Hj) as Hinvj.
  destruct (randomizeData_body_spec array pools (draws j) st_j (inv_wf _ _ _ _ Hinvj) Hne)
    as (p & rows' & Hp & Hrows' & Hcase).
  rewrite <- Hszj, pool_sizes_length in Hhit.
  rewrite (pool_sizes_lookup _ _ _ _ _ Hp Hrows') in Hhit. injection Hhit as Hlen.
  destruct (last rows') as [r|] eqn:Hlast.
  - destruct Hcase as [_ Hbody]. exists j, st_j. eexists.
    split; [lia|]. split; [exact Hj|]. split; [exact Hbody | reflexivity].
  - destruct Hcase as [-> _]. discriminate.
Qed.

(** Termination: if the draws keep hitting non-empty pools while rows remain,
    some iteration count brings [nEvents] to zero, and it is positive before. *)
Lemma iter_reaches_zero :
  eventually_hits draws (pool_sizes (rd_heap st0) pools) ->
  exists K st_K, iter K st0 = Ok st_K /\ nEvents st_K = 0%Z /\
    forall j st_j, j < K -> iter j st0 = Ok st_j -> (0 < nEvents st_j)%Z.
Proof.
  intros Hhits.
  assert (Hmain : forall m k st,
    iter k st0 = Ok st -> Z.to_nat (nEvents st) <= m ->
    (forall j st_j, j < k -> iter j st0 = Ok st_j -> (0 < nEvents st_j)%Z) ->
    exists K st_K, iter K st0 = Ok st_K /\ nEvents st_K = 0%Z /\
      forall j st_j, j < K -> iter j st0 = Ok st_j -> (0 < nEvents st_j)%Z).
  { induction m as [|m IH]; intros k st Hk Hm Hbefore.
    - exists k, st. pose proof (nEvents_nonneg k st Hk).
      split; [assumption|]. split; [lia | assumption].
    - destruct (Z.ltb_spec 0 (nEvents st)) as [Hpos|Hle].
      2:{ exists k, st. pose proof (nEvents_nonneg k st Hk).
          split; [assumption|]. split; [lia | assumption]. }
      destruct (eventually_hits_progress Hhits k st Hk Hpos)
        as (j & st_j & st1 & Hkj & Hj & Hbody & Hdec).
      assert (Hj1 : iter (S j) st0 = Ok st1) by (apply iter_succ; eauto).
      pose proof (nEvents_nonneg _ _ Hj1) as Hnn.
      pose proof (nEvents_antitone k j st st_j Hk Hj Hkj) as Hmono.
      apply (IH (S j) st1 Hj1); [lia|].
      intros i st_i Hi Hsi.
      destruct (decide (i < k)) as [Hlt|Hge]; [now apply (Hbefore i st_i)|].
      pose proof (nEvents_antitone i j st_i st_j Hsi Hj ltac:(lia)). lia. }
  apply (Hmain (Z.to_nat (nEvents st0)) 0 st0); [reflexivity | lia | intros; lia].
Qed.

End Run.

(* ------------------------------------------------------------------ *)
(** ** [randomizeData]: results *)

(** On a well-formed argument an iteration that is run never raises. *)
Lemma randomizeData_body_ok (array : loc) pools h0 raw st :
  rd_inv array pools h0 st -> (0 < nEvents st)%Z ->
  exists st', randomizeData_body (VRef array) raw st = Ok st'.
Proof.
  intros Hinv Hpos.
  pose proof (rd_inv_pools_nonempty _ _ _ _ Hinv Hpos) as Hne.
  destruct (randomizeData_body_spec array pools raw st (inv_wf _ _ _ _ Hinv) Hne)
    as (p & rows & _ & _ & Hcase).
  destruct (last rows); destruct Hcase as [_ E]; eauto.
Qed.

Lemma randomizeData_while_no_raise (draws : nat -> nat) (array : loc) pools h0 fuel :
  forall k st e, rd_inv array pools h0 st ->
    randomizeData_while draws (VRef array) fuel k st <> Some (Raise e).
Proof.
  induction fuel as [|fuel IH]; intros k st e Hinv; simpl.
  - destruct (0 <? nEvents st)%Z; discriminate.
  - destruct (Z.ltb_spec 0 (nEvents st)) as [Hpos|_]; [|discriminate].
    destruct (randomizeData_body_ok array pools h0 (draws k) st Hinv Hpos) as [st' E].
    rewrite E. apply IH. eapply rd_inv_body'; eauto.
Qed.

(** What the invariant says once no row is left. *)
Lemma rd_inv_final (array : loc) pools h0 st :
  rd_inv array pools h0 st -> nEvents st = 0%Z ->
  length (trainData st) = length (targetData st) /\
  trainData st ≡ₚ concat (map (pool_rows h0 pools) (seq 0 (length pools))) /\
  (forall k row t, trainData st !! k = Some row -> targetData st !! k = Some t ->
     exists i, t = Z.of_nat i /\ i < length pools /\ row ∈ pool_rows h0 pools i) /\
  (forall i, i < length pools ->
     labelled (Z.of_nat i) (trainData st) (targetData st) = rev (pool_rows h0 pools i)) /\
  (forall i, i < length pools ->
     count_occ Z.eq_dec (targetData st) (Z.of_nat i) = length (pool_rows h0 pools i)) /\
  (forall p, p ∈ pools -> rd_heap st !! p = Some []) /\
  (forall l, l ∉ pools -> rd_heap st !! l = h0 !! l).
Proof.
  intros [Hwf Hlen Hlab Hrw Hperm Hcnt Hfr] Hz.
  assert (Hempty : forall rows, rows ∈ cur_pools (rd_heap st) pools -> rows = []).
  { assert (Hcat : concat (cur_pools (rd_heap st) pools) = []).
    { apply length_zero_iff_nil. unfold rows_left in Hcnt. lia. }
    intros rows Hin. apply concat_nil_Forall in Hcat.
    rewrite Forall_forall in Hcat. now apply Hcat. }
  assert (Hcur : forall i, i < length pools -> pool_rows (rd_heap st) pools i = []).
  { intros i Hi. rewrite pool_rows_cur.
    destruct (cur_pools (rd_heap st) pools !! i) as [rows|] eqn:E; [simpl|reflexivity].
    apply Hempty. eapply list_elem_of_lookup_2; eauto. }
  assert (Hlabelled : forall i, i < length pools ->
    labelled (Z.of_nat i) (trainData st) (targetData st) = rev (pool_rows h0 pools i)).
  { intros i Hi. rewrite (Hrw i Hi), (Hcur i Hi). simpl. now rewrite rev_involutive. }
  split; [assumption|]. split; [|split; [|split; [assumption|split; [|split]]]].
  - rewrite cur_pools_seq, <- Hperm.
    replace (concat (cur_pools (rd_heap st) pools)) with (@nil (value V)).
    + now rewrite app_nil_r.
    + symmetry. apply length_zero_iff_nil. unfold rows_left in Hcnt. lia.
  - intros k row t Hrow Ht.
    assert (Hrange : (0 <= t < Z.of_nat (length pools))%Z).
    { rewrite Forall_forall in Hlab. apply Hlab. eapply list_elem_of_lookup_2; eauto. }
    exists (Z.to_nat t). split; [lia|]. split; [lia|].
    pose proof (labelled_lookup _ _ _ _ _ Hrow Ht) as Hin.
    replace t with (Z.of_nat (Z.to_nat t)) in Hin by lia.
    rewrite Hlabelled in Hin by lia.
    apply list_elem_of_In. apply list_elem_of_In in Hin. now apply in_rev.
  - intros i Hi. rewrite <- (labelled_length _ (trainData st)) by assumption.
    rewrite (Hlabelled i Hi). apply length_rev.
  - intros p Hp. destruct Hwf as (_ & _ & _ & Hpools).
    destruct (Hpools p Hp) as [rows Hrows]. rewrite Hrows. f_equal.
    apply Hempty. apply list_elem_of_lookup_1 in Hp. destruct Hp as [i Hi].
    eapply list_elem_of_lookup_2. rewrite (cur_pools_lookup _ _ _ _ Hi), Hrows.
    reflexivity.
  - assumption.
Qed.

(** C1 (amended).  Not for every list of pools: for every store [h] and every
    list [array] of pairwise distinct pool objects, none of them the list
    itself ([pools_at]), and for draws that keep hitting non-empty pools
    while rows remain ([eventually_hits], stated on the pool sizes alone),
    [randomizeData] returns: some number of iterations yields a pair
    [(trainData, targetData)], and that pair is the only result the call can
    give.  The two lists have equal length; the rows
    of [trainData] are, as a multiset, the rows of all the pools together
    (each input row exactly once); the row at each position comes from the
    pool whose index stands at that position of [targetData], the rows
    labelled [i] being exactly pool [i]'s rows, last one first; label [i]
    occurs as often as pool [i] had rows; and after the call every pool is
    empty, no other object of the store having changed. *)
Theorem randomizeData_spec (draws : nat -> nat) (array : loc) (pools : list loc)
  (h : liststore V) :
  pools_at h array pools ->
  eventually_hits draws (pool_sizes h pools) ->
  exists (fuel : nat) (train : list (value V)) (target : list Z) (h' : liststore V),
    randomizeData draws fuel (VRef array) h = Some (Ok (train, target, h')) /\
    (forall fuel' r, randomizeData draws fuel' (VRef array) h = Some r ->
       r = Ok (train, target, h')) /\
    length train = length target /\
    train ≡ₚ concat (map (pool_rows h pools) (seq 0 (length pools))) /\
    (forall k row t, train !! k = Some row -> target !! k = Some t ->
       exists i, t = Z.of_nat i /\ i < length pools /\ row ∈ pool_rows h pools i) /\
    (forall i, i < length pools ->
       labelled (Z.of_nat i) train target = rev (pool_rows h pools i)) /\
    (forall i, i < length pools ->
       count_occ Z.eq_dec target (Z.of_nat i) = length (pool_rows h pools i)) /\
    (forall p, p ∈ pools -> h' !! p = Some []) /\
    (forall l, l ∉ pools -> h' !! l = h !! l).
Proof.
  intros Hwf Hhits.
  pose proof (randomizeData_init_spec array pools h Hwf) as Hinit.
  pose proof (rd_inv_init array pools h Hwf) as Hinv0.
  set (st0 := {| rd_heap := h; trainData := []; targetData := [];
                 nEvents := Z.of_nat (rows_left h pools) |}) in *.
  destruct (iter_reaches_zero draws array pools h st0 Hinv0 Hhits)
    as (K & st_K & HK & Hz & Hbefore).
  assert (Hwhile : randomizeData_while draws (VRef array) K 0 st0 = Some (Ok st_K)).
  { apply (while_reaches draws array st0 K st_K HK ltac:(lia) Hbefore K 0 st0);
      reflexivity. }
  exists K, (trainData st_K), (targetData st_K), (rd_heap st_K).
  split; [unfold randomizeData; now rewrite Hinit, Hwhile|].
  split; [|exact (rd_inv_final array pools h st_K
                    (rd_inv_iter draws array pools h st0 Hinv0 K st_K HK) Hz)].
  intros fuel' r. unfold randomizeData. rewrite Hinit.
  destruct (randomizeData_while draws (VRef array) fuel' 0 st0) as [r'|] eqn:E;
    [|discriminate].
  pose proof (while_more_fuel draws array _ (Nat.max K fuel') _ _ _ Hwhile
                (Nat.le_max_l _ _)) as H1.
  pose proof (while_more_fuel draws array _ (Nat.max K fuel') _ _ _ E
                (Nat.le_max_r _ _)) as H2.
  rewrite H1 in H2. injection H2 as <-. now intros [= <-].
Qed.


(** A sufficient condition for the assumption on the draws: every pool index
    keeps being drawn. *)
Definition fair_draws (draws : nat -> nat) (count : nat) : Prop :=
  forall k i, i < count -> exists j, k <= j /\ draws j mod count = i.

Lemma fair_draws_eventually_hit (draws : nat -> nat) (sizes : list nat) :
  fair_draws draws (length sizes) -> eventually_hits draws sizes.
Proof.
  intros Hfair k (i & n & Hi).
  assert (Hilt : i < length sizes).
  { rewrite <- (sizes_after_length draws sizes k). eapply lookup_lt_Some; eauto. }
  destruct (Hfair k i Hilt) as (j & Hkj & Hj).
  assert (Hgo : forall d k n, j = k + d ->
    sizes_after draws sizes k !! i = Some (S n) ->
    exists j', k <= j' /\ hits draws sizes j').
  { clear k n Hi Hkj. induction d as [|d IH]; intros k n Hjk Hi.
    - assert (j = k) as <- by lia. exists j. split; [lia|]. exists n. now rewrite Hj.
    - destruct (sizes_after draws sizes k !! (draws k mod length sizes))
        as [[|m]|] eqn:E.
      + destruct (IH (S k) n) as (j' & Hle & Hhit);
          [lia | cbn [sizes_after]; cbv zeta; now rewrite E |].
        exists j'. split; [lia | assumption].
      + exists k. split; [lia|]. now exists m.
      + destruct (IH (S k) n) as (j' & Hle & Hhit);
          [lia | cbn [sizes_after]; cbv zeta; now rewrite E |].
        exists j'. split; [lia | assumption]. }
  exact (Hgo (j - k) k n ltac:(lia) Hi).
Qed.

End RandomizeDataFacts.

(* ------------------------------------------------------------------ *)
(** ** [randomizeData] and [appendTreeArray] on concrete inputs *)

(** Two pools [[11, 12]] and [[21]] (objects 2 and 3) in the list at 1. *)
Definition example_store : liststore Z :=
  <[1%positive := [VRef 2%positive; VRef 3%positive]]>
    (<[2%positive := [VScalar 11%Z; VScalar 12%Z]]>
       (<[3%positive := [VScalar 21%Z]]> ∅)).

(** The generator yielding 0, 1, 2, ... *)
Definition example_draws : nat -> nat := fun k => k.

(** Membership in an explicit list of references, by inspection. *)
Ltac list_not_elem :=
  let H := fresh in
  intros H; repeat (apply elem_of_cons in H; destruct H as [H|H]; [discriminate H|]);
  inversion H.
Ltac list_elem := repeat first [ apply list_elem_of_here | apply list_elem_of_further ].

Lemma example_store_wf : pools_at example_store 1%positive [2%positive; 3%positive].
Proof.
  split; [reflexivity|]. split; [|split].
  - apply NoDup_cons. split; [list_not_elem | apply NoDup_singleton].
  - list_not_elem.
  - intros p Hp. apply elem_of_cons in Hp. destruct Hp as [->|Hp].
    + now eexists.
    + apply list_elem_of_singleton in Hp. subst p. now eexists.
Qed.

Lemma example_draws_fair : fair_draws example_draws 2.
Proof.
  intros k i Hi. exists (i + k * 2). split; [lia|].
  unfold example_draws. rewrite Nat.Div0.mod_add. apply Nat.mod_small. lia.
Qed.

Lemma example_draws_hit :
  eventually_hits example_draws (pool_sizes example_store [2%positive; 3%positive]).
Proof. apply fair_draws_eventually_hit. exact example_draws_fair. Qed.

(** The specification's example: pools of sizes 2 and 1 give three rows and
    three labels, label 0 twice and label 1 once. *)
Lemma randomizeData_spec_witness :
  pools_at example_store 1%positive [2%positive; 3%positive] /\
  exists fuel train target h',
    randomizeData example_draws fuel (VRef 1%positive) example_store
      = Some (Ok (train, target, h')) /\
    length train = 3 /\ length target = 3 /\
    count_occ Z.eq_dec target 0%Z = 2 /\ count_occ Z.eq_dec target 1%Z = 1 /\
    train ≡ₚ [VScalar 11%Z; VScalar 12%Z; VScalar 21%Z] /\
    h' !! 2%positive = Some [] /\ h' !! 3%positive = Some [].
Proof.
  split; [exact example_store_wf|].
  destruct (randomizeData_spec example_draws 1%positive [2%positive; 3%positive]
              example_store example_store_wf example_draws_hit)
    as (fuel & train & target & h' & Hrun & _ & Hlen & Hperm & _ & _ & Hcount & Hempty & _).
  exists fuel, train, target, h'.
  pose proof (Hcount 0 ltac:(simpl; lia)) as H0.
  pose proof (Hcount 1 ltac:(simpl; lia)) as H1.
  pose proof (Permutation_length Hperm) as Hl.
  split; [exact Hrun|]. split; [exact Hl|]. split; [now rewrite <- Hlen|].
  split; [exact H0|]. split; [exact H1|]. split; [exact Hperm|].
  split; apply Hempty; list_elem.
Defined.


(** A three-record, two-field array at reference 1, and no list object. *)
Definition example_heap : pyheap Z :=
  {| ndarrays := {[ 1%positive :=
        {| dtype_names := ["eta"; "phi"];
           records := [[1; 2]; [3; 4]; [5; 6]]%Z |} ]};
     lists := ∅ |}.

Lemma appendTreeArray_spec_witness :
  exists newArray h' rows,
    appendTreeArray 1%positive example_heap = Some (newArray, h') /\
    lists h' !! newArray = Some (map VRef rows) /\
    (exists a b c, rows = [a; b; c] /\
      lists h' !! a = Some [VScalar 1; VScalar 2]%Z /\
      lists h' !! b = Some [VScalar 3; VScalar 4]%Z /\
      lists h' !! c = Some [VScalar 5; VScalar 6]%Z) /\
    ndarrays h' = ndarrays example_heap.
Proof.
  destruct (appendTreeArray_spec 1%positive example_heap _ eq_refl)
    as (newArray & h' & rows & Hrun & _ & Hnew & Hlen & Hrows & Hnd & _).
  exists newArray, h', rows.
  split; [exact Hrun|]. split; [exact Hnew|]. split; [|exact Hnd].
  destruct (Hrows 0 _ eq_refl) as (a & Ha & _ & Hva).
  destruct (Hrows 1 _ eq_refl) as (b & Hb & _ & Hvb).
  destruct (Hrows 2 _ eq_refl) as (c & Hc & _ & Hvc).
  exists a, b, c. split; [|split; [exact Hva | split; [exact Hvb | exact Hvc]]].
  destruct rows as [|a' [|b' [|c' [|d' rows]]]]; try discriminate.
  simpl in Ha, Hb, Hc. congruence.
Defined.

(* ------------------------------------------------------------------ *)
(** ** binary64: conversion of integers and division *)

Section Binary64.
Local Open Scope Z_scope.

Lemma digits2_pos_size (p : positive) : digits2_pos p = Pos.size p.
Proof. induction p; simpl; congruence. Qed.

Lemma Zdigits2_bounds (m : Z) :
  0 < m -> 2 ^ (Zdigits2 m - 1) <= m < 2 ^ Zdigits2 m.
Proof.
  destruct m as [|p|p]; try lia. intros _.
  change (Zdigits2 (Z.pos p)) with (Z.pos (digits2_pos p)).
  rewrite digits2_pos_size.
  pose proof (Pos.size_gt p) as Hgt. pose proof (Pos.size_le p) as Hle.
  apply Pos2Z.pos_lt_pos in Hgt. apply Pos2Z.pos_le_pos in Hle.
  rewrite Pos2Z.inj_pow in Hgt, Hle.
  split; [|exact Hgt].
  replace (Z.pos (Pos.size p)) with (Z.pos (Pos.size p) - 1 + 1) in Hle by lia.
  rewrite Z.pow_add_r in Hle by lia. lia.
Qed.

Lemma Zdigits2_pos (m : Z) : 0 < m -> 0 < Zdigits2 m.
Proof. destruct m; simpl; lia. Qed.

Lemma Zdigits2_mono (a b : Z) : 0 < a -> a <= b -> Zdigits2 a <= Zdigits2 b.
Proof.
  intros Ha Hab.
  pose proof (Zdigits2_bounds a Ha) as [Hal _].
  pose proof (Zdigits2_bounds b ltac:(lia)) as [_ Hbu].
  pose proof (Zdigits2_pos a Ha). pose proof (Zdigits2_pos b ltac:(lia)).
  assert (2 ^ (Zdigits2 a - 1) < 2 ^ Zdigits2 b) by lia.
  apply Z.pow_lt_mono_r_iff in H1; lia.
Qed.

Lemma Zdigits2_succ (m : Z) : 0 < m -> Zdigits2 (m + 1) <= Zdigits2 m + 1.
Proof.
  intros Hm.
  pose proof (Zdigits2_bounds m Hm) as [_ Hu].
  pose proof (Zdigits2_bounds (m + 1) ltac:(lia)) as [Hl _].
  pose proof (Zdigits2_pos m Hm). pose proof (Zdigits2_pos (m + 1) ltac:(lia)).
  assert (2 ^ (Zdigits2 (m + 1) - 1) < 2 ^ (Zdigits2 m + 1)).
  { rewrite (Z.pow_add_r 2 (Zdigits2 m) 1) by lia. lia. }
  apply Z.pow_lt_mono_r_iff in H1; lia.
Qed.

Lemma shr_1_m (mrs : shr_record) :
  0 <= shr_m mrs -> shr_m (shr_1 mrs) = shr_m mrs / 2.
Proof.
  destruct mrs as [m r s]. simpl. intros Hm.
  destruct m as [|[p|p|]|p]; simpl shr_m; try lia;
    first [ reflexivity
          | apply (Z.div_unique _ 2 _ 1); lia
          | apply (Z.div_unique _ 2 _ 0); lia ].
Qed.

Lemma iter_pos_shr_1_m (p : positive) : forall mrs,
  0 <= shr_m mrs ->
  shr_m (SpecFloat.iter_pos shr_1 p mrs) = shr_m mrs / 2 ^ Z.pos p.
Proof.
  induction p as [p IH|p IH|]; intros mrs Hm; simpl SpecFloat.iter_pos.
  - assert (H1 : 0 <= shr_m (shr_1 mrs)) by (rewrite shr_1_m by lia; apply Z.div_pos; lia).
    assert (H2 : 0 <= shr_m (SpecFloat.iter_pos shr_1 p (shr_1 mrs))).
    { rewrite IH by lia. apply Z.div_pos; lia. }
    rewrite IH, IH, shr_1_m by lia.
    rewrite !Z.div_div by lia. f_equal.
    rewrite Pos2Z.inj_xI. rewrite Z.pow_add_r, Z.pow_mul_r by lia.
    replace (2 ^ 2) with 4 by reflexivity. rewrite Z.pow_1_r.
    rewrite <- Z.pow_mul_l. replace (2 * 2) with 4 by reflexivity. lia.
  - assert (H2 : 0 <= shr_m (SpecFloat.iter_pos shr_1 p mrs)).
    { rewrite IH by lia. apply Z.div_pos; lia. }
    rewrite IH, IH by lia. rewrite Z.div_div by lia. f_equal.
    rewrite Pos2Z.inj_xO. rewrite <- Z.pow_add_r by lia. f_equal. lia.
  - rewrite shr_1_m by lia. reflexivity.
Qed.

Lemma shr_fexp_pos (m e : Z) (l : location) :
  0 < m -> -1074 <= e ->
  let r := shr_fexp 53 1024 m e l in
  0 < shr_m (fst r) <= m /\ e <= snd r <= Z.max e (Zdigits2 m + e - 53).
Proof.
  intros Hm He. unfold shr_fexp, shr.
  assert (Hrec : shr_m (shr_record_of_loc m l) = m).
  { destruct l as [|[]]; reflexivity. }
  pose proof (Zdigits2_bounds m Hm) as [Hl Hu].
  pose proof (Zdigits2_pos m Hm) as Hd.
  unfold fexp, emin.
  replace (3 - 1024 - 53) with (-1074) by reflexivity.
  destruct (Z.max (Zdigits2 m + e - 53) (-1074) - e) as [|p|p] eqn:En; simpl.
  - rewrite Hrec. lia.
  - rewrite iter_pos_shr_1_m by (rewrite Hrec; lia). rewrite Hrec.
    assert (Hp : Z.pos p = Zdigits2 m - 53) by lia.
    rewrite Hp. split; [|lia]. split.
    + apply Z.div_str_pos. split; [apply Z.pow_pos_nonneg; lia|].
      eapply Z.le_trans; [|exact Hl]. apply Z.pow_le_mono_r; lia.
    + apply Z.div_le_upper_bound; [apply Z.pow_pos_nonneg; lia|].
      pose proof (Z.pow_pos_nonneg 2 (Zdigits2 m - 53) ltac:(lia) ltac:(lia)).
      nia.
  - rewrite Hrec. lia.
Qed.

Lemma round_nearest_even_bounds (m : Z) (l : location) :
  m <= round_nearest_even m l <= m + 1.
Proof.
  destruct l as [|[]]; simpl; try lia. destruct (Z.even m); lia.
Qed.

Lemma binary_round_aux_finite (sx : bool) (mx ex : Z) (lx : location) :
  0 < mx -> -1074 <= ex -> 2 * Zdigits2 mx + ex <= 970 ->
  exists m e, binary_round_aux 53 1024 sx mx ex lx = S754_finite sx m e.
Proof.
  intros Hm He Hb. unfold binary_round_aux.
  pose proof (shr_fexp_pos mx ex lx Hm He) as H1. cbv zeta in H1.
  destruct (shr_fexp 53 1024 mx ex lx) as [mrs' e'] eqn:E1. simpl in H1.
  destruct H1 as [[Hm1 Hm1'] [He1 He1']].
  set (m2 := round_nearest_even (shr_m mrs') (loc_of_shr_record mrs')).
  pose proof (round_nearest_even_bounds (shr_m mrs') (loc_of_shr_record mrs')) as Hr.
  fold m2 in Hr.
  assert (Hm2 : 0 < m2) by lia.
  pose proof (shr_fexp_pos m2 e' loc_Exact Hm2 ltac:(lia)) as H2. cbv zeta in H2.
  destruct (shr_fexp 53 1024 m2 e' loc_Exact) as [mrs'' e''] eqn:E2. simpl in H2.
  destruct H2 as [[Hm3 Hm3'] [He2 He2']].
  pose proof (Zdigits2_pos mx Hm) as Hd.
  assert (Hd2 : Zdigits2 m2 <= Zdigits2 mx + 1).
  { eapply Z.le_trans; [apply (Zdigits2_mono m2 (mx + 1)); lia|].
    apply Zdigits2_succ; lia. }
  destruct (shr_m mrs'') as [|m|m] eqn:Em; try lia.
  destruct (Z.leb_spec e'' (1024 - 53)) as [_|Hgt]; [eauto|]. lia.
Qed.

Lemma digits2_pos_iter_xO (m d : positive) :
  Z.pos (digits2_pos (Pos.iter xO m d)) = Z.pos (digits2_pos m) + Z.pos d.
Proof.
  induction d as [|d IH] using Pos.peano_ind.
  - simpl. lia.
  - rewrite Pos.iter_succ. simpl. rewrite Pos2Z.inj_succ. lia.
Qed.

Lemma Zdigits2_eq (m d : Z) : 0 < m -> 2 ^ (d - 1) <= m < 2 ^ d -> 0 < d -> Zdigits2 m = d.
Proof.
  intros Hm [Hl Hu] Hd.
  pose proof (Zdigits2_bounds m Hm) as [Hl' Hu'].
  pose proof (Zdigits2_pos m Hm) as Hd'.
  assert (H1 : 2 ^ (d - 1) < 2 ^ Zdigits2 m) by lia.
  assert (H2 : 2 ^ (Zdigits2 m - 1) < 2 ^ d) by lia.
  apply Z.pow_lt_mono_r_iff in H1; [|lia|lia].
  apply Z.pow_lt_mono_r_iff in H2; [|lia|lia]. lia.
Qed.

(** A mantissa of at most 53 digits is not shifted. *)
Lemma shr_fexp_small (m e : Z) (l : location) :
  0 < m -> -1074 <= e -> Zdigits2 m <= 53 ->
  shr_fexp 53 1024 m e l = (shr_record_of_loc m l, e).
Proof.
  intros Hm He Hd. unfold shr_fexp, shr, fexp, emin.
  replace (3 - 1024 - 53) with (-1074) by reflexivity.
  destruct (Z.max (Zdigits2 m + e - 53) (-1074) - e) as [|p|p] eqn:En;
    [reflexivity | lia | reflexivity].
Qed.

(** The floats that integers of at most 64 bits convert to: a mantissa of
    exactly 53 bits and a small exponent. *)
Definition int_float (x : spec_float) : Prop :=
  match x with
  | S754_finite _ m e => 2 ^ 52 <= Z.pos m < 2 ^ 53 /\ -52 <= e <= 12
  | _ => False
  end.

Lemma binary_round_aux_exact (sx : bool) (m : positive) (e : Z) :
  2 ^ 52 <= Z.pos m < 2 ^ 53 -> -1074 <= e <= 971 ->
  binary_round_aux 53 1024 sx (Z.pos m) e loc_Exact = S754_finite sx m e.
Proof.
  intros Hm He. unfold binary_round_aux.
  assert (Hd : Zdigits2 (Z.pos m) = 53) by (apply Zdigits2_eq; lia).
  rewrite shr_fexp_small by lia. simpl.
  rewrite shr_fexp_small by lia. simpl.
  match goal with |- context [Z.leb ?a ?b] => destruct (Z.leb_spec a b) end;
    [reflexivity | lia].
Qed.

Lemma binary_round_aux_int (sx : bool) (m : positive) :
  2 ^ 53 <= Z.pos m < 2 ^ 64 ->
  exists m' e', binary_round_aux 53 1024 sx (Z.pos m) 0 loc_Exact = S754_finite sx m' e' /\
                2 ^ 52 <= Z.pos m' < 2 ^ 53 /\ -52 <= e' <= 12.
Proof.
  intros Hm. unfold binary_round_aux.
  set (d := Zdigits2 (Z.pos m)).
  assert (Hd : 54 <= d <= 64).
  { pose proof (Zdigits2_bounds (Z.pos m) ltac:(lia)) as [Hl Hu]. fold d in Hl, Hu.
    pose proof (Zdigits2_pos (Z.pos m) ltac:(lia)). fold d in H.
    assert (H1 : 2 ^ 53 < 2 ^ d) by lia.
    assert (H2 : 2 ^ (d - 1) < 2 ^ 64) by lia.
    apply Z.pow_lt_mono_r_iff in H1; [|lia|lia].
    apply Z.pow_lt_mono_r_iff in H2; [|lia|lia]. lia. }
  pose proof (Zdigits2_bounds (Z.pos m) ltac:(lia)) as [Hl Hu]. fold d in Hl, Hu.
  (* first shift: by d - 53 *)
  unfold shr_fexp at 1. unfold shr, fexp, emin.
  replace (3 - 1024 - 53) with (-1074) by reflexivity. fold d.
  destruct (Z.max (d + 0 - 53) (-1074) - 0) as [|p|p] eqn:En; try lia.
  assert (Hp : Z.pos p = d - 53) by lia.
  set (mrs := SpecFloat.iter_pos shr_1 p (shr_record_of_loc (Z.pos m) loc_Exact)).
  assert (Hm1 : shr_m mrs = Z.pos m / 2 ^ (d - 53)).
  { unfold mrs. rewrite iter_pos_shr_1_m by (cbn; lia). rewrite Hp. reflexivity. }
  assert (Hpow : 2 ^ d = 2 ^ 53 * 2 ^ (d - 53)).
  { rewrite <- Z.pow_add_r by lia. f_equal. lia. }
  assert (Hpow' : 2 ^ (d - 1) = 2 ^ 52 * 2 ^ (d - 53)).
  { rewrite <- Z.pow_add_r by lia. f_equal. lia. }
  pose proof (Z.pow_pos_nonneg 2 (d - 53) ltac:(lia) ltac:(lia)) as Hpp.
  assert (Hm1b : 2 ^ 52 <= shr_m mrs < 2 ^ 53).
  { rewrite Hm1. split.
    - apply Z.div_le_lower_bound; lia.
    - apply Z.div_lt_upper_bound; lia. }
  set (m2 := round_nearest_even (shr_m mrs) (loc_of_shr_record mrs)).
  pose proof (round_nearest_even_bounds (shr_m mrs) (loc_of_shr_record mrs)) as Hr.
  fold m2 in Hr. rewrite Z.add_0_l, Hp.
  destruct (Z.eq_dec m2 (2 ^ 53)) as [E|E].
  - (* rounded up to 2^53: one more shift *)
    rewrite E.
    replace (shr_fexp 53 1024 (2 ^ 53) (d - 53) loc_Exact)
      with ({| shr_m := 2 ^ 52; shr_r := false; shr_s := false |}, d - 53 + 1).
    + simpl shr_m. change (2 ^ 52) with (Z.pos (2 ^ 52)). cbv iota.
      match goal with |- context [Z.leb ?a ?b] => destruct (Z.leb_spec a b) end; [|lia].
      eexists _, _. split; [reflexivity|]. split; [simpl; lia | lia].
    + unfold shr_fexp, shr, fexp, emin. replace (3 - 1024 - 53) with (-1074) by reflexivity.
      change (Zdigits2 (2 ^ 53)) with 54.
      replace (Z.max (54 + (d - 53) - 53) (-1074) - (d - 53)) with 1 by lia.
      reflexivity.
  - rewrite shr_fexp_small; [| lia | lia |].
    + simpl shr_m. destruct m2 as [|m2p|m2p] eqn:Em2; try lia.
      match goal with |- context [Z.leb ?a ?b] => destruct (Z.leb_spec a b) end; [|lia].
      eexists _, _. split; [reflexivity|]. lia.
    + rewrite (Zdigits2_eq m2 53); lia.
Qed.

Lemma f64_of_Z_int_float (z : Z) :
  z <> 0 -> is_int64 z ->
  exists m e, f64_of_Z z = S754_finite (z <? 0) m e /\
              2 ^ 52 <= Z.pos m < 2 ^ 53 /\ -52 <= e <= 12.
Proof.
  intros Hz Hr. unfold is_int64 in Hr.
  assert (Hmain : forall (s : bool) (p : positive), Z.pos p < 2 ^ 64 ->
    exists m e, binary_round 53 1024 s p 0 = S754_finite s m e /\
                2 ^ 52 <= Z.pos m < 2 ^ 53 /\ -52 <= e <= 12).
  { intros s p Hp. unfold binary_round.
    set (d := Z.pos (digits2_pos p)).
    pose proof (Zdigits2_bounds (Z.pos p) ltac:(lia)) as [Hl Hu].
    change (Zdigits2 (Z.pos p)) with d in Hl, Hu.
    assert (Hd : 0 < d) by (unfold d; lia).
    unfold shl_align, fexp, emin. replace (3 - 1024 - 53) with (-1074) by reflexivity.
    destruct (Z.max (d + 0 - 53) (-1074) - 0) as [|k|k] eqn:E.
    - assert (d = 53) by lia.
      assert (Hb : 2 ^ 52 <= Z.pos p < 2 ^ 53).
      { replace 52 with (d - 1) by lia. replace 53 with d by lia. lia. }
      rewrite binary_round_aux_exact by lia.
      eexists _, _. split; [reflexivity|]. lia.
    - apply binary_round_aux_int. split; [|lia].
      assert (54 <= d) by lia.
      eapply Z.le_trans; [|exact Hl]. apply Z.pow_le_mono_r; lia.
    - assert (Hk : Z.pos k = 53 - d) by lia.
      assert (Hm : Z.pos (Pos.iter xO p k) = Z.pos p * 2 ^ (53 - d)).
      { rewrite <- Hk. clear. induction k as [|k IH] using Pos.peano_ind.
        - simpl. lia.
        - rewrite Pos.iter_succ, Pos2Z.inj_xO, IH, Pos2Z.inj_succ, Z.pow_succ_r by lia. lia. }
      assert (Hpow : 2 ^ 53 = 2 ^ d * 2 ^ (53 - d)).
      { rewrite <- Z.pow_add_r by lia. f_equal. lia. }
      assert (Hpow' : 2 ^ 52 = 2 ^ (d - 1) * 2 ^ (53 - d)).
      { rewrite <- Z.pow_add_r by lia. f_equal. lia. }
      pose proof (Z.pow_pos_nonneg 2 (53 - d) ltac:(lia) ltac:(lia)) as Hpp.
      assert (Hb : 2 ^ 52 <= Z.pos (Pos.iter xO p k) < 2 ^ 53) by (rewrite Hm; nia).
      rewrite binary_round_aux_exact by lia.
      eexists _, _. split; [reflexivity|]. lia. }
  unfold f64_of_Z, binary_normalize.
  destruct z as [|p|p]; [congruence| |].
  - apply (Hmain false p). lia.
  - apply (Hmain true p). lia.
Qed.

(** The quotient of two converted integers is finite. *)
Lemma f64_div_int_float (x y : spec_float) :
  int_float x -> int_float y -> exists s m e, f64_div x y = S754_finite s m e.
Proof.
  destruct x as [| | |sx mx ex]; try contradiction.
  destruct y as [| | |sy my ey]; try contradiction.
  intros [Hmx Hex] [Hmy Hey]. unfold f64_div, SFdiv, SFdiv_core_binary.
  rewrite (Zdigits2_eq (Z.pos mx) 53) by lia.
  rewrite (Zdigits2_eq (Z.pos my) 53) by lia.
  unfold fexp, emin. replace (3 - 1024 - 53) with (-1074) by reflexivity.
  replace (Z.min (Z.max (53 + ex - (53 + ey) - 53) (-1074)) (ex - ey))
    with (ex - ey - 53) by lia.
  replace (ex - ey - (ex - ey - 53)) with 53 by lia.
  change (Z.shiftl (Z.pos mx) 53) with (Z.shiftl (Z.pos mx) 53).
  rewrite Z.shiftl_mul_pow2 by lia.
  pose proof (Z_div_mod (Z.pos mx * 2 ^ 53) (Z.pos my) ltac:(lia)) as Hdm.
  destruct (Z.div_eucl (Z.pos mx * 2 ^ 53) (Z.pos my)) as [q r].
  destruct Hdm as [Hq Hr].
  assert (Hq1 : 2 ^ 52 <= q).
  { assert (2 ^ 52 * Z.pos my <= Z.pos mx * 2 ^ 53) by nia. nia. }
  assert (Hq2 : q < 2 ^ 54).
  { assert (Z.pos mx * 2 ^ 53 < 2 ^ 54 * Z.pos my) by nia. nia. }
  assert (Hdq : Zdigits2 q <= 54).
  { pose proof (Zdigits2_bounds q ltac:(lia)) as [Hl _].
    pose proof (Zdigits2_pos q ltac:(lia)).
    assert (H1 : 2 ^ (Zdigits2 q - 1) < 2 ^ 54) by lia.
    apply Z.pow_lt_mono_r_iff in H1; lia. }
  destruct (binary_round_aux_finite (xorb sx sy) q (ex - ey - 53)
              (new_location (Z.pos my) r)) as (m & e & H); try lia.
  eauto.
Qed.

Lemma f64_of_Z_zero : f64_of_Z 0 = S754_zero false.
Proof. reflexivity. Qed.

Lemma f64_of_Z_int64 (z : Z) :
  z <> 0 -> is_int64 z -> int_float (f64_of_Z z).
Proof.
  intros Hz Hr. destruct (f64_of_Z_int_float z Hz Hr) as (m & e & -> & Hm & He).
  now split.
Qed.

(** An [int64] converts to a zero exactly when it is zero. *)
Lemma f64_of_Z_is_zero (z : Z) :
  is_int64 z -> is_zero (f64_of_Z z) = true <-> z = 0.
Proof.
  intros Hr. split.
  - intros Hz. destruct (Z.eq_dec z 0) as [E|E]; [assumption|].
    destruct (f64_of_Z_int_float z E Hr) as (m & e & H & _).
    rewrite H in Hz. discriminate.
  - intros ->. reflexivity.
Qed.

(** Division of a converted [int64] by zero does not raise: [0/0] is NaN,
    anything else an infinity with the numerator's sign. *)
Lemma f64_div_int64_by_zero (x : Z) :
  is_int64 x ->
  f64_div (f64_of_Z x) (f64_of_Z 0) =
  if x =? 0 then S754_nan else S754_infinity (x <? 0).
Proof.
  intros Hr. destruct (Z.eqb_spec x 0) as [->|Hx]; [reflexivity|].
  destruct (f64_of_Z_int_float x Hx Hr) as (m & e & -> & _).
  rewrite f64_of_Z_zero. simpl. now rewrite xorb_false_r.
Qed.

(** Division of a converted [int64] by a non-zero one is a finite number or
    a zero: neither NaN nor an infinity. *)
Lemma f64_div_int64_nonzero (x s : Z) :
  is_int64 x -> is_int64 s -> s <> 0 ->
  is_nan (f64_div (f64_of_Z x) (f64_of_Z s)) = false /\
  is_inf (f64_div (f64_of_Z x) (f64_of_Z s)) = false.
Proof.
  intros Hx Hs Hs0.
  pose proof (f64_of_Z_int64 s Hs0 Hs) as Hfs.
  destruct (Z.eq_dec x 0) as [->|Hx0].
  - rewrite f64_of_Z_zero. destruct (f64_of_Z s); try contradiction. now split.
  - pose proof (f64_of_Z_int64 x Hx0 Hx) as Hfx.
    destruct (f64_div_int_float _ _ Hfx Hfs) as (sg & m & e & ->). now split.
Qed.

(* ------------------------------------------------------------------ *)
(** *** Division by a zero, and quotients that are numbers *)

Lemma f64_div_by_zero (x s : float64) :
  is_zero s = true ->
  is_nan (f64_div x s) = (is_nan x || is_zero x)%bool /\
  is_inf (f64_div x s) = negb (is_nan x || is_zero x).
Proof. destruct s; try discriminate. intros _. destruct x; split; reflexivity. Qed.

Lemma shr_fexp_nonneg (m e : Z) (l : location) :
  0 <= m -> 0 <= shr_m (fst (shr_fexp 53 1024 m e l)).
Proof.
  intros Hm. unfold shr_fexp, shr.
  assert (Hrec : shr_m (shr_record_of_loc m l) = m) by (destruct l as [|[]]; reflexivity).
  destruct (fexp 53 1024 (Zdigits2 m + e) - e) as [|p|p]; simpl; rewrite ?Hrec; try lia.
  rewrite iter_pos_shr_1_m by (rewrite Hrec; lia). rewrite Hrec.
  apply Z.div_pos; [lia|]. apply Z.pow_pos_nonneg; lia.
Qed.

Lemma binary_round_aux_not_nan (sx : bool) (mx ex : Z) (lx : location) :
  0 <= mx -> is_nan (binary_round_aux 53 1024 sx mx ex lx) = false.
Proof.
  intros Hm. unfold binary_round_aux.
  pose proof (shr_fexp_nonneg mx ex lx Hm) as H1.
  destruct (shr_fexp 53 1024 mx ex lx) as [mrs' e']. simpl in H1.
  pose proof (round_nearest_even_bounds (shr_m mrs') (loc_of_shr_record mrs')) as Hr.
  pose proof (shr_fexp_nonneg (round_nearest_even (shr_m mrs') (loc_of_shr_record mrs'))
                e' loc_Exact ltac:(lia)) as H2.
  destruct (shr_fexp 53 1024 _ e' loc_Exact) as [mrs'' e'']. simpl in H2.
  destruct (shr_m mrs'') as [|m|m]; [reflexivity| |lia].
  now destruct (e'' <=? 1024 - 53).
Qed.

(** A number divided by a non-zero finite number is not NaN. *)
Lemma f64_div_not_nan (x y : float64) :
  is_nan x = false -> is_inf x = false -> is_finite_nonzero y = true ->
  is_nan (f64_div x y) = false.
Proof.
  destruct y as [| | |sy my ey]; try discriminate. intros Hx1 Hx2 _.
  destruct x as [sx|sx| |sx mx ex]; try discriminate; [reflexivity|].
  unfold f64_div, SFdiv.
  destruct (SFdiv_core_binary 53 1024 (Z.pos mx) ex (Z.pos my) ey) as [[mz ez] lz] eqn:E.
  apply binary_round_aux_not_nan.
  unfold SFdiv_core_binary in E. cbv zeta in E.
  match type of E with
  | (let '(q, r) := Z.div_eucl ?x _ in _) = _ => set (m' := x) in E
  end.
  assert (Hm' : 0 <= m').
  { unfold m'. destruct (ex - ey - _) as [|p|p]; try lia. apply Z.shiftl_nonneg. lia. }
  pose proof (Z_div_mod m' (Z.pos my) ltac:(lia)) as Hdm.
  destruct (Z.div_eucl m' (Z.pos my)) as [q r]. injection E as <- _ _.
  destruct Hdm as [Hq Hr]. nia.
Qed.

(* ------------------------------------------------------------------ *)
(** *** Small integers convert exactly *)

Lemma f64_of_Z_exact (z : Z) :
  0 < z < 2 ^ 53 ->
  exists m e, f64_of_Z z = S754_finite false m e /\
              2 ^ 52 <= Z.pos m < 2 ^ 53 /\ -52 <= e <= 0 /\
              Z.pos m = z * 2 ^ (- e).
Proof.
  intros Hz. destruct z as [|p|p]; try lia.
  unfold f64_of_Z, binary_normalize, binary_round.
  set (d := Z.pos (digits2_pos p)).
  pose proof (Zdigits2_bounds (Z.pos p) ltac:(lia)) as [Hl Hu].
  change (Zdigits2 (Z.pos p)) with d in Hl, Hu.
  assert (Hd : 0 < d) by (unfold d; lia).
  assert (Hd53 : d <= 53).
  { assert (H1 : 2 ^ (d - 1) < 2 ^ 53) by lia. apply Z.pow_lt_mono_r_iff in H1; lia. }
  unfold shl_align, fexp, emin. replace (3 - 1024 - 53) with (-1074) by reflexivity.
  destruct (Z.max (d + 0 - 53) (-1074) - 0) as [|k|k] eqn:E.
  - assert (d = 53) by lia.
    assert (Hb : 2 ^ 52 <= Z.pos p < 2 ^ 53).
    { replace 52 with (d - 1) by lia. replace 53 with d by lia. lia. }
    rewrite binary_round_aux_exact by lia.
    exists p, 0. split; [reflexivity|]. split; [lia|]. split; [lia|]. simpl. lia.
  - lia.
  - assert (Hk : Z.pos k = 53 - d) by lia.
    assert (Hm : Z.pos (Pos.iter xO p k) = Z.pos p * 2 ^ (53 - d)).
    { rewrite <- Hk. clear. induction k as [|k IH] using Pos.peano_ind.
      - simpl. lia.
      - rewrite Pos.iter_succ, Pos2Z.inj_xO, IH, Pos2Z.inj_succ, Z.pow_succ_r by lia. lia. }
    assert (Hpow : 2 ^ 53 = 2 ^ d * 2 ^ (53 - d)).
    { rewrite <- Z.pow_add_r by lia. f_equal. lia. }
    assert (Hpow' : 2 ^ 52 = 2 ^ (d - 1) * 2 ^ (53 - d)).
    { rewrite <- Z.pow_add_r by lia. f_equal. lia. }
    pose proof (Z.pow_pos_nonneg 2 (53 - d) ltac:(lia) ltac:(lia)) as Hpp.
    assert (Hb : 2 ^ 52 <= Z.pos (Pos.iter xO p k) < 2 ^ 53) by (rewrite Hm; nia).
    rewrite binary_round_aux_exact by lia.
    eexists _, _. split; [reflexivity|]. split; [lia|]. split; [lia|].
    rewrite Hm. f_equal. f_equal. lia.
Qed.

(* ------------------------------------------------------------------ *)
(** *** Rounding to nearest: the error of a quotient *)

Lemma loc_of_shr_record_of_loc (m : Z) (l : location) :
  loc_of_shr_record (shr_record_of_loc m l) = l.
Proof. destruct l as [|[]]; reflexivity. Qed.

Lemma shr_m_record_of_loc (m : Z) (l : location) : shr_m (shr_record_of_loc m l) = m.
Proof. destruct l as [|[]]; reflexivity. Qed.

(** The last step of [binary_round_aux] on a rounded mantissa of 53 bits, or
    of 54 bits after a carry. *)
Lemma round_carry (sx : bool) (m2 e : Z) :
  2 ^ 52 <= m2 <= 2 ^ 53 -> -1074 <= e <= 970 ->
  exists m e2,
    (let '(mrs, e'') := shr_fexp 53 1024 m2 e loc_Exact in
     match shr_m mrs with
     | 0 => S754_zero sx
     | Z.pos m => if e'' <=? 1024 - 53 then S754_finite sx m e'' else S754_infinity sx
     | Z.neg _ => S754_nan
     end) = S754_finite sx m e2 /\
    e <= e2 <= e + 1 /\ Z.pos m * 2 ^ (e2 - e) = m2.
Proof.
  intros Hm He. destruct (Z.eq_dec m2 (2 ^ 53)) as [->|Hne].
  - replace (shr_fexp 53 1024 (2 ^ 53) e loc_Exact)
      with ({| shr_m := 2 ^ 52; shr_r := false; shr_s := false |}, e + 1).
    + simpl shr_m. change (2 ^ 52) with (Z.pos (2 ^ 52)). cbv iota.
      destruct (Z.leb_spec (e + 1) (1024 - 53)); [|lia].
      eexists _, _. split; [reflexivity|]. split; [lia|].
      replace (e + 1 - e) with 1 by lia. reflexivity.
    + unfold shr_fexp, shr, fexp, emin. replace (3 - 1024 - 53) with (-1074) by reflexivity.
      change (Zdigits2 (2 ^ 53)) with 54.
      replace (Z.max (54 + e - 53) (-1074) - e) with 1 by lia.
      reflexivity.
  - rewrite shr_fexp_small; [| lia | lia | rewrite (Zdigits2_eq m2 53); lia].
    simpl shr_m. destruct m2 as [|p|p]; try lia.
    destruct (Z.leb_spec e (1024 - 53)); [|lia].
    exists p, e. split; [reflexivity|]. split; [lia|].
    replace (e - e) with 0 by lia. lia.
Qed.

Lemma binary_round_aux_53 (sx : bool) (q e : Z) (l : location) :
  2 ^ 52 <= q < 2 ^ 53 -> -1074 <= e <= 900 ->
  exists m e2, binary_round_aux 53 1024 sx q e l = S754_finite sx m e2 /\
    e <= e2 <= e + 1 /\ Z.pos m * 2 ^ (e2 - e) = round_nearest_even q l.
Proof.
  intros Hq He. unfold binary_round_aux.
  rewrite shr_fexp_small by (rewrite ?(Zdigits2_eq q 53); lia).
  cbv iota beta. rewrite shr_m_record_of_loc, loc_of_shr_record_of_loc.
  pose proof (round_nearest_even_bounds q l) as Hr.
  apply round_carry; lia.
Qed.

Lemma binary_round_aux_54 (sx : bool) (q e : Z) (l : location) :
  2 ^ 53 <= q < 2 ^ 54 -> -1074 <= e <= 900 ->
  exists m e2, binary_round_aux 53 1024 sx q e l = S754_finite sx m e2 /\
    e + 1 <= e2 <= e + 2 /\
    Z.pos m * 2 ^ (e2 - (e + 1)) =
    round_nearest_even (q / 2) (loc_of_shr_record (shr_1 (shr_record_of_loc q l))).
Proof.
  intros Hq He. unfold binary_round_aux.
  assert (Hs : shr_fexp 53 1024 q e l = (shr_1 (shr_record_of_loc q l), e + 1)).
  { unfold shr_fexp, shr, fexp, emin. replace (3 - 1024 - 53) with (-1074) by reflexivity.
    rewrite (Zdigits2_eq q 54) by lia.
    replace (Z.max (54 + e - 53) (-1074) - e) with 1 by lia. reflexivity. }
  rewrite Hs. cbv iota beta.
  assert (Hm : shr_m (shr_1 (shr_record_of_loc q l)) = q / 2).
  { rewrite shr_1_m; rewrite shr_m_record_of_loc; [reflexivity | lia]. }
  rewrite Hm.
  pose proof (round_nearest_even_bounds (q / 2)
                (loc_of_shr_record (shr_1 (shr_record_of_loc q l)))) as Hr.
  assert (Hq2 : 2 ^ 52 <= q / 2 < 2 ^ 53).
  { split; [apply Z.div_le_lower_bound; lia | apply Z.div_lt_upper_bound; lia]. }
  destruct (round_carry sx (round_nearest_even (q / 2)
              (loc_of_shr_record (shr_1 (shr_record_of_loc q l)))) (e + 1))
    as (m & e2 & H & He2 & Hval); [lia | lia |].
  exists m, e2. split; [exact H|]. split; [lia | exact Hval].
Qed.

(** The remainder of the integer division decides the rounding: the rounded
    quotient is within half a unit of the exact one. *)
Lemma round_new_location (q my r : Z) :
  0 < my -> 0 <= r < my ->
  Z.abs (2 * (round_nearest_even q (new_location my r) * my - (q * my + r))) <= my.
Proof.
  intros Hmy Hr. unfold new_location, new_location_even, new_location_odd.
  destruct (Z.even my) eqn:Ev.
  - destruct (Z.eqb_spec r 0) as [->|Hr0]; simpl; [lia|].
    destruct (Z.compare_spec (2 * r) my); simpl; try nia.
    destruct (Z.even q); nia.
  - assert (Hodd : 2 * r <> my).
    { intros E. rewrite <- E, Z.even_mul in Ev. discriminate. }
    destruct (Z.eqb_spec r 0) as [->|Hr0]; simpl; [lia|].
    destruct (Z.compare_spec (2 * r + 1) my); simpl; nia.
Qed.

Lemma new_location_exact (my r : Z) :
  0 <= r < my -> (new_location my r = loc_Exact <-> r = 0).
Proof.
  intros Hr. unfold new_location, new_location_even, new_location_odd.
  destruct (Z.even my); destruct (Z.eqb_spec r 0) as [->|Hr0];
    split; intros H; try reflexivity; try contradiction; try discriminate.
Qed.

(** The same after one shift of the quotient. *)
Lemma round_shr_1 (q my r : Z) :
  2 <= q -> 0 < my -> 0 <= r < my ->
  Z.abs (2 * round_nearest_even (q / 2)
               (loc_of_shr_record (shr_1 (shr_record_of_loc q (new_location my r))))
         * my - (q * my + r)) <= my.
Proof.
  intros Hq Hmy Hr.
  pose proof (new_location_exact my r Hr) as Hex.
  assert (Hloc : match new_location my r with
                 | loc_Exact => r = 0
                 | loc_Inexact _ => r <> 0
                 end).
  { destruct (new_location my r) eqn:El.
    - now apply Hex.
    - intros E. apply Hex in E. discriminate. }
  destruct q as [|[p|p|]|p]; try lia.
  - assert (Hdiv : Z.pos p~1 / 2 = Z.pos p)
      by (symmetry; apply (Z.div_unique _ 2 _ 1); lia).
    rewrite Hdiv. revert Hloc.
    destruct (new_location my r) as [|[]]; intros Hloc;
      cbn [round_nearest_even loc_of_shr_record shr_1 shr_record_of_loc orb];
      rewrite Pos2Z.inj_xI; try destruct (Z.even (Z.pos p)); nia.
  - assert (Hdiv : Z.pos p~0 / 2 = Z.pos p)
      by (symmetry; apply (Z.div_unique _ 2 _ 0); lia).
    rewrite Hdiv. revert Hloc.
    destruct (new_location my r) as [|[]]; intros Hloc;
      cbn [round_nearest_even loc_of_shr_record shr_1 shr_record_of_loc orb];
      rewrite Pos2Z.inj_xO; nia.
Qed.

(** Division of two floats with full mantissas: the result is the exact
    quotient up to a relative error of [2^-53]. *)
Lemma f64_div_core (mx my : positive) (ex ey : Z) :
  2 ^ 52 <= Z.pos mx < 2 ^ 53 -> 2 ^ 52 <= Z.pos my < 2 ^ 53 ->
  -52 <= ex <= 0 -> -52 <= ey <= 0 ->
  exists m e,
    f64_div (S754_finite false mx ex) (S754_finite false my ey) = S754_finite false m e /\
    ex - ey - 53 <= e <= ex - ey - 51 /\
    2 ^ 53 * Z.abs (Z.pos m * 2 ^ (e - (ex - ey - 53)) * Z.pos my - Z.pos mx * 2 ^ 53)
    <= Z.pos mx * 2 ^ 53.
Proof.
  intros Hmx Hmy Hex Hey. unfold f64_div, SFdiv, SFdiv_core_binary.
  rewrite (Zdigits2_eq (Z.pos mx) 53) by lia.
  rewrite (Zdigits2_eq (Z.pos my) 53) by lia.
  unfold fexp, emin. replace (3 - 1024 - 53) with (-1074) by reflexivity.
  replace (Z.min (Z.max (53 + ex - (53 + ey) - 53) (-1074)) (ex - ey))
    with (ex - ey - 53) by lia.
  replace (ex - ey - (ex - ey - 53)) with 53 by lia.
  rewrite Z.shiftl_mul_pow2 by lia.
  pose proof (Z_div_mod (Z.pos mx * 2 ^ 53) (Z.pos my) ltac:(lia)) as Hdm.
  destruct (Z.div_eucl (Z.pos mx * 2 ^ 53) (Z.pos my)) as [q r].
  destruct Hdm as [Hq Hr].
  assert (Hq1 : 2 ^ 52 <= q).
  { assert (2 ^ 52 * Z.pos my <= Z.pos mx * 2 ^ 53) by nia. nia. }
  assert (Hq2 : q < 2 ^ 54).
  { assert (Z.pos mx * 2 ^ 53 < 2 ^ 54 * Z.pos my) by nia. nia. }
  set (e' := ex - ey - 53) in *.
  assert (HT : 2 ^ 52 * Z.pos my <= Z.pos mx * 2 ^ 53) by nia.
  simpl xorb.
  destruct (Z.lt_ge_cases q (2 ^ 53)) as [Hlt|Hge].
  - destruct (binary_round_aux_53 false q e' (new_location (Z.pos my) r))
      as (m & e2 & -> & He2 & Hval); [lia | lia |].
    exists m, e2. split; [reflexivity|]. split; [lia|].
    pose proof (round_new_location q (Z.pos my) r ltac:(lia) Hr) as Hloc.
    rewrite <- Hval in Hloc.
    replace (q * Z.pos my + r) with (Z.pos mx * 2 ^ 53) in Hloc by lia.
    lia.
  - assert (HT' : 2 ^ 53 * Z.pos my <= Z.pos mx * 2 ^ 53) by nia.
    destruct (binary_round_aux_54 false q e' (new_location (Z.pos my) r))
      as (m & e2 & -> & He2 & Hval); [lia | lia |].
    exists m, e2. split; [reflexivity|]. split; [lia|].
    pose proof (round_shr_1 q (Z.pos my) r ltac:(lia) ltac:(lia) Hr) as Hloc.
    rewrite <- Hval in Hloc.
    replace (q * Z.pos my + r) with (Z.pos mx * 2 ^ 53) in Hloc by lia.
    replace (2 ^ (e2 - e')) with (2 * 2 ^ (e2 - (e' + 1))).
    + lia.
    + rewrite <- Z.pow_succ_r by lia. f_equal. lia.
Qed.

(** The quotient of two small positive integers, computed in [float64]:
    [m * 2^e] with [s * (m * 2^e)] between [(1 - 2^-53) * a] and
    [(1 + 2^-53) * a]; the inequalities are scaled by [2^53 * 2^N] to stay
    in the integers. *)
Lemma f64_div_small_ints (a s : Z) :
  0 < a < 2 ^ 53 -> 0 < s < 2 ^ 53 ->
  exists m e N,
    f64_div (f64_of_Z a) (f64_of_Z s) = S754_finite false m e /\
    0 <= N /\ 0 <= e + N /\
    (2 ^ 53 - 1) * (a * 2 ^ N) <= 2 ^ 53 * (s * (Z.pos m * 2 ^ (e + N)))
      <= (2 ^ 53 + 1) * (a * 2 ^ N).
Proof.
  intros Ha Hs.
  destruct (f64_of_Z_exact a Ha) as (mx & ex & -> & Hmx & Hex & Hvx).
  destruct (f64_of_Z_exact s Hs) as (my & ey & -> & Hmy & Hey & Hvy).
  destruct (f64_div_core mx my ex ey Hmx Hmy Hex Hey) as (m & e & -> & He & Hb).
  exists m, e, (53 - ex). split; [reflexivity|]. split; [lia|]. split; [lia|].
  rewrite Hvx, Hvy in Hb.
  assert (H1 : 2 ^ (e + (53 - ex)) = 2 ^ (e - (ex - ey - 53)) * 2 ^ (- ey)).
  { rewrite <- Z.pow_add_r by lia. f_equal. lia. }
  assert (H2 : 2 ^ (53 - ex) = 2 ^ (- ex) * 2 ^ 53).
  { rewrite <- Z.pow_add_r by lia. f_equal. lia. }
  rewrite H1, H2.
  replace (s * (Z.pos m * (2 ^ (e - (ex - ey - 53)) * 2 ^ (- ey))))
    with (Z.pos m * 2 ^ (e - (ex - ey - 53)) * (s * 2 ^ (- ey))) by ring.
  replace (a * (2 ^ (- ex) * 2 ^ 53)) with (a * 2 ^ (- ex) * 2 ^ 53) by ring.
  lia.
Qed.

End Binary64.

(* ------------------------------------------------------------------ *)
(** ** The entries of a normalised row add up to nearly one *)

Section RowSumError.
Local Open Scope Q_scope.

Lemma f64_to_Q_scaled (m : positive) (e N : Z) :
  (0 <= N)%Z -> (0 <= e + N)%Z ->
  f64_to_Q (S754_finite false m e) * inject_Z (2 ^ N)
  == inject_Z (Z.pos m * 2 ^ (e + N)).
Proof.
  intros HN HeN. unfold f64_to_Q. cbv zeta iota.
  rewrite inject_Z_mult, !Zpower_Qpower by lia.
  rewrite Qpower_plus by discriminate.
  change (2 ^ e) with (inject_Z 2 ^ e).
  generalize (inject_Z 2 ^ e) (inject_Z 2 ^ N) (inject_Z (Z.pos m)).
  intros; ring.
Qed.

(** One entry: the [float64] quotient of two small non-negative integers is
    the exact quotient up to a relative error of [2^-53]. *)
Lemma f64_div_error (a s : Z) :
  (0 <= a < 2 ^ 53)%Z -> (0 < s < 2 ^ 53)%Z ->
  let q := f64_to_Q (f64_div (f64_of_Z a) (f64_of_Z s)) in
  let t := inject_Z a / inject_Z s in
  t - u53 * t <= q /\ q <= t + u53 * t.
Proof.
  intros Ha Hs q t.
  assert (Hs' : 0 < inject_Z s) by (rewrite <- (Zlt_Qlt 0); lia).
  destruct (Z.eq_dec a 0%Z) as [->|Ha0].
  - destruct (f64_of_Z_exact s Hs) as (my & ey & Hy & _).
    assert (Hq : q == 0) by (unfold q; rewrite Hy; reflexivity).
    assert (Ht : t == 0) by (unfold t, Qdiv; ring).
    rewrite Hq, Ht. unfold u53. split; lra.
  - destruct (f64_div_small_ints a s ltac:(lia) Hs) as (m & e & N & Hdiv & HN & HeN & Hlo & Hhi).
    pose proof (f64_to_Q_scaled m e N HN HeN) as Hscale.
    rewrite <- Hdiv in Hscale. fold q in Hscale.
    assert (HD : 0 < inject_Z (2 ^ N)).
    { rewrite <- (Zlt_Qlt 0). apply Z.pow_pos_nonneg; lia. }
    rewrite Zle_Qle in Hlo, Hhi.
    repeat rewrite inject_Z_mult in Hlo. repeat rewrite inject_Z_mult in Hhi.
    rewrite inject_Z_mult in Hscale.
    set (D := inject_Z (2 ^ N)) in *.
    set (x := inject_Z (Z.pos m) * inject_Z (2 ^ (e + N))) in *.
    change (inject_Z (2 ^ 53 - 1)) with (9007199254740991 # 1) in Hlo.
    change (inject_Z (2 ^ 53 + 1)) with (9007199254740993 # 1) in Hhi.
    change (inject_Z (2 ^ 53)) with (9007199254740992 # 1) in Hlo, Hhi.
    assert (Hts : t * inject_Z s == inject_Z a).
    { unfold t. field. intros E. rewrite E in Hs'. now apply (Qlt_irrefl 0). }
    set (a' := inject_Z a) in *. set (s' := inject_Z s) in *.
    assert (HP : 0 < s' * D) by (apply Qmult_lt_0_compat; assumption).
    assert (E1 : (t - u53 * t) * (s' * D) == (1 - u53) * (a' * D))
      by (rewrite <- Hts; ring).
    assert (E2 : (t + u53 * t) * (s' * D) == (1 + u53) * (a' * D))
      by (rewrite <- Hts; ring).
    assert (E3 : q * (s' * D) == s' * x) by (rewrite <- Hscale; ring).
    split; apply (Qmult_le_r _ _ (s' * D) HP).
    + rewrite E1, E3. unfold u53. lra.
    + rewrite E2, E3. unfold u53. lra.
Qed.

Lemma exact_sum_member (row : list Z) (x : Z) :
  Forall (fun y => (0 <= y)%Z) row -> In x row -> (0 <= x <= exact_sum row)%Z.
Proof.
  intros Hrow. induction Hrow as [|y row Hy Hrow IH]; [intros []|].
  assert (Hnn : (0 <= exact_sum row)%Z).
  { clear IH. induction Hrow as [|z row Hz Hrow IH]; simpl; [lia|].
    unfold exact_sum in *. simpl. lia. }
  unfold exact_sum in *. simpl. intros [<-|Hin]; [lia|].
  specialize (IH Hin). lia.
Qed.

(** A row: the exact sum of the [float64] quotients by [s] is the exact
    quotient of the row's sum by [s], up to a relative error of [2^-53]. *)
Lemma normalized_row_error (s : Z) (row : list Z) :
  (0 < s < 2 ^ 53)%Z -> Forall (fun x => (0 <= x < 2 ^ 53)%Z) row ->
  let T := inject_Z (exact_sum row) / inject_Z s in
  let S := Qsum (map (fun x => f64_to_Q (f64_div (f64_of_Z x) (f64_of_Z s))) row) in
  T - u53 * T <= S /\ S <= T + u53 * T.
Proof.
  intros Hs Hrow.
  assert (Hs' : ~ inject_Z s == 0).
  { intros E. assert (H : 0 < inject_Z s) by (rewrite <- (Zlt_Qlt 0); lia).
    rewrite E in H. now apply (Qlt_irrefl 0). }
  induction Hrow as [|x row Hx Hrow IH]; cbv zeta in *.
  - unfold exact_sum, Qsum. simpl.
    assert (E : inject_Z 0 / inject_Z s == 0) by (field; exact Hs').
    rewrite E. unfold u53. split; lra.
  - destruct IH as [IH1 IH2].
    destruct (f64_div_error x s Hx Hs) as [E1 E2]. cbv zeta in E1, E2.
    unfold exact_sum, Qsum in *. cbn [map foldr].
    assert (HT : inject_Z (x + foldr Z.add 0%Z row) / inject_Z s
                 == inject_Z x / inject_Z s + inject_Z (foldr Z.add 0%Z row) / inject_Z s).
    { rewrite inject_Z_plus. field. exact Hs'. }
    rewrite HT.
    set (t := inject_Z x / inject_Z s) in *.
    set (T := inject_Z (foldr Z.add 0%Z row) / inject_Z s) in *.
    set (q := f64_to_Q (f64_div (f64_of_Z x) (f64_of_Z s))) in *.
    set (S := foldr Qplus 0 (map _ row)) in *.
    unfold u53 in *. split; lra.
Qed.

(** A row of non-negative counts whose sum is positive and below [2^53]: the
    entries of the normalised row, added up exactly, are within [2^-53] of
    one. *)
Lemma normalized_row_sum (row : list Z) :
  Forall (fun x => (0 <= x)%Z) row -> (0 < exact_sum row < 2 ^ 53)%Z ->
  Qabs (Qsum (map f64_to_Q
          (map (fun x => f64_div (f64_of_Z x) (f64_of_Z (exact_sum row))) row)) - 1)
  <= u53.
Proof.
  intros Hnn Hsum. rewrite map_map.
  assert (Hrow : Forall (fun x => (0 <= x < 2 ^ 53)%Z) row).
  { apply List.Forall_forall. intros x Hx.
    pose proof (exact_sum_member row x Hnn Hx). lia. }
  destruct (normalized_row_error (exact_sum row) row Hsum Hrow) as [H1 H2].
  cbv zeta in H1, H2.
  assert (E : inject_Z (exact_sum row) / inject_Z (exact_sum row) == 1).
  { field. intros E. assert (H : 0 < inject_Z (exact_sum row))
      by (rewrite <- (Zlt_Qlt 0); lia).
    rewrite E in H. now apply (Qlt_irrefl 0). }
  rewrite E in H1, H2.
  apply Qabs_Qle_condition. unfold u53 in *. split; lra.
Qed.

End RowSumError.

(* ------------------------------------------------------------------ *)
(** ** numpy: the sum of a [float64] row *)

(** The splitting of a long run never runs out of fuel: any fuel of at least
    the run's length gives the same sum. *)
Lemma pairwise_sum_fuel (fuel : nat) : forall (fuel' : nat) (a : list float64),
  length a <= fuel -> length a <= fuel' ->
  pairwise_sum fuel a = pairwise_sum fuel' a.
Proof.
  induction fuel as [|fuel IH]; intros fuel' a H1 H2.
  - destruct a; [|simpl in H1; lia]. now destruct fuel'.
  - destruct fuel' as [|fuel'].
    { destruct a; [reflexivity | simpl in H2; lia]. }
    cbn [pairwise_sum]. cbv zeta.
    destruct (length a <? 8) eqn:E1; [reflexivity|].
    destruct (length a <=? 128) eqn:E2; [reflexivity|].
    apply Nat.leb_gt in E2.
    set (n2 := length a / 2 - (length a / 2) mod 8).
    assert (Hn2 : 0 < n2 < length a).
    { unfold n2. pose proof (Nat.mod_upper_bound (length a / 2) 8 ltac:(lia)).
      pose proof (Nat.div_lt (length a) 2 ltac:(lia) ltac:(lia)).
      assert (64 <= length a / 2) by (apply Nat.div_le_lower_bound; lia). lia. }
    f_equal; apply IH; rewrite ?length_take, ?length_drop; lia.
Qed.

(** Up to seven numbers are added one after the other, starting from 0. *)
Lemma f64_row_sum_short (row : list float64) :
  length row < 8 -> f64_row_sum row = f64_add f64_zero (foldl f64_add f64_zero row).
Proof.
  intros H. unfold f64_row_sum.
  destruct (length row) as [|n] eqn:E.
  - destruct row; [reflexivity | discriminate].
  - cbn [pairwise_sum]. cbv zeta. rewrite E.
    destruct (Nat.ltb_spec (S n) 8); [reflexivity | lia].
Qed.

(* ------------------------------------------------------------------ *)
(** ** The [py] monad *)

Lemma py_bind_unfold {A B : Type} (m : py A) (k : A -> py B) (w : world) :
  (m ≫= k) w = match m w with
               | (w', Ok a) => k a w'
               | (w', Raise e) => (w', Raise e)
               end.
Proof. reflexivity. Qed.

Lemma py_bind_ok {A B : Type} (m : py A) (k : A -> py B) (w w' : world) (a : A) :
  m w = (w', Ok a) -> (m ≫= k) w = k a w'.
Proof. intros H. now rewrite py_bind_unfold, H. Qed.

Lemma py_bind_raise {A B : Type} (m : py A) (k : A -> py B) (w w' : world) (e : exn) :
  m w = (w', Raise e) -> (m ≫= k) w = (w', Raise e).
Proof. intros H. now rewrite py_bind_unfold, H. Qed.

(** [m] keeps [P]: whatever [m] returns or raises, a world satisfying [P] is
    left satisfying [P]. *)
Definition preserves {A : Type} (P : world -> Prop) (m : py A) : Prop :=
  forall w, P w -> P (m w).1.

Lemma preserves_bind {A B : Type} (P : world -> Prop) (m : py A) (k : A -> py B) :
  preserves P m -> (forall a, preserves P (k a)) -> preserves P (m ≫= k).
Proof.
  intros Hm Hk w Hw. rewrite py_bind_unfold. specialize (Hm w Hw).
  destruct (m w) as [w' [a|e]]; simpl in *; [now apply Hk | assumption].
Qed.

Lemma preserves_ret {A : Type} (P : world -> Prop) (a : A) : preserves P (mret a).
Proof. intros w Hw. exact Hw. Qed.

Lemma preserves_lift {A : Type} (P : world -> Prop) (r : result A) :
  preserves P (lift r).
Proof. intros w Hw. exact Hw. Qed.

Lemma preserves_for_each {A : Type} (P : world -> Prop) (xs : list A)
  (body : A -> py unit) :
  (forall x, preserves P (body x)) -> preserves P (for_each xs body).
Proof.
  intros Hbody. induction xs as [|x xs IH]; simpl.
  - apply preserves_ret.
  - apply preserves_bind; [apply Hbody | intros _; exact IH].
Qed.

Lemma preserves_update (P : world -> Prop) (f : world -> world) :
  (forall w, P w -> P (f w)) -> preserves P (update f).
Proof. intros Hf w Hw. now apply Hf. Qed.

(** The pyplot calls leave the heap and the console alone. *)
Definition plot_only {A : Type} (m : py A) : Prop :=
  forall w, heap (m w).1 = heap w /\ stdout (m w).1 = stdout w.

Lemma plot_only_preserves {A : Type} (Q : gmap loc ndarray -> list output -> Prop)
  (m : py A) :
  plot_only m -> preserves (fun w => Q (heap w) (stdout w)) m.
Proof. intros Hm w Hw. destruct (Hm w) as [-> ->]. exact Hw. Qed.

Lemma plot_only_bind {A B : Type} (m : py A) (k : A -> py B) :
  plot_only m -> (forall a, plot_only (k a)) -> plot_only (m ≫= k).
Proof.
  intros Hm Hk w. rewrite py_bind_unfold. specialize (Hm w).
  destruct (m w) as [w' [a|e]]; simpl in *; [|assumption].
  destruct (Hk a w') as [-> ->]. assumption.
Qed.

Lemma plot_only_ret {A : Type} (a : A) : plot_only (mret a).
Proof. intros w. now split. Qed.

Lemma plot_only_lift {A : Type} (r : result A) : plot_only (lift r).
Proof. intros w. now split. Qed.

Lemma plot_only_update (f : world -> world) :
  (forall w, heap (f w) = heap w /\ stdout (f w) = stdout w) -> plot_only (update f).
Proof. intros Hf w. apply Hf. Qed.

Lemma plot_only_for_each {A : Type} (xs : list A) (body : A -> py unit) :
  (forall x, plot_only (body x)) -> plot_only (for_each xs body).
Proof.
  intros Hbody. induction xs as [|x xs IH]; simpl.
  - apply plot_only_ret.
  - apply plot_only_bind; [apply Hbody | intros _; exact IH].
Qed.

Lemma plot_only_plt_figure figsize : plot_only (plt_figure figsize).
Proof. intros w. now split. Qed.

Lemma plot_only_plt_gcf : plot_only plt_gcf.
Proof. intros w. unfold plt_gcf. destruct (head (figs w)); now split. Qed.

Lemma plot_only_set_current_figure f : plot_only (set_current_figure f).
Proof.
  apply plot_only_update. intros w. destruct (figs w) as [|[num f'] rest]; now split.
Qed.

Lemma plot_only_plt_subplot r c i : plot_only (plt_subplot r c i).
Proof.
  unfold plt_subplot. apply plot_only_bind; [apply plot_only_plt_gcf|].
  intros [num f]. destruct (axes_at (r, c, i) f);
    (apply plot_only_bind; [apply plot_only_set_current_figure|]);
    intros _; apply plot_only_ret.
Qed.

Lemma plot_only_plt_gca : plot_only plt_gca.
Proof.
  unfold plt_gca. apply plot_only_bind; [apply plot_only_plt_gcf|].
  intros [num f]. destruct (fig_axes f);
    [apply plot_only_plt_subplot | apply plot_only_ret].
Qed.

Lemma plot_only_ax_call handle c : plot_only (ax_call handle c).
Proof. apply plot_only_update. intros w. now split. Qed.

Lemma plot_only_plt_call c : plot_only (plt_call c).
Proof.
  unfold plt_call. apply plot_only_bind; [apply plot_only_plt_gca|].
  intros h. apply plot_only_ax_call.
Qed.

Lemma plot_only_plt_fig_call c : plot_only (plt_fig_call c).
Proof.
  unfold plt_fig_call. apply plot_only_bind; [apply plot_only_plt_gcf|].
  intros [num f]. apply plot_only_set_current_figure.
Qed.

Lemma plot_only_plt_savefig path : plot_only (plt_savefig path).
Proof.
  unfold plt_savefig. apply plot_only_bind; [apply plot_only_plt_gcf|].
  intros [num f] w. unfold write_figure. destruct (decide _); now split.
Qed.

Lemma plot_only_plt_close : plot_only plt_close.
Proof.
  apply plot_only_update. intros w. destruct (figs w) as [|[num f'] rest]; now split.
Qed.

Create HintDb py.
#[local] Hint Resolve plot_only_ret plot_only_lift plot_only_plt_figure
  plot_only_plt_gcf plot_only_set_current_figure plot_only_plt_subplot
  plot_only_plt_gca plot_only_ax_call plot_only_plt_call plot_only_plt_fig_call
  plot_only_plt_savefig plot_only_plt_close : py.

(** Splits a sequence of calls into its calls. *)
Ltac py_calls :=
  repeat first
    [ solve [auto with py]
    | apply plot_only_for_each; intros ?
    | match goal with |- plot_only (let '(_, _) := ?x in _) => destruct x end
    | apply plot_only_bind; [|intros ?] ].

(* ------------------------------------------------------------------ *)
(** ** numpy: broadcasting a matrix against a column *)

Lemma sequence_ok {A C : Type} (g : A -> C) (xs : list A) :
  sequence (map (fun x => Ok (g x)) xs) = Ok (map g xs).
Proof. induction xs as [|x xs IH]; simpl; [reflexivity | now rewrite IH]. Qed.

(** A row against a single element: every element of the row is combined
    with it, whatever the row's length. *)
Lemma broadcast_row_scalar {A B C : Type} (g : A -> B -> C) (xs : list A) (y : B) :
  broadcast (fun x y => Ok (g x y)) xs [y] = Ok (map (fun x => g x y) xs).
Proof.
  unfold broadcast. destruct (Nat.eqb_spec (length xs) (length [y])) as [E|E].
  - destruct xs as [|x [|x' xs]]; simpl in E; try discriminate. reflexivity.
  - destruct xs as [|x [|x' xs]]; try reflexivity;
      apply (sequence_ok (fun x => g x y)).
Qed.

(** A matrix against a column with as many rows: row [i] is combined with the
    column's [i]-th element. *)
Lemma broadcast_matrix_column {A B C : Type} (g : A -> B -> C)
  (rows : list (list A)) (ys : list B) :
  length ys = length rows ->
  broadcast (broadcast (fun x y => Ok (g x y))) rows (map (fun y => [y]) ys)
  = Ok (zip_with (fun row y => map (fun x => g x y) row) rows ys).
Proof.
  intros Hlen. unfold broadcast at 1. rewrite length_map, <- Hlen, Nat.eqb_refl.
  revert ys Hlen; induction rows as [|row rows IH]; intros [|y ys] Hlen;
    simpl in *; try discriminate; [reflexivity|].
  rewrite broadcast_row_scalar. simpl. rewrite IH by lia. reflexivity.
Qed.

Lemma zip_with_row_sum {C : Type} (g : list Z -> Z -> C) (rows : list (list Z)) :
  zip_with g rows (map row_sum rows) = map (fun row => g row (row_sum row)) rows.
Proof. induction rows as [|row rows IH]; simpl; [reflexivity | now rewrite IH]. Qed.

(** The numpy expression of the normalisation, on values. *)
Lemma true_divide_normalized (rows : list (list Z)) :
  true_divide (astype_float (Int2 rows))
              (Int2 (map (fun s => [s]) (map row_sum rows)))
  = Ok (Float2 (normalized_rows rows)).
Proof.
  unfold true_divide. simpl.
  rewrite (map_map (fun s => [s]) (map f64_of_Z)). simpl.
  rewrite <- (map_map f64_of_Z (fun y => [y])).
  rewrite (broadcast_matrix_column f64_div) by (now rewrite !length_map).
  simpl. f_equal. f_equal. unfold normalized_rows.
  rewrite zip_with_fmap_l, zip_with_fmap_r.
  rewrite (zip_with_row_sum (fun row s => map (fun x => f64_div x (f64_of_Z s))
                                              (map f64_of_Z row))).
  apply map_ext. intros row. now rewrite map_map.
Qed.

Lemma zip_with_map_self {A B C : Type} (g : A -> B -> C) (f : A -> B) (xs : list A) :
  zip_with g xs (map f xs) = map (fun x => g x (f x)) xs.
Proof. induction xs as [|x xs IH]; simpl; [reflexivity | now rewrite IH]. Qed.

Lemma true_divide_normalized_float (rows : list (list float64)) :
  true_divide (astype_float (Float2 rows))
              (Float2 (map (fun s => [s]) (map f64_row_sum rows)))
  = Ok (Float2 (normalized_float_rows rows)).
Proof.
  unfold true_divide. cbn [astype_float].
  rewrite (broadcast_matrix_column f64_div) by (now rewrite length_map).
  cbn [mbind result_bind]. f_equal. f_equal. unfold normalized_float_rows.
  apply (zip_with_map_self (fun row y => map (fun x => f64_div x y) row)).
Qed.

(* ------------------------------------------------------------------ *)
(** ** Arrays in the heap *)

Lemma np_get_ok (l : loc) (a : ndarray) (w : world) :
  heap w !! l = Some a -> np_get l w = (w, Ok a).
Proof. intros H. unfold np_get. now rewrite H. Qed.

Lemma np_get_none (l : loc) (w : world) :
  heap w !! l = None -> np_get l w = (w, Raise TypeError).
Proof. intros H. unfold np_get. now rewrite H. Qed.

Lemma np_new_subseteq (h0 : gmap loc ndarray) (a : ndarray) :
  preserves (fun w => h0 ⊆ heap w) (np_new a).
Proof.
  intros w Hw. simpl. etrans; [exact Hw|].
  apply insert_subseteq. apply not_elem_of_dom. apply is_fresh.
Qed.

Lemma np_get_preserves (P : world -> Prop) (l : loc) : preserves P (np_get l).
Proof. intros w Hw. unfold np_get. now destruct (heap w !! l). Qed.

Lemma print_subseteq (h0 : gmap loc ndarray) (o : output) :
  preserves (fun w => h0 ⊆ heap w) (print o).
Proof. intros w Hw. exact Hw. Qed.

(** The normalisation on the heap: four new arrays, the last one holding the
    quotient; the arrays that were there are untouched. *)
Lemma normalized_run (cm : loc) (a sums col q : ndarray) (w : world) :
  heap w !! cm = Some a ->
  sum_axis1 a = Ok sums -> newaxis_column sums = Ok col ->
  true_divide (astype_float a) col = Ok q ->
  exists (l : loc) (h' : gmap loc ndarray),
    normalized cm w = (set_heap h' w, Ok l) /\
    h' !! l = Some q /\
    heap w ⊆ h' /\
    heap w !! l = None.
Proof.
  intros Hcm Hsum Hcol Hdiv. unfold normalized.
  rewrite (py_bind_ok _ _ _ _ _ (np_get_ok _ _ _ Hcm)).
  rewrite py_bind_unfold. unfold np_new at 1. cbv zeta.
  set (l1 := fresh (dom (heap w))).
  set (h1 := <[l1 := astype_float a]> (heap w)).
  assert (Hl1 : heap w !! l1 = None) by (apply not_elem_of_dom, is_fresh).
  assert (Hcm1 : h1 !! cm = Some a).
  { unfold h1. rewrite lookup_insert_ne; [assumption | congruence]. }
  rewrite (py_bind_ok _ _ (set_heap h1 w) (set_heap h1 w) a)
    by (apply np_get_ok; exact Hcm1).
  rewrite py_bind_unfold. unfold lift at 1. rewrite Hsum. cbv iota beta.
  rewrite py_bind_unfold. unfold np_new at 1. cbv zeta. simpl heap.
  set (l2 := fresh (dom h1)).
  set (h2 := <[l2 := sums]> h1).
  assert (Hl2 : h1 !! l2 = None) by (apply not_elem_of_dom, is_fresh).
  rewrite py_bind_unfold. unfold lift at 1. rewrite Hcol. cbv iota beta.
  rewrite py_bind_unfold. unfold np_new at 1. cbv zeta. simpl heap.
  set (l3 := fresh (dom h2)).
  set (h3 := <[l3 := col]> h2).
  assert (Hl3 : h2 !! l3 = None) by (apply not_elem_of_dom, is_fresh).
  assert (H11 : h1 !! l1 = Some (astype_float a)) by apply lookup_insert_eq.
  assert (N21 : l2 ≠ l1) by (intros E; rewrite E in Hl2; congruence).
  assert (H21 : h2 !! l1 = Some (astype_float a)).
  { unfold h2. now rewrite lookup_insert_ne. }
  assert (N31 : l3 ≠ l1) by (intros E; rewrite E in Hl3; congruence).
  assert (H31 : h3 !! l1 = Some (astype_float a)).
  { unfold h3. now rewrite lookup_insert_ne. }
  set (w3 := set_heap h3 (set_heap h2 (set_heap h1 w))).
  rewrite (py_bind_ok _ _ w3 w3 (astype_float a))
    by (apply np_get_ok; exact H31).
  rewrite (py_bind_ok _ _ w3 w3 col)
    by (apply np_get_ok; apply lookup_insert_eq).
  rewrite py_bind_unfold. unfold lift at 1. rewrite Hdiv.
  unfold np_new. cbv zeta. simpl heap.
  set (l4 := fresh (dom h3)).
  assert (Hl4 : h3 !! l4 = None) by (apply not_elem_of_dom, is_fresh).
  exists l4, (<[l4 := q]> h3).
  assert (Hsub3 : heap w ⊆ h3).
  { transitivity h1; [apply insert_subseteq, Hl1|].
    transitivity h2; [apply insert_subseteq, Hl2|].
    apply insert_subseteq, Hl3. }
  split; [reflexivity|]. split; [apply lookup_insert_eq|]. split.
  - transitivity h3; [exact Hsub3 | apply insert_subseteq, Hl4].
  - destruct (heap w !! l4) as [a'|] eqn:E; [|reflexivity].
    rewrite (lookup_weaken _ _ _ _ E Hsub3) in Hl4. discriminate.
Qed.

Lemma normalized_spec (cm : loc) (rows : list (list Z)) (w : world) :
  heap w !! cm = Some (Int2 rows) ->
  exists (l : loc) (h' : gmap loc ndarray),
    normalized cm w = (set_heap h' w, Ok l) /\
    h' !! l = Some (Float2 (normalized_rows rows)) /\
    heap w ⊆ h' /\
    heap w !! l = None.
Proof.
  intros Hcm.
  apply (normalized_run cm (Int2 rows) (Int1 (map row_sum rows))
           (Int2 (map (fun x => [x]) (map row_sum rows))) _ w Hcm);
    [reflexivity | reflexivity | apply true_divide_normalized].
Qed.

Lemma normalized_spec_float (cm : loc) (rows : list (list float64)) (w : world) :
  heap w !! cm = Some (Float2 rows) ->
  exists (l : loc) (h' : gmap loc ndarray),
    normalized cm w = (set_heap h' w, Ok l) /\
    h' !! l = Some (Float2 (normalized_float_rows rows)) /\
    heap w ⊆ h' /\
    heap w !! l = None.
Proof.
  intros Hcm.
  apply (normalized_run cm (Float2 rows) (Float1 (map f64_row_sum rows))
           (Float2 (map (fun x => [x]) (map f64_row_sum rows))) _ w Hcm);
    [reflexivity | reflexivity | apply true_divide_normalized_float].
Qed.

(* ------------------------------------------------------------------ *)
(** ** [plot_confusion_matrix]: what is printed and plotted *)

(** The current axes of the current figure shows [D] last. *)
Definition shows (D : ndarray) (w : world) : Prop := plotted_matrix w = Some D.

Lemma images_of_axes_add (c : ax_cmd) (a : axes) :
  images_of (axes_add c a) =
  images_of a ++ match c with Imshow d _ _ => [d] | _ => [] end.
Proof.
  unfold images_of. simpl. rewrite omap_app. f_equal. now destruct c.
Qed.

Lemma ax_call_shows (D : ndarray) (handle : nat * nat) (c : ax_cmd) :
  is_imshow c = false -> preserves (shows D) (ax_call handle c).
Proof.
  intros Hc w Hw. unfold shows, plotted_matrix in *. simpl.
  destruct (figs w) as [|[num f] rest]; [discriminate|]. simpl in *.
  destruct (decide (num = handle.1)); simpl; [|assumption].
  destruct (fig_axes f) as [|a axs]; [discriminate|]. simpl in *.
  destruct (decide (ax_id a = handle.2)); [|assumption].
  rewrite images_of_axes_add.
  destruct c; try discriminate; now rewrite app_nil_r.
Qed.

Lemma plt_gca_current (w : world) num f a axs rest :
  figs w = (num, f) :: rest -> fig_axes f = a :: axs ->
  plt_gca w = (w, Ok (num, ax_id a)).
Proof.
  intros Hfigs Haxes. unfold plt_gca. rewrite py_bind_unfold.
  unfold plt_gcf. rewrite Hfigs. simpl. now rewrite Haxes.
Qed.

Lemma shows_current (D : ndarray) (w : world) :
  shows D w ->
  exists num f a axs rest,
    figs w = (num, f) :: rest /\ fig_axes f = a :: axs /\ last (images_of a) = Some D.
Proof.
  unfold shows, plotted_matrix. intros H.
  destruct (figs w) as [|[num f] rest]; [discriminate|]. simpl in H.
  destruct (fig_axes f) as [|a axs] eqn:E; [discriminate|]. simpl in H.
  now exists num, f, a, axs, rest.
Qed.

Lemma plt_call_shows (D : ndarray) (c : ax_cmd) :
  is_imshow c = false -> preserves (shows D) (plt_call c).
Proof.
  intros Hc w Hw.
  destruct (shows_current D w Hw) as (num & f & a & axs & rest & Hfigs & Haxes & _).
  unfold plt_call. rewrite (py_bind_ok _ _ _ _ _ (plt_gca_current _ _ _ _ _ _ Hfigs Haxes)).
  now apply ax_call_shows.
Qed.

Lemma plt_fig_call_shows (D : ndarray) (c : fig_cmd) : preserves (shows D) (plt_fig_call c).
Proof.
  intros w Hw.
  destruct (shows_current D w Hw) as (num & f & a & axs & rest & Hfigs & Haxes & Himg).
  unfold plt_fig_call, plt_gcf, set_current_figure, update.
  rewrite py_bind_unfold, Hfigs. simpl. rewrite Hfigs.
  unfold shows, plotted_matrix. simpl. now rewrite Haxes.
Qed.

(** [plt.gca()] leaves a figure with a current axes and returns its handle. *)
Lemma plt_gca_spec (w : world) :
  exists w1 num f a axs rest,
    plt_gca w = (w1, Ok (num, ax_id a)) /\
    figs w1 = (num, f) :: rest /\ fig_axes f = a :: axs.
Proof.
  destruct (figs w) as [|[num f] rest] eqn:Hfigs.
  - unfold plt_gca, plt_gcf, plt_figure. rewrite py_bind_unfold, Hfigs. simpl.
    unfold plt_subplot, plt_gcf. rewrite py_bind_unfold. simpl.
    unfold set_current_figure, update. rewrite py_bind_unfold. simpl.
    eexists _, _, _, {| ax_id := 0; ax_position := (1, 1, 1); ax_cmds := [] |}, [], _.
    split; [reflexivity|]. split; reflexivity.
  - destruct (fig_axes f) as [|a axs] eqn:Haxes.
    + unfold plt_gca, plt_gcf. rewrite py_bind_unfold, Hfigs. simpl. rewrite Haxes.
      unfold plt_subplot, plt_gcf. rewrite py_bind_unfold, Hfigs. simpl.
      unfold axes_at. rewrite Haxes. simpl.
      unfold set_current_figure, update. rewrite py_bind_unfold, Hfigs. simpl.
      eexists _, _, _, {| ax_id := 0; ax_position := (1, 1, 1); ax_cmds := [] |}, [], _.
    split; [reflexivity|]. split; reflexivity.
    + exists w, num, f, a, axs, rest.
      split; [now apply (plt_gca_current w num f a axs rest) | now split].
Qed.

Lemma plt_imshow_2d (a : ndarray) (interpolation cmap : string) :
  two_dimensional a = true ->
  plt_imshow a interpolation cmap = plt_call (Imshow a interpolation cmap).
Proof. intros H. unfold plt_imshow. now rewrite H. Qed.

Lemma plot_only_plt_imshow a interpolation cmap :
  plot_only (plt_imshow a interpolation cmap).
Proof.
  unfold plt_imshow. apply plot_only_bind; [apply plot_only_plt_gca|]. intros handle.
  destruct (two_dimensional a); [apply plot_only_ax_call | apply plot_only_lift].
Qed.

(** [plt.imshow] puts its matrix on the current axes, creating the figure
    and the axes when there is none. *)
Lemma plt_call_imshow (a : ndarray) (interpolation cmap : string) (w : world) :
  shows a (plt_call (Imshow a interpolation cmap) w).1.
Proof.
  unfold plt_call.
  destruct (plt_gca_spec w) as (w1 & num & f & ax & axs & rest & Hgca & Hfigs & Haxes).
  rewrite (py_bind_ok _ _ _ _ _ Hgca).
  unfold shows, plotted_matrix. simpl. rewrite Hfigs. simpl.
  destruct (decide (num = num)); [|congruence]. simpl. rewrite Haxes. simpl.
  destruct (decide (ax_id ax = ax_id ax)); [|congruence].
  rewrite images_of_axes_add. apply last_snoc.
Qed.

Lemma plot_only_np_get (l : loc) : plot_only (np_get l).
Proof. intros w. unfold np_get. destruct (heap w !! l); now split. Qed.

#[local] Hint Resolve plot_only_np_get : py.

Lemma annotate_plot_only cm classes normalize title :
  plot_only (annotate cm classes normalize title).
Proof. unfold annotate. py_calls. Qed.

Lemma annotate_shows (D : ndarray) cm classes normalize title :
  preserves (shows D) (annotate cm classes normalize title).
Proof.
  unfold annotate.
  repeat first
    [ apply preserves_lift
    | apply np_get_preserves
    | apply plt_fig_call_shows
    | apply plt_call_shows; reflexivity
    | apply preserves_for_each; intros [? ?]
    | apply preserves_bind; [|intros ?] ].
Qed.

(** The matrix that is printed and plotted: the input when [normalize] is
    not set, the quotient array when it is. *)
Lemma plot_confusion_matrix_shows (cm : loc) (a D : ndarray)
  (classes : list string) (normalize : bool) (title cmap : string) (w : world) :
  heap w !! cm = Some a ->
  two_dimensional D = true ->
  (if normalize
   then exists l h', normalized cm w = (set_heap h' w, Ok l) /\ h' !! l = Some D
   else D = a) ->
  let w' := (plot_confusion_matrix cm classes normalize title cmap w).1 in
  printed_matrix w' = Some D /\ plotted_matrix w' = Some D.
Proof.
  intros Hcm H2d HD w'.
  assert (Hhead : exists (l : loc) (w1 : world),
    heap w1 !! l = Some D /\
    w' = ((print (PrintArray D);;
           a ← np_get l; plt_imshow a "nearest" cmap;;
           annotate l classes normalize title) w1).1).
  { unfold w', plot_confusion_matrix. destruct normalize.
    - destruct HD as (l & h' & Hrun & Hl).
      exists l, (add_stdout (PrintStr "Normalized confusion matrix") (set_heap h' w)).
      split; [exact Hl|].
      assert (H1 : (cm' ← normalized cm;
                    print (PrintStr "Normalized confusion matrix");; mret cm') w
                   = (add_stdout (PrintStr "Normalized confusion matrix")
                        (set_heap h' w), Ok l)).
      { now rewrite (py_bind_ok _ _ _ _ _ Hrun). }
      rewrite (py_bind_ok _ _ _ _ _ H1).
      rewrite (py_bind_ok _ _ _ _ D) by (apply np_get_ok; exact Hl).
      reflexivity.
    - subst D.
      exists cm, (add_stdout (PrintStr "Confusion matrix, without normalization") w).
      split; [exact Hcm|].
      assert (H1 : (print (PrintStr "Confusion matrix, without normalization");;
                    mret cm) w
                   = (add_stdout (PrintStr "Confusion matrix, without normalization") w,
                      Ok cm)) by reflexivity.
      rewrite (py_bind_ok _ _ _ _ _ H1).
      rewrite (py_bind_ok _ _ _ _ a) by (apply np_get_ok; exact Hcm).
      reflexivity. }
  destruct Hhead as (l & w1 & Hl & ->).
  set (w2 := add_stdout (PrintArray D) w1).
  assert (Hw : (print (PrintArray D);;
                a ← np_get l; plt_imshow a "nearest" cmap;;
                annotate l classes normalize title) w1
               = (plt_call (Imshow D "nearest" cmap);;
                  annotate l classes normalize title) w2).
  { assert (H1 : print (PrintArray D) w1 = (w2, Ok tt)) by reflexivity.
    rewrite (py_bind_ok _ _ _ _ _ H1).
    rewrite (py_bind_ok _ _ w2 w2 D) by (apply np_get_ok; exact Hl).
    now rewrite (plt_imshow_2d D) by exact H2d. }
  rewrite Hw. clear Hw. rewrite py_bind_unfold.
  pose proof (plt_call_imshow D "nearest" cmap w2) as Hshow.
  destruct (plot_only_plt_call (Imshow D "nearest" cmap) w2) as [_ Hout].
  destruct (plt_call (Imshow D "nearest" cmap) w2) as [w3 [[]|e]]; simpl in *.
  - destruct (annotate_plot_only l classes normalize title w3) as [_ Hout'].
    split.
    + unfold printed_matrix. rewrite Hout', Hout. now rewrite last_snoc.
    + now apply annotate_shows.
  - split; [|exact Hshow].
    unfold printed_matrix. rewrite Hout. now rewrite last_snoc.
Qed.

Lemma plot_confusion_matrix_displays (cm : loc) (rows : list (list Z))
  (classes : list string) (normalize : bool) (title cmap : string) (w : world) :
  heap w !! cm = Some (Int2 rows) ->
  let D := if normalize then Float2 (normalized_rows rows) else Int2 rows in
  let w' := (plot_confusion_matrix cm classes normalize title cmap w).1 in
  printed_matrix w' = Some D /\ plotted_matrix w' = Some D.
Proof.
  intros Hcm D.
  apply (plot_confusion_matrix_shows cm (Int2 rows) D _ _ _ _ w Hcm).
  - now destruct normalize.
  - destruct normalize; [|reflexivity].
    destruct (normalized_spec cm rows w Hcm) as (l & h' & Hrun & Hl & _). eauto.
Qed.

Lemma plot_confusion_matrix_displays_float (cm : loc) (rows : list (list float64))
  (classes : list string) (normalize : bool) (title cmap : string) (w : world) :
  heap w !! cm = Some (Float2 rows) ->
  let D := if normalize then Float2 (normalized_float_rows rows) else Float2 rows in
  let w' := (plot_confusion_matrix cm classes normalize title cmap w).1 in
  printed_matrix w' = Some D /\ plotted_matrix w' = Some D.
Proof.
  intros Hcm D.
  apply (plot_confusion_matrix_shows cm (Float2 rows) D _ _ _ _ w Hcm).
  - now destruct normalize.
  - destruct normalize; [|reflexivity].
    destruct (normalized_spec_float cm rows w Hcm) as (l & h' & Hrun & Hl & _). eauto.
Qed.

(* ------------------------------------------------------------------ *)
(** ** Row sums *)

Lemma wrap64_range (z : Z) : is_int64 (wrap64 z).
Proof.
  unfold is_int64, wrap64.
  pose proof (Z.mod_pos_bound (z + 2 ^ 63) (2 ^ 64) ltac:(lia)). lia.
Qed.

Lemma wrap64_small (z : Z) : is_int64 z -> wrap64 z = z.
Proof.
  unfold is_int64, wrap64. intros H. rewrite Z.mod_small; lia.
Qed.

Lemma wrap64_add_l (a b : Z) : wrap64 (wrap64 a + b) = wrap64 (a + b).
Proof.
  unfold wrap64. f_equal.
  replace ((a + 2 ^ 63) mod 2 ^ 64 - 2 ^ 63 + b + 2 ^ 63)%Z
    with ((a + 2 ^ 63) mod 2 ^ 64 + b)%Z by lia.
  rewrite Zplus_mod_idemp_l. f_equal. lia.
Qed.

Lemma foldl_int64_add (row : list Z) (a : Z) :
  foldl int64_add (wrap64 a) row = wrap64 (a + exact_sum row).
Proof.
  revert a; induction row as [|x row IH]; intros a; simpl.
  - now rewrite Z.add_0_r.
  - unfold int64_add at 2. rewrite wrap64_add_l, IH. f_equal. lia.
Qed.

(** numpy's row sum is the exact sum wrapped to [int64]. *)
Lemma row_sum_wrap (row : list Z) : row_sum row = wrap64 (exact_sum row).
Proof.
  unfold row_sum. change 0%Z with (wrap64 0) at 1. now rewrite foldl_int64_add.
Qed.

Lemma row_sum_range (row : list Z) : is_int64 (row_sum row).
Proof. rewrite row_sum_wrap. apply wrap64_range. Qed.

(** In exact arithmetic the quotients of a row by its sum add up to one. *)
Lemma Qsum_quotients (row : list Z) (s : Z) :
  (Qsum (map (fun x => inject_Z x / inject_Z s) row)
   == inject_Z (exact_sum row) / inject_Z s)%Q.
Proof.
  induction row as [|x row IH]; simpl.
  - unfold Qdiv. ring.
  - rewrite IH, inject_Z_plus. unfold Qdiv. ring.
Qed.

Lemma Qsum_normalized (row : list Z) :
  exact_sum row <> 0%Z ->
  (Qsum (map (fun x => inject_Z x / inject_Z (exact_sum row)) row) == 1)%Q.
Proof.
  intros Hs. rewrite Qsum_quotients. unfold Qdiv. apply Qmult_inv_r.
  intros E. apply Hs. apply (proj1 (inject_Z_injective _ _)). exact E.
Qed.

(* ------------------------------------------------------------------ *)
(** ** [plot_confusion_matrix]: the stated properties *)

Lemma normalized_rows_lookup (rows : list (list Z)) (i : nat) (row : list Z) :
  rows !! i = Some row ->
  normalized_rows rows !! i =
    Some (map (fun x => f64_div (f64_of_Z x) (f64_of_Z (row_sum row))) row).
Proof. intros H. unfold normalized_rows. now rewrite list_lookup_fmap, H. Qed.

Lemma normalized_float_rows_lookup (rows : list (list float64)) (i : nat)
  (row : list float64) :
  rows !! i = Some row ->
  normalized_float_rows rows !! i =
    Some (map (fun x => f64_div x (f64_row_sum row)) row).
Proof. intros H. unfold normalized_float_rows. now rewrite list_lookup_fmap, H. Qed.

(** The rows of a normalised matrix do not all sum to one.  The first row of
    the normalised [skewed_cm], [0.2, 0.7, 0.1] in [float64], sums to
    [1 - 2^-53] when added up in [float64], and to less than one as exact
    rationals.  The first row of [overflow_cm] has the sum [2^63], which
    numpy computes as [-2^63]: the row becomes [-0.5, -0.5] and sums to
    [-1.0]. *)
Lemma plot_confusion_matrix_row_sum_not_one :
  (exists (D : list (list float64)) (drow : list float64),
     plotted_matrix
       (plot_confusion_matrix 1%positive ["a"; "b"; "c"] true "Confusion matrix" "Blues"
          skewed_cm_world).1 = Some (Float2 D) /\
     printed_matrix
       (plot_confusion_matrix 1%positive ["a"; "b"; "c"] true "Confusion matrix" "Blues"
          skewed_cm_world).1 = Some (Float2 D) /\
     skewed_cm !! 0 = Some [2; 7; 1]%Z /\ row_sum [2; 7; 1]%Z = 10%Z /\
     D !! 0 = Some drow /\
     f64_sum drow = S754_finite false 9007199254740991 (-53) /\
     f64_sum drow <> f64_one /\
     ~ (Qsum (map f64_to_Q drow) == 1)%Q) /\
  (exists (D : list (list float64)) (drow : list float64),
     plotted_matrix
       (plot_confusion_matrix 1%positive ["a"; "b"] true "Confusion matrix" "Blues"
          overflow_cm_world).1 = Some (Float2 D) /\
     overflow_cm !! 0 = Some [2 ^ 62; 2 ^ 62]%Z /\
     exact_sum [2 ^ 62; 2 ^ 62]%Z = (2 ^ 63)%Z /\
     row_sum [2 ^ 62; 2 ^ 62]%Z = (- 2 ^ 63)%Z /\
     D !! 0 = Some drow /\
     drow = [S754_finite true 4503599627370496 (-53);
             S754_finite true 4503599627370496 (-53)] /\
     f64_sum drow = f64_of_Z (-1) /\
     (Qsum (map f64_to_Q drow) == -1)%Q).
Proof.
  split.
  - exists (normalized_rows skewed_cm),
           (map (fun x => f64_div (f64_of_Z x) (f64_of_Z 10)) [2; 7; 1]%Z).
    split; [vm_compute; reflexivity|]. split; [vm_compute; reflexivity|].
    split; [reflexivity|]. split; [reflexivity|]. split; [reflexivity|].
    split; [vm_compute; reflexivity|]. split; [vm_compute; discriminate|].
    vm_compute. discriminate.
  - exists (normalized_rows overflow_cm),
           [S754_finite true 4503599627370496 (-53);
            S754_finite true 4503599627370496 (-53)].
    split; [vm_compute; reflexivity|]. split; [reflexivity|].
    split; [reflexivity|]. split; [vm_compute; reflexivity|].
    split; [vm_compute; reflexivity|]. split; [reflexivity|].
    split; [vm_compute; reflexivity|]. vm_compute. reflexivity.
Qed.

(** C5 (amended).  When [normalize] is false the printed and the plotted
    matrix are the input unchanged.  When it is true they are the matrix
    whose entry (i, j) is the [float64] quotient of the input entry,
    converted to [float64], by the sum of its row as numpy computes it: for a
    matrix of [int64] the [int64] sum (the exact sum wrapped around,
    converted to [float64]), for a matrix of [float64] the [float64] sum.
    The rows of the result are not row-stochastic in general; for a row of
    non-negative counts whose sum is positive and below [2^53] the divisor is
    the exact sum and the entries, added up exactly, are within [2^-53] of
    one.  The matrix [[8,2],[3,7]] becomes [[0.8,0.2],[0.3,0.7]] and both of
    these rows sum to exactly 1.0 in [float64]. *)
Theorem plot_confusion_matrix_normalize_spec (cm : loc) (classes : list string)
  (title cmap : string) (w : world) :
  (forall rows : list (list Z), heap w !! cm = Some (Int2 rows) ->
     (printed_matrix (plot_confusion_matrix cm classes false title cmap w).1
        = Some (Int2 rows) /\
      plotted_matrix (plot_confusion_matrix cm classes false title cmap w).1
        = Some (Int2 rows)) /\
     (printed_matrix (plot_confusion_matrix cm classes true title cmap w).1
        = Some (Float2 (normalized_rows rows)) /\
      plotted_matrix (plot_confusion_matrix cm classes true title cmap w).1
        = Some (Float2 (normalized_rows rows))) /\
     length (normalized_rows rows) = length rows /\
     (forall i row, rows !! i = Some row ->
        exists drow, normalized_rows rows !! i = Some drow /\
          length drow = length row /\
          (forall j x, row !! j = Some x ->
             drow !! j = Some (f64_div (f64_of_Z x) (f64_of_Z (row_sum row)))) /\
          row_sum row = wrap64 (exact_sum row) /\
          (Forall (fun x => 0 <= x)%Z row -> (0 < exact_sum row < 2 ^ 53)%Z ->
             row_sum row = exact_sum row /\
             (Qabs (Qsum (map f64_to_Q drow) - 1) <= u53)%Q))) /\
  (forall rows : list (list float64), heap w !! cm = Some (Float2 rows) ->
     (printed_matrix (plot_confusion_matrix cm classes false title cmap w).1
        = Some (Float2 rows) /\
      plotted_matrix (plot_confusion_matrix cm classes false title cmap w).1
        = Some (Float2 rows)) /\
     (printed_matrix (plot_confusion_matrix cm classes true title cmap w).1
        = Some (Float2 (normalized_float_rows rows)) /\
      plotted_matrix (plot_confusion_matrix cm classes true title cmap w).1
        = Some (Float2 (normalized_float_rows rows))) /\
     length (normalized_float_rows rows) = length rows /\
     (forall i row, rows !! i = Some row ->
        exists drow, normalized_float_rows rows !! i = Some drow /\
          length drow = length row /\
          (forall j x, row !! j = Some x ->
             drow !! j = Some (f64_div x (f64_row_sum row))))) /\
  (plotted_matrix
     (plot_confusion_matrix 1%positive ["a"; "b"] true "Confusion matrix" "Blues"
        example_cm_world).1
   = Some (Float2 [[S754_finite false 7205759403792794 (-53);
                    S754_finite false 7205759403792794 (-55)];
                   [S754_finite false 5404319552844595 (-54);
                    S754_finite false 6305039478318694 (-53)]]) /\
   map f64_sum (normalized_rows example_cm) = [f64_one; f64_one]).
Proof.
  split; [|split; [|split; vm_compute; reflexivity]].
  - intros rows Hcm.
    split; [exact (plot_confusion_matrix_displays cm rows classes false title cmap w Hcm)|].
    split; [exact (plot_confusion_matrix_displays cm rows classes true title cmap w Hcm)|].
    split; [apply length_map|].
    intros i row Hrow. eexists.
    split; [exact (normalized_rows_lookup rows i row Hrow)|].
    split; [apply length_map|]. split; [|split].
    + intros j x Hx. now rewrite list_lookup_fmap, Hx.
    + apply row_sum_wrap.
    + intros Hnn Hsum.
      assert (Hrs : row_sum row = exact_sum row).
      { rewrite row_sum_wrap. apply wrap64_small. unfold is_int64. lia. }
      split; [exact Hrs|]. rewrite Hrs. now apply normalized_row_sum.
  - intros rows Hcm.
    split; [exact (plot_confusion_matrix_displays_float cm rows classes false title cmap
                     w Hcm)|].
    split; [exact (plot_confusion_matrix_displays_float cm rows classes true title cmap
                     w Hcm)|].
    split; [apply length_map|].
    intros i row Hrow. eexists.
    split; [exact (normalized_float_rows_lookup rows i row Hrow)|].
    split; [apply length_map|].
    intros j x Hx. now rewrite list_lookup_fmap, Hx.
Qed.


(* ------------------------------------------------------------------ *)
(** ** [plot_confusion_matrix]: the caller's arrays *)

Lemma normalized_subseteq (h0 : gmap loc ndarray) (cm : loc) :
  preserves (fun w => h0 ⊆ heap w) (normalized cm).
Proof.
  unfold normalized.
  repeat first
    [ apply preserves_lift
    | apply np_get_preserves
    | apply np_new_subseteq
    | apply preserves_bind; [|intros ?] ].
Qed.

Lemma plot_confusion_matrix_subseteq (h0 : gmap loc ndarray) cm classes normalize
  title cmap :
  preserves (fun w => h0 ⊆ heap w) (plot_confusion_matrix cm classes normalize title cmap).
Proof.
  unfold plot_confusion_matrix.
  apply preserves_bind.
  { destruct normalize.
    - apply preserves_bind; [apply normalized_subseteq|]. intros l.
      apply preserves_bind; [apply print_subseteq|]. intros _. apply preserves_ret.
    - apply preserves_bind; [apply print_subseteq|]. intros _. apply preserves_ret. }
  intros l.
  apply preserves_bind; [apply np_get_preserves|]. intros a.
  apply preserves_bind; [apply print_subseteq|]. intros _.
  apply preserves_bind; [apply np_get_preserves|]. intros a'.
  apply preserves_bind.
  - apply (plot_only_preserves (fun h _ => h0 ⊆ h)), plot_only_plt_imshow.
  - intros _. apply (plot_only_preserves (fun h _ => h0 ⊆ h)), annotate_plot_only.
Qed.

(** C10.  [plot_confusion_matrix] never mutates the caller's matrix: after
    the call, with or without [normalize], every array that was in the heap
    is there unchanged, and the reference [cm] names what it named before.
    With [normalize] set, the quotient is a new array object (its reference
    was not in use, so it is not [cm]), to which only the local name is
    rebound. *)
Theorem plot_confusion_matrix_frame (cm : loc) (classes : list string)
  (normalize : bool) (title cmap : string) (w : world) :
  heap w ⊆ heap (plot_confusion_matrix cm classes normalize title cmap w).1 /\
  heap (plot_confusion_matrix cm classes normalize title cmap w).1 !! cm
    = heap w !! cm /\
  (forall rows, heap w !! cm = Some (Int2 rows) ->
     exists l h', normalized cm w = (set_heap h' w, Ok l) /\
                  heap w !! l = None /\ l <> cm /\
                  h' !! l = Some (Float2 (normalized_rows rows)) /\
                  h' !! cm = Some (Int2 rows)).
Proof.
  assert (Hsub : heap w ⊆ heap (plot_confusion_matrix cm classes normalize title cmap w).1).
  { now apply (plot_confusion_matrix_subseteq (heap w)). }
  split; [exact Hsub|]. split.
  - destruct (heap w !! cm) as [a|] eqn:Hcm.
    + eapply lookup_weaken; eauto.
    + unfold plot_confusion_matrix. destruct normalize.
      * assert (H1 : (cm' ← normalized cm;
                      print (PrintStr "Normalized confusion matrix");; mret cm') w
                     = (w, Raise TypeError)).
        { apply py_bind_raise. unfold normalized.
          apply py_bind_raise. now apply np_get_none. }
        now rewrite (py_bind_raise _ _ _ _ _ H1).
      * assert (H1 : (print (PrintStr "Confusion matrix, without normalization");;
                      mret cm) w
                     = (add_stdout (PrintStr "Confusion matrix, without normalization") w,
                        Ok cm)) by reflexivity.
        rewrite (py_bind_ok _ _ _ _ _ H1).
        now rewrite (py_bind_raise _ _ _ _ TypeError) by (now apply np_get_none).
  - intros rows Hcm.
    destruct (normalized_spec cm rows w Hcm) as (l & h' & Hrun & Hl & Hsub' & Hnew).
    exists l, h'. split; [exact Hrun|].
    split; [exact Hnew|]. split; [congruence|]. split; [exact Hl|].
    eapply lookup_weaken; eauto.
Qed.

(* ------------------------------------------------------------------ *)
(** ** pyplot: calls on a figure that has just been created *)

(** [num] is the current figure [f] and no other open figure has its number. *)
Definition focused (w : world) (num : nat) (f : figure) (rest : list (nat * figure))
  : Prop :=
  figs w = (num, f) :: rest /\ Forall (fun nf : nat * figure => nf.1 ≠ num) rest.

Lemma figure_number_fresh (fs : list (nat * figure)) :
  Forall (fun nf : nat * figure => nf.1 ≠ S (foldr Nat.max 0 (map fst fs))) fs.
Proof.
  assert (H : Forall (fun nf : nat * figure => nf.1 <= foldr Nat.max 0 (map fst fs)) fs).
  { induction fs as [|nf fs IH]; constructor; simpl.
    - lia.
    - eapply Forall_impl; [exact IH|]. simpl. intros; lia. }
  eapply Forall_impl; [exact H|]. simpl. intros; lia.
Qed.

Lemma plt_figure_focused (figsize : option (nat * nat)) (w : world) :
  exists num,
    plt_figure figsize w
      = (add_trace (EFigure num) (set_figs ((num, empty_figure figsize) :: figs w) w),
         Ok num) /\
    Forall (fun nf : nat * figure => nf.1 ≠ num) (figs w).
Proof. eexists. split; [reflexivity | apply figure_number_fresh]. Qed.

Lemma plt_subplot_new (r c i : nat) (w : world) num f rest :
  focused w num f rest -> axes_at (r, c, i) f = None ->
  plt_subplot r c i w =
  (set_figs ((num, {| fig_size := fig_size f;
                      fig_axes := {| ax_id := length (fig_axes f);
                                     ax_position := (r, c, i);
                                     ax_cmds := [] |} :: fig_axes f;
                      fig_cmds := fig_cmds f |}) :: rest) w,
   Ok (num, length (fig_axes f))).
Proof.
  intros [Hfigs _] Hnone. unfold plt_subplot, plt_gcf.
  rewrite py_bind_unfold, Hfigs. simpl. rewrite Hnone.
  unfold set_current_figure, update. rewrite py_bind_unfold, Hfigs. reflexivity.
Qed.

Lemma ax_call_focused (id : nat) (c : ax_cmd) (w : world) num f rest :
  focused w num f rest ->
  ax_call (num, id) c w =
  (set_figs ((num, figure_axes_add id c f) :: rest) w, Ok tt).
Proof.
  intros [Hfigs Hfresh]. unfold ax_call, update. rewrite Hfigs. simpl.
  destruct (decide (num = num)); [|congruence]. do 3 f_equal.
  clear Hfigs. induction Hfresh as [|nf rest Hnf _ IH]; simpl; [reflexivity|].
  destruct (decide (nf.1 = num)); [contradiction|]. now rewrite IH.
Qed.

Lemma plt_savefig_focused (path : string) (w : world) num f rest :
  focused w num f rest ->
  dirname path = "" \/ dirname path ∈ dirs w ->
  plt_savefig path w =
  (add_trace (ESavefig path f) (set_files (<[path := f]> (files w)) w), Ok tt).
Proof.
  intros [Hfigs _] Hdir. unfold plt_savefig, plt_gcf.
  rewrite py_bind_unfold, Hfigs. simpl. unfold write_figure.
  now destruct (decide _).
Qed.

Lemma plt_close_focused (w : world) num f rest :
  focused w num f rest ->
  plt_close w = (add_trace (EClose num) (set_figs rest w), Ok tt).
Proof. intros [Hfigs _]. unfold plt_close, update. now rewrite Hfigs. Qed.

Lemma getitem_ok {A : Type} (l : list A) (i : nat) (x : A) :
  l !! i = Some x -> getitem l i = Ok x.
Proof. intros H. unfold getitem. now rewrite H. Qed.

Lemma lift_ok {A : Type} (r : result A) (a : A) (w : world) :
  r = Ok a -> lift r w = (w, Ok a).
Proof. now intros ->. Qed.

(** Two worlds are equal when their components are; comparing the components
    one by one keeps the comparison of two long runs linear. *)
Lemma world_eq (w1 w2 : world) :
  heap w1 = heap w2 -> figs w1 = figs w2 -> dirs w1 = dirs w2 ->
  files w1 = files w2 -> stdout w1 = stdout w2 -> trace w1 = trace w2 ->
  w1 = w2.
Proof. destruct w1, w2. simpl. now intros -> -> -> -> -> ->. Qed.

(** One call of a sequence, on a world whose current figure is known. *)
Ltac focus_solve :=
  first [ split; [reflexivity | assumption]
        | reflexivity
        | assumption
        | apply getitem_ok; eassumption
        | right; assumption ].

Ltac py_step lem :=
  erewrite py_bind_ok; [| solve [ eapply lem; focus_solve ] ].

(* ------------------------------------------------------------------ *)
(** ** [plotPerformance] *)

Lemma plotPerformance_run (loss acc : list (list float64)) (w : world)
  (l0 l1 a0 : list float64) :
  loss !! 0 = Some l0 -> loss !! 1 = Some l1 -> acc !! 0 = Some a0 ->
  "plots" ∈ dirs w ->
  exists (num : nat),
    let ax1 := {| ax_id := 0; ax_position := (2, 2, 1);
                  ax_cmds := [Plot l0 "loss"; Plot l1 "val_loss";
                              Legend "upper right" 1 false;
                              SetXlabel "epoch"; SetYlabel "loss"] |} in
    let ax2 := {| ax_id := 1; ax_position := (2, 2, 2);
                  ax_cmds := [Plot a0 "acc"; Plot a0 "val_acc";
                              Legend "upper left" 1 false;
                              SetXlabel "epoch"; SetYlabel "acc"] |} in
    let f_loss := {| fig_size := Some (15, 10); fig_axes := [ax1]; fig_cmds := [] |} in
    let f_acc := {| fig_size := Some (15, 10); fig_axes := [ax2; ax1]; fig_cmds := [] |} in
    plotPerformance loss acc w =
    ({| heap := heap w;
        figs := (num, f_acc) :: figs w;
        dirs := dirs w;
        files := <["plots/acc.png" := f_acc]>
                   (<["plots/acc.pdf" := f_acc]>
                      (<["plots/loss.png" := f_loss]>
                         (<["plots/loss.pdf" := f_loss]> (files w))));
        stdout := stdout w;
        trace := trace w ++ [EFigure num;
                             ESavefig "plots/loss.pdf" f_loss;
                             ESavefig "plots/loss.png" f_loss;
                             ESavefig "plots/acc.pdf" f_acc;
                             ESavefig "plots/acc.png" f_acc] |},
     Ok tt).
Proof.
  intros Hl0 Hl1 Ha0 Hdir.
  destruct (plt_figure_focused (Some (15, 10)) w) as (num & Hfig & Hfresh).
  exists num. cbv zeta. unfold plotPerformance.
  rewrite (py_bind_ok _ _ _ _ _ Hfig).
  py_step plt_subplot_new.
  py_step @lift_ok. py_step ax_call_focused.
  py_step @lift_ok. py_step ax_call_focused.
  py_step ax_call_focused. py_step ax_call_focused. py_step ax_call_focused.
  py_step plt_savefig_focused. py_step plt_savefig_focused.
  py_step plt_subplot_new.
  py_step @lift_ok. py_step ax_call_focused.
  py_step @lift_ok. py_step ax_call_focused.
  py_step ax_call_focused. py_step ax_call_focused. py_step ax_call_focused.
  py_step plt_savefig_focused.
  erewrite plt_savefig_focused; [| focus_solve | right; exact Hdir].
  f_equal. apply world_eq; try reflexivity.
  lazy [trace add_trace set_figs set_files]. rewrite <- !app_assoc. reflexivity.
Qed.

(** [plotPerformance] reads [acc] only through [acc[0]]. *)
Lemma plotPerformance_acc0 (loss acc acc' : list (list float64)) :
  acc' !! 0 = acc !! 0 -> plotPerformance loss acc' = plotPerformance loss acc.
Proof. intros H. unfold plotPerformance, getitem. now rewrite H. Qed.

(** C7.  Given a training and a validation loss series, a training accuracy
    series and an existing directory [plots], [plotPerformance] returns
    normally, having written the figure with the loss subplot (the series
    [loss[0]] labelled 'loss' and [loss[1]] labelled 'val_loss', and no
    accuracy subplot yet) to [plots/loss.pdf] and [plots/loss.png], then the
    figure with the accuracy subplot added to [plots/acc.pdf] and
    [plots/acc.png]; the accuracy subplot holds the series [acc[0]] twice,
    labelled 'acc' and 'val_acc'.  [acc[1]] is never read: whatever else
    [acc] holds, an [acc] with the same first series gives the same run. *)
Theorem plotPerformance_spec (loss acc : list (list float64)) (w : world)
  (l0 l1 a0 : list float64) :
  loss !! 0 = Some l0 -> loss !! 1 = Some l1 -> acc !! 0 = Some a0 ->
  "plots" ∈ dirs w ->
  (exists (w' : world) (f_loss f_acc : figure),
     plotPerformance loss acc w = (w', Ok tt) /\
     files w' !! "plots/loss.pdf" = Some f_loss /\
     files w' !! "plots/loss.png" = Some f_loss /\
     files w' !! "plots/acc.pdf" = Some f_acc /\
     files w' !! "plots/acc.png" = Some f_acc /\
     saves w' = saves w ++ [("plots/loss.pdf", f_loss); ("plots/loss.png", f_loss);
                            ("plots/acc.pdf", f_acc); ("plots/acc.png", f_acc)] /\
     lines_of <$> axes_at (2, 2, 1) f_loss = Some [(l0, "loss"); (l1, "val_loss")] /\
     axes_at (2, 2, 2) f_loss = None /\
     lines_of <$> axes_at (2, 2, 2) f_acc = Some [(a0, "acc"); (a0, "val_acc")] /\
     lines_of <$> axes_at (2, 2, 1) f_acc = Some [(l0, "loss"); (l1, "val_loss")]) /\
  (forall acc' : list (list float64), acc' !! 0 = Some a0 ->
     plotPerformance loss acc' w = plotPerformance loss acc w).
Proof.
  intros Hl0 Hl1 Ha0 Hdir. split.
  - destruct (plotPerformance_run loss acc w l0 l1 a0 Hl0 Hl1 Ha0 Hdir) as [num Hrun].
    cbv zeta in Hrun. eexists _, _, _. split; [exact Hrun|]. simpl files.
    split; [now rewrite !lookup_insert_ne, lookup_insert_eq by discriminate|].
    split; [now rewrite !lookup_insert_ne, lookup_insert_eq by discriminate|].
    split; [now rewrite !lookup_insert_ne, lookup_insert_eq by discriminate|].
    split; [now rewrite lookup_insert_eq|].
    split; [unfold saves; simpl trace; now rewrite omap_app|].
    repeat split; reflexivity.
  - intros acc' Ha0'. rewrite (plotPerformance_acc0 loss acc acc'); congruence.
Qed.

(* ------------------------------------------------------------------ *)
(** ** [plotProbabilities] *)

Lemma plt_call_focused_empty (c : ax_cmd) (w : world) num f rest :
  focused w num f rest -> fig_axes f = [] ->
  plt_call c w =
  (set_figs ((num, {| fig_size := fig_size f;
                      fig_axes := [{| ax_id := 0; ax_position := (1, 1, 1);
                                      ax_cmds := [c] |}];
                      fig_cmds := fig_cmds f |}) :: rest) w,
   Ok tt).
Proof.
  intros Hfoc Haxes. pose proof Hfoc as [Hfigs Hfresh].
  assert (Hgca : plt_gca w =
    (set_figs ((num, {| fig_size := fig_size f;
                        fig_axes := [{| ax_id := 0; ax_position := (1, 1, 1);
                                        ax_cmds := [] |}];
                        fig_cmds := fig_cmds f |}) :: rest) w, Ok (num, 0))).
  { unfold plt_gca, plt_gcf. rewrite py_bind_unfold, Hfigs. simpl. rewrite Haxes.
    rewrite (plt_subplot_new 1 1 1 w num f rest Hfoc)
      by (unfold axes_at; now rewrite Haxes).
    now rewrite Haxes. }
  unfold plt_call. rewrite (py_bind_ok _ _ _ _ _ Hgca).
  erewrite ax_call_focused by (split; [reflexivity | assumption]).
  reflexivity.
Qed.

Lemma plt_call_focused_axes (c : ax_cmd) (w : world) num f rest a axs :
  focused w num f rest -> fig_axes f = a :: axs ->
  plt_call c w = (set_figs ((num, figure_axes_add (ax_id a) c f) :: rest) w, Ok tt).
Proof.
  intros Hfoc Haxes. pose proof Hfoc as [Hfigs Hfresh].
  unfold plt_call.
  rewrite (py_bind_ok _ _ _ _ _ (plt_gca_current w num f a axs rest Hfigs Haxes)).
  now apply ax_call_focused.
Qed.

(** One iteration of the inner loop: a new figure is opened, one histogram
    is drawn on it, it is written to the file of class [iProb] and closed. *)
Lemma plotProbabilities_body_run (probs : list prob_entry) (iProb jProb : nat)
  (p_i p_j : prob_entry) (data : list float64) (w : world) :
  probs !! iProb = Some p_i -> probs !! jProb = Some p_j ->
  column (prob p_j) iProb = Ok data ->
  dirname (prob_path p_i) = "" \/ dirname (prob_path p_i) ∈ dirs w ->
  plotProbabilities_body probs iProb jProb w =
  ({| heap := heap w; figs := figs w; dirs := dirs w;
      files := <[prob_path p_i := hist_figure p_i p_j data]> (files w);
      stdout := stdout w;
      trace := trace w ++ [EFigure (S (foldr Nat.max 0 (map fst (figs w))));
                           ESavefig (prob_path p_i) (hist_figure p_i p_j data);
                           EClose (S (foldr Nat.max 0 (map fst (figs w))))] |},
   Ok tt).
Proof.
  intros Hi Hj Hdata Hdir.
  pose proof (figure_number_fresh (figs w)) as Hfresh.
  set (num := S (foldr Nat.max 0 (map fst (figs w)))) in *.
  assert (Hfig : plt_figure None w =
    (add_trace (EFigure num) (set_figs ((num, empty_figure None) :: figs w) w), Ok num))
    by reflexivity.
  unfold plotProbabilities_body.
  rewrite (py_bind_ok _ _ _ _ _ Hfig).
  py_step @lift_ok.
  py_step plt_call_focused_empty.
  py_step @lift_ok.
  erewrite py_bind_ok; [| apply lift_ok; exact Hdata].
  py_step plt_call_focused_axes.
  py_step plt_call_focused_axes.
  py_step @lift_ok.
  erewrite py_bind_ok;
    [| eapply plt_savefig_focused; [split; [reflexivity | assumption] | exact Hdir] ].
  erewrite plt_close_focused by (split; [reflexivity | assumption]).
  f_equal. apply world_eq; try reflexivity.
  lazy [trace add_trace set_figs set_files]. rewrite <- !app_assoc. reflexivity.
Qed.

(** C6 (what the code does).  On a two-class bundle [plotProbabilities]
    opens four figures, not two; each holds one histogram series, not two;
    each class's file is written twice, the second figure replacing the
    first, so that [prob_A.pdf] and [prob_B.pdf] end up holding only the
    series of the last class, B. *)
Theorem plotProbabilities_two_classes :
  let run := plotProbabilities two_class_probs (fresh_world ∅ ∅) in
  run.2 = Ok tt /\
  length (figures_created run.1) = 4 /\
  map (fun pf : string * figure => (pf.1, length (figure_hists pf.2))) (saves run.1)
    = [("prob_A.pdf", 1); ("prob_A.pdf", 1); ("prob_B.pdf", 1); ("prob_B.pdf", 1)] /\
  figure_hists <$> files run.1 !! "prob_A.pdf"
    = Some [Hist [f64_of_Z 0] 20 0 1 "B" "b" "step" true true] /\
  figure_hists <$> files run.1 !! "prob_B.pdf"
    = Some [Hist [f64_of_Z 1] 20 0 1 "B" "b" "step" true true].
Proof.
  cbv zeta. split; [vm_compute; reflexivity|].
  split; [vm_compute; reflexivity|]. split; [vm_compute; reflexivity|].
  split; vm_compute; reflexivity.
Qed.

Lemma column_ok (n : nat) (a : prob_array) (i : nat) :
  well_shaped n a -> i < n -> exists data, column a i = Ok data.
Proof.
  intros [Hn Hrows] Hi. unfold column.
  destruct (Nat.ltb_spec i (n_columns a)) as [Hlt|Hge]; [|lia].
  induction Hrows as [|row rows Hrow _ IH]; simpl; [eauto|].
  destruct IH as [data ->].
  destruct (lookup_lt_is_Some_2 row i ltac:(lia)) as [x Hx].
  rewrite (getitem_ok _ _ _ Hx). simpl. eauto.
Qed.

(** The effect of a sequence of plotting calls that ends with the figures
    it found: only files are written and calls recorded. *)
Definition plots (w w' : world) (evs : list event) : Prop :=
  heap w' = heap w /\ figs w' = figs w /\ dirs w' = dirs w /\
  stdout w' = stdout w /\ trace w' = trace w ++ evs.

Section PlotProbabilities.
Variable probs : list prob_entry.
Hypothesis Hshape : Forall (fun p => well_shaped (length probs) (prob p)) probs.

Lemma body_events_ok (num i j : nat) :
  i < length probs -> j < length probs ->
  exists p_i p_j data,
    probs !! i = Some p_i /\ probs !! j = Some p_j /\
    column (prob p_j) i = Ok data /\
    body_events probs num i j =
      [EFigure num; ESavefig (prob_path p_i) (hist_figure p_i p_j data); EClose num].
Proof.
  intros Hi Hj.
  destruct (lookup_lt_is_Some_2 probs i Hi) as [p_i Hp_i].
  destruct (lookup_lt_is_Some_2 probs j Hj) as [p_j Hp_j].
  assert (Hw : well_shaped (length probs) (prob p_j)).
  { rewrite Forall_forall in Hshape. apply Hshape.
    eapply list_elem_of_lookup_2; eauto. }
  destruct (column_ok _ _ i Hw Hi) as [data Hdata].
  exists p_i, p_j, data. unfold body_events. now rewrite Hp_i, Hp_j, Hdata.
Qed.

Lemma plotProbabilities_inner (i : nat) (js : list nat) : forall (w : world),
  i < length probs -> Forall (fun j => j < length probs) js ->
  (forall p, p ∈ probs -> dirname (prob_path p) = "" \/ dirname (prob_path p) ∈ dirs w) ->
  exists w',
    for_each js (plotProbabilities_body probs i) w = (w', Ok tt) /\
    plots w w' (flat_map (body_events probs (S (foldr Nat.max 0 (map fst (figs w)))) i) js).
Proof.
  induction js as [|j js IH]; intros w Hi Hjs Hdirs.
  - exists w. split; [reflexivity|]. unfold plots. simpl. now rewrite app_nil_r.
  - inversion Hjs as [|? ? Hj Hjs']; subst.
    destruct (body_events_ok (S (foldr Nat.max 0 (map fst (figs w)))) i j Hi Hj)
      as (p_i & p_j & data & Hp_i & Hp_j & Hdata & Hev).
    pose proof (plotProbabilities_body_run probs i j p_i p_j data w Hp_i Hp_j Hdata
                  (Hdirs p_i ltac:(eapply list_elem_of_lookup_2; eauto))) as Hbody.
    simpl for_each. rewrite (py_bind_ok _ _ _ _ _ Hbody).
    match type of Hbody with _ = (?x, _) => set (w1 := x) in * end.
    destruct (IH w1 Hi Hjs' Hdirs) as (w' & Hrun & Hh & Hf & Hd & Hs & Ht).
    exists w'. split; [exact Hrun|]. unfold plots. simpl in *.
    repeat split; try assumption.
    rewrite Ht, Hev. now rewrite <- app_assoc.
Qed.

Lemma plotProbabilities_outer (idxs : list nat) : forall (w : world),
  Forall (fun i => i < length probs) idxs ->
  (forall p, p ∈ probs -> dirname (prob_path p) = "" \/ dirname (prob_path p) ∈ dirs w) ->
  exists w',
    for_each idxs (fun iProb =>
      for_each (seq 0 (length probs)) (plotProbabilities_body probs iProb)) w
    = (w', Ok tt) /\
    plots w w'
      (flat_map (fun i =>
         flat_map (body_events probs (S (foldr Nat.max 0 (map fst (figs w)))) i)
                  (seq 0 (length probs))) idxs).
Proof.
  induction idxs as [|i idxs IH]; intros w His Hdirs.
  - exists w. split; [reflexivity|]. unfold plots. simpl. now rewrite app_nil_r.
  - inversion His as [|? ? Hi His']; subst.
    destruct (plotProbabilities_inner i (seq 0 (length probs)) w Hi) as
      (w1 & Hrun1 & Hh1 & Hf1 & Hd1 & Hs1 & Ht1); [|exact Hdirs|].
    { apply Forall_forall. intros j Hj. apply elem_of_seq in Hj. lia. }
    simpl for_each. rewrite (py_bind_ok _ _ _ _ _ Hrun1).
    destruct (IH w1 His') as (w' & Hrun & Hh & Hf & Hd & Hs & Ht).
    { intros p Hp. rewrite Hd1. now apply Hdirs. }
    exists w'. split; [exact Hrun|]. unfold plots.
    repeat split; try congruence.
    rewrite Ht, Ht1, Hf1. simpl. now rewrite <- app_assoc.
Qed.

(** The calls [plotProbabilities] makes on a well-shaped bundle of [N]
    classes: for each class index [i] and each class index [j], in this
    order, a figure is opened, given one histogram, saved to the file of
    class [i] and closed. *)
Lemma plotProbabilities_run (w : world) :
  (forall p, p ∈ probs -> dirname (prob_path p) = "" \/ dirname (prob_path p) ∈ dirs w) ->
  exists w',
    plotProbabilities probs w = (w', Ok tt) /\
    plots w w'
      (flat_map (fun i =>
         flat_map (body_events probs (S (foldr Nat.max 0 (map fst (figs w)))) i)
                  (seq 0 (length probs))) (seq 0 (length probs))).
Proof.
  intros Hdirs. apply plotProbabilities_outer; [|exact Hdirs].
  apply Forall_forall. intros i Hi. apply elem_of_seq in Hi. lia.
Qed.

(** X11.  Hence [N * N] figures are opened and [N * N] files written, each
    written figure holding exactly one histogram. *)
Lemma plotProbabilities_counts (w : world) :
  (forall p, p ∈ probs -> dirname (prob_path p) = "" \/ dirname (prob_path p) ∈ dirs w) ->
  exists w' new,
    plotProbabilities probs w = (w', Ok tt) /\
    length (figures_created w') = length (figures_created w) + length probs * length probs /\
    saves w' = saves w ++ new /\
    length new = length probs * length probs /\
    Forall (fun pf : string * figure => length (figure_hists pf.2) = 1) new.
Proof.
  intros Hdirs. destruct (plotProbabilities_run w Hdirs) as (w' & Hrun & _ & _ & _ & _ & Ht).
  set (num := S (foldr Nat.max 0 (map fst (figs w)))) in *.
  set (evs := flat_map _ _) in Ht.
  exists w', (omap (fun e => match e with ESavefig p f => Some (p, f) | _ => None end) evs).
  split; [exact Hrun|].
  assert (Hinner : forall i (js : list nat), i < length probs ->
    Forall (fun j => j < length probs) js ->
    let evs := flat_map (body_events probs num i) js in
    length (omap (fun e => match e with EFigure n => Some n | _ => None end) evs)
      = length js /\
    length (omap (fun e => match e with ESavefig p f => Some (p, f) | _ => None end) evs)
      = length js /\
    Forall (fun pf : string * figure => length (figure_hists pf.2) = 1)
      (omap (fun e => match e with ESavefig p f => Some (p, f) | _ => None end) evs)).
  { intros i js Hi. induction 1 as [|j js Hj _ IH]; simpl.
    - repeat split; constructor.
    - destruct (body_events_ok num i j Hi Hj) as (p_i & p_j & data & _ & _ & _ & ->).
      destruct IH as (IH1 & IH2 & IH3). simpl.
      split; [f_equal; exact IH1|]. split; [f_equal; exact IH2|].
      constructor; [reflexivity | exact IH3]. }
  assert (Houter : forall (idxs : list nat), Forall (fun i => i < length probs) idxs ->
    let evs := flat_map (fun i => flat_map (body_events probs num i)
                                           (seq 0 (length probs))) idxs in
    length (omap (fun e => match e with EFigure n => Some n | _ => None end) evs)
      = length idxs * length probs /\
    length (omap (fun e => match e with ESavefig p f => Some (p, f) | _ => None end) evs)
      = length idxs * length probs /\
    Forall (fun pf : string * figure => length (figure_hists pf.2) = 1)
      (omap (fun e => match e with ESavefig p f => Some (p, f) | _ => None end) evs)).
  { induction 1 as [|i idxs Hi _ IH]; simpl.
    - repeat split; constructor.
    - destruct (Hinner i (seq 0 (length probs)) Hi) as (H1 & H2 & H3).
      { apply Forall_forall. intros j Hj. apply elem_of_seq in Hj. lia. }
      destruct IH as (IH1 & IH2 & IH3).
      rewrite !omap_app, !length_app, H1, H2, IH1, IH2, length_seq.
      split; [lia|]. split; [lia|]. apply Forall_app. now split. }
  destruct (Houter (seq 0 (length probs))) as (H1 & H2 & H3).
  { apply Forall_forall. intros i Hi. apply elem_of_seq in Hi. lia. }
  rewrite length_seq in H1, H2. fold evs in H1, H2, H3.
  unfold figures_created, saves. rewrite Ht, !omap_app, length_app, H1.
  repeat split; try assumption; lia.
Qed.

End PlotProbabilities.

(* ------------------------------------------------------------------ *)
(** ** [make_keras_picklable] *)

Section KerasFacts.
Variables (model_dict weights : Type).
Variable get_weights : model_dict -> weights.
Variable save_bytes : model_dict -> list Byte.byte.
Variable load_bytes : list Byte.byte -> result model_dict.

Local Abbreviation kstate := (kstate model_dict).

(** A temporary file leaves no trace on the disk once it is closed. *)
Lemma tmp_close_fresh (d : disk) (fd : tmpfile) (bytes : list Byte.byte) :
  d !! tmp_name fd = None ->
  tmp_close fd (<[tmp_name fd := bytes]> d) = d.
Proof.
  intros Hfresh. unfold tmp_close, fd_flush. simpl.
  rewrite insert_insert_eq. now apply delete_insert_id.
Qed.

(** [__getstate__] returns the bytes [save_model] wrote, and leaves the
    disk and the objects as they were. *)
Lemma getstate_spec (self : loc) (m : model_dict) (s : kstate) :
  objects _ s !! self = Some m ->
  __getstate__ _ save_bytes self s
  = (set_disk _ (files_of _ s) s, Ok {[ "model_str" := save_bytes m ]}).
Proof.
  intros Hself. unfold __getstate__. rewrite Hself.
  unfold NamedTemporaryFile, save_model, fd_read, fd_flush. cbn -[insert fresh].
  set (name := fresh (dom (files_of model_dict s))).
  assert (Hfresh : files_of _ s !! name = None) by (apply not_elem_of_dom, is_fresh).
  rewrite !insert_insert_eq, !lookup_insert_eq. cbn -[insert fresh].
  rewrite drop_0. do 2 f_equal.
  unfold tmp_close, fd_flush. cbn -[insert fresh].
  rewrite ?insert_insert_eq. now apply delete_insert_id.
Qed.

(** [__setstate__] loads the model from the bytes of the state. *)
Lemma setstate_spec (target : loc) (bytes : list Byte.byte) (m' : model_dict)
  (s : kstate) :
  load_bytes bytes = Ok m' ->
  __setstate__ _ load_bytes target {[ "model_str" := bytes ]} s
  = ({| files_of := files_of _ s;
        objects := <[target := m']> (objects _ s);
        Model := Model _ s |}, Ok tt).
Proof.
  intros Hload. unfold __setstate__, NamedTemporaryFile.
  rewrite lookup_singleton_eq.
  unfold fd_write, fd_flush, load_model. cbn -[insert fresh].
  set (name := fresh (dom (files_of model_dict s))).
  assert (Hfresh : files_of _ s !! name = None) by (apply not_elem_of_dom, is_fresh).
  rewrite !lookup_insert_eq. cbn -[insert fresh].
  rewrite drop_nil, app_nil_r, Hload. f_equal. f_equal.
  unfold tmp_close, fd_flush. cbn -[insert fresh].
  rewrite ?insert_insert_eq. now apply delete_insert_id.
Qed.

(** C9.  After [make_keras_picklable] the hooks round-trip: if loading what
    [save_model] wrote always yields a model with the saved model's weights,
    then for every model, capturing it through [__getstate__] and restoring
    the captured state into an object through [__setstate__] both succeed,
    and the restored object's weights are those of the original; the
    temporary files are gone and the original object is untouched. *)
Theorem make_keras_picklable_round_trip (s : kstate) (self target : loc)
  (m : model_dict) :
  (forall m0, exists m1, load_bytes (save_bytes m0) = Ok m1 /\
                         get_weights m1 = get_weights m0) ->
  objects _ s !! self = Some m ->
  exists (state : gmap string (list Byte.byte)) (s1 s2 : kstate) (m' : model_dict),
    capture _ save_bytes self (make_keras_picklable _ s) = (s1, Ok state) /\
    restore _ load_bytes target state s1 = (s2, Ok tt) /\
    objects _ s2 !! target = Some m' /\
    get_weights m' = get_weights m /\
    files_of _ s2 = files_of _ s /\
    (self <> target -> objects _ s2 !! self = Some m).
Proof.
  intros Hinverse Hself.
  destruct (Hinverse m) as (m' & Hload & Hweights).
  set (s0 := make_keras_picklable _ s).
  assert (Hself0 : objects _ s0 !! self = Some m) by exact Hself.
  exists {[ "model_str" := save_bytes m ]}, (set_disk _ (files_of _ s0) s0),
         {| files_of := files_of _ s0;
            objects := <[target := m']> (objects _ s0);
            Model := Model _ s0 |}, m'.
  split; [exact (getstate_spec self m s0 Hself0)|].
  split; [exact (setstate_spec target _ m' _ Hload)|].
  split; [simpl; apply lookup_insert_eq|]. split; [exact Hweights|].
  split; [reflexivity|].
  intros Hne. simpl. rewrite lookup_insert_ne by congruence. exact Hself.
Qed.

End KerasFacts.

(* ------------------------------------------------------------------ *)
(** ** Worked examples *)

(** The specification's matrix, normalised and not. *)
Lemma plot_confusion_matrix_normalize_spec_witness :
  heap example_cm_world !! 1%positive = Some (Int2 example_cm) /\
  printed_matrix
    (plot_confusion_matrix 1%positive ["a"; "b"] false "Confusion matrix" "Blues"
       example_cm_world).1 = Some (Int2 example_cm) /\
  plotted_matrix
    (plot_confusion_matrix 1%positive ["a"; "b"] true "Confusion matrix" "Blues"
       example_cm_world).1 = Some (Float2 (normalized_rows example_cm)) /\
  map f64_sum (normalized_rows example_cm) = [f64_one; f64_one] /\
  (exists drow, normalized_rows example_cm !! 0 = Some drow /\
     (Qabs (Qsum (map f64_to_Q drow) - 1) <= u53)%Q) /\
  heap float_cm_world !! 1%positive = Some (Float2 float_cm) /\
  plotted_matrix
    (plot_confusion_matrix 1%positive ["a"; "b"] true "Confusion matrix" "Blues"
       float_cm_world).1 = Some (Float2 (normalized_float_rows float_cm)).
Proof.
  destruct (plot_confusion_matrix_normalize_spec 1%positive ["a"; "b"]
              "Confusion matrix" "Blues" example_cm_world)
    as (Hint & _ & _ & Hsum).
  destruct (Hint example_cm eq_refl) as ((Hprinted & _) & (_ & Hplotted) & _ & Hrows).
  destruct (Hrows 0 [8; 2]%Z eq_refl) as (drow & Hdrow & _ & _ & _ & Hbound).
  destruct Hbound as [_ Hbound].
  { repeat constructor; lia. }
  { unfold exact_sum. simpl. lia. }
  destruct (plot_confusion_matrix_normalize_spec 1%positive ["a"; "b"]
              "Confusion matrix" "Blues" float_cm_world)
    as (_ & Hfloat & _).
  destruct (Hfloat float_cm eq_refl) as (_ & (_ & Hplotted') & _).
  split; [reflexivity|]. split; [exact Hprinted|]. split; [exact Hplotted|].
  split; [exact Hsum|]. split; [exists drow; split; [exact Hdrow | exact Hbound]|].
  split; [reflexivity | exact Hplotted'].
Defined.


(** A two-epoch history, with the directory [plots] in place. *)
Lemma plotPerformance_spec_witness :
  "plots" ∈ dirs (fresh_world ∅ {[ "plots" ]}) /\
  exists (w' : world) (f_acc : figure),
    plotPerformance example_loss example_acc (fresh_world ∅ {[ "plots" ]}) = (w', Ok tt) /\
    files w' !! "plots/acc.png" = Some f_acc /\
    lines_of <$> axes_at (2, 2, 2) f_acc
      = Some [([f64_of_Z 0; f64_of_Z 1], "acc"); ([f64_of_Z 0; f64_of_Z 1], "val_acc")].
Proof.
  assert (Hdir : "plots" ∈ dirs (fresh_world ∅ {[ "plots" ]})).
  { simpl. apply elem_of_singleton. reflexivity. }
  split; [exact Hdir|].
  destruct (plotPerformance_spec example_loss example_acc (fresh_world ∅ {[ "plots" ]})
              _ _ _ eq_refl eq_refl eq_refl Hdir)
    as [(w' & f_loss & f_acc & Hrun & _ & _ & _ & Hpng & _ & _ & _ & Hacc & _) _].
  exists w', f_acc. split; [exact Hrun|]. split; [exact Hpng | exact Hacc].
Defined.

(** The toy model of object 1 restored into object 2: the weights arrive,
    the name does not, and the disk is as it was. *)
Lemma make_keras_picklable_round_trip_witness :
  (forall m0, exists m1, toy_load (toy_save m0) = Ok m1 /\
                         toy_weights m1 = toy_weights m0) /\
  exists (state : gmap string (list Byte.byte)) (s1 s2 : kstate toy_model)
         (m' : toy_model),
    capture _ toy_save 1%positive (make_keras_picklable _ toy_state) = (s1, Ok state) /\
    restore _ toy_load 2%positive state s1 = (s2, Ok tt) /\
    objects _ s2 !! 2%positive = Some m' /\
    toy_weights m' = [Byte.x01; Byte.x02] /\
    files_of _ s2 = files_of _ toy_state.
Proof.
  assert (Hinverse : forall m0, exists m1, toy_load (toy_save m0) = Ok m1 /\
                                           toy_weights m1 = toy_weights m0).
  { intros m0. eexists. split; reflexivity. }
  split; [exact Hinverse|].
  destruct (make_keras_picklable_round_trip toy_model (list Byte.byte) toy_weights
              toy_save toy_load toy_state 1%positive 2%positive _ Hinverse eq_refl)
    as (state & s1 & s2 & m' & Hcapture & Hrestore & Htarget & Hweights & Hfiles & _).
  exists state, s1, s2, m'.
  split; [exact Hcapture|]. split; [exact Hrestore|]. split; [exact Htarget|].
  split; [exact Hweights | exact Hfiles].
Defined.

(* ================================================================== *)
(** * Further properties, function by function *)
(* ================================================================== *)

(* ------------------------------------------------------------------ *)
(** ** [getBranchNames]: composition *)

(** X1.  The filter works branch by branch, so the names of a tree whose branch
    list is two lists joined are the names of the two parts joined; and the
    names returned pass the filter again unchanged. *)
Theorem getBranchNames_compose :
  (forall b1 b2 : list TBranch,
     getBranchNames {| GetListOfBranches := b1 ++ b2 |} =
     getBranchNames {| GetListOfBranches := b1 |} ++
     getBranchNames {| GetListOfBranches := b2 |}) /\
  (forall tree : TTree,
     getBranchNames (tree_of_names (getBranchNames tree)) = getBranchNames tree).
Proof.
  split.
  - intros b1 b2. unfold getBranchNames. simpl.
    rewrite !getBranchNames_loop_filter. simpl.
    now rewrite map_app, List.filter_app.
  - intros tree. unfold getBranchNames, tree_of_names. simpl.
    rewrite !getBranchNames_loop_filter. simpl.
    rewrite map_map. simpl. rewrite map_id.
    induction (map GetName (GetListOfBranches tree)) as [|n names IH]; simpl.
    + reflexivity.
    + destruct (allowedb n) eqn:E; simpl; [|exact IH].
      rewrite E. now f_equal.
Qed.

(* ------------------------------------------------------------------ *)
(** ** [appendTreeArray]: the rows are objects of their own *)

Section AppendTreeArrayRows.
Context {V : Type}.
Implicit Types (h : liststore V) (entries : list (list V)).

(** The row lists the loop creates are pairwise distinct, none of them is
    an object that existed when the loop started, and all of them are in the
    store when it ends. *)
Lemma appendTreeArray_loop_rows (tmpArray : loc) entries : forall h (done : list loc),
  h !! tmpArray = Some (map VRef done) ->
  exists rows : list loc,
    let h' := foldl (appendTreeArray_body tmpArray) h entries in
    h' !! tmpArray = Some (map VRef (done ++ rows)) /\
    NoDup rows /\
    (forall l, l ∈ rows -> (l ∉ dom h) /\ l ∈ dom h') /\
    dom h ⊆ dom h'.
Proof.
  induction entries as [|e entries IH]; intros h done Htmp.
  - exists []. simpl. rewrite app_nil_r.
    split; [assumption|]. split; [constructor|]. split; [|reflexivity].
    intros l Hl. inversion Hl.
  - simpl. unfold appendTreeArray_body at 2 4 5, list_of_entry.
    unfold new_list. set (a := fresh (dom h)).
    set (h1 := <[a := map VScalar e]> h).
    assert (Ha : a ∉ dom h) by apply is_fresh.
    assert (Htmpdom : tmpArray ∈ dom h) by (apply elem_of_dom; eauto).
    assert (Hne : tmpArray ≠ a) by (intros ->; contradiction).
    set (h2 := list_append tmpArray (VRef a) h1).
    assert (Htmp2 : h2 !! tmpArray = Some (map VRef (done ++ [a]))).
    { unfold h2. rewrite map_app. apply list_append_lookup.
      unfold h1. now rewrite lookup_insert_ne. }
    assert (Hdom2 : dom h ⊆ dom h2).
    { intros l Hl. apply elem_of_dom. destruct (decide (l = tmpArray)) as [->|Hn].
      - rewrite Htmp2; eauto.
      - unfold h2. rewrite list_append_frame by congruence.
        unfold h1. rewrite lookup_insert_ne by (intros <-; contradiction).
        now apply elem_of_dom. }
    assert (Ha2 : a ∈ dom h2).
    { apply elem_of_dom. unfold h2. rewrite list_append_frame by assumption.
      unfold h1. rewrite lookup_insert_eq. eauto. }
    destruct (IH h2 (done ++ [a]) Htmp2) as (rows & Hrows & Hnd & Hnew & Hmono).
    cbv zeta in *.
    exists (a :: rows). split; [|split; [|split]].
    + rewrite Hrows. now rewrite <- app_assoc.
    + constructor; [|exact Hnd]. intros Hin. now destruct (Hnew a Hin).
    + intros l Hl. apply elem_of_cons in Hl. destruct Hl as [->|Hl].
      * split; [exact Ha | now apply Hmono].
      * destruct (Hnew l Hl) as [Hl2 Hl']. split; [|exact Hl'].
        intros Hin. apply Hl2. now apply Hdom2.
    + etrans; [exact Hdom2 | exact Hmono].
Qed.

(** X2.  The rows [appendTreeArray] returns are list objects of their own:
    pairwise distinct, different from the returned list, and none of them an
    object that existed before the call.  So a later in-place change of one
    returned row (an [append], say) shows in no other row and not in the
    returned list. *)
Theorem appendTreeArray_rows_distinct (array : loc) (h : pyheap V)
  (arr : struct_array V) :
  ndarrays h !! array = Some arr ->
  exists (newArray : loc) (h' : pyheap V) (rows : list loc),
    appendTreeArray array h = Some (newArray, h') /\
    lists h' !! newArray = Some (map VRef rows) /\
    NoDup rows /\
    (newArray ∉ rows) /\
    (forall a, a ∈ rows -> a ∉ dom (lists h)) /\
    (forall i j a b x, i <> j -> rows !! i = Some a -> rows !! j = Some b ->
       list_append a x (lists h') !! b = lists h' !! b /\
       list_append a x (lists h') !! newArray = lists h' !! newArray).
Proof.
  intros Harr. unfold appendTreeArray. rewrite Harr. simpl.
  unfold new_list. set (tmpArray := fresh (dom (lists h))).
  set (h1 := <[tmpArray := []]> (lists h)).
  assert (Hh1t : h1 !! tmpArray = Some (map VRef [])) by apply lookup_insert_eq.
  assert (Hdom1 : dom (lists h) ⊆ dom h1).
  { unfold h1. rewrite dom_insert. set_solver. }
  destruct (appendTreeArray_loop_rows tmpArray (records arr) h1 [] Hh1t)
    as (rows & Hrows & Hnd & Hnew & Hmono).
  cbv zeta in *. simpl in Hrows.
  set (h2 := foldl (appendTreeArray_body tmpArray) h1 (records arr)) in *.
  rewrite Hrows. simpl.
  set (newArray := fresh (dom h2)).
  assert (Hnew3 : newArray ∉ dom h2) by apply is_fresh.
  assert (Hnr : newArray ∉ rows).
  { intros Hin. apply Hnew3. now apply Hnew. }
  exists newArray, {| ndarrays := ndarrays h; lists := <[newArray := map VRef rows]> h2 |},
    rows.
  split; [reflexivity|]. simpl.
  split; [apply lookup_insert_eq|]. split; [exact Hnd|]. split; [exact Hnr|].
  split.
  - intros a Ha Hin. destruct (Hnew a Ha) as [Ha1 _]. apply Ha1. now apply Hdom1.
  - intros i j a b x Hij Ha Hb. split.
    + apply list_append_frame. intros ->. apply Hij.
      eapply NoDup_lookup; eauto.
    + apply list_append_frame. intros ->. apply Hnr.
      eapply list_elem_of_lookup_2; eauto.
Qed.

End AppendTreeArrayRows.

Lemma appendTreeArray_rows_distinct_witness :
  exists (newArray : loc) (h' : pyheap Z) (rows : list loc),
    appendTreeArray 1%positive example_heap = Some (newArray, h') /\
    lists h' !! newArray = Some (map VRef rows) /\
    NoDup rows /\ (newArray ∉ rows).
Proof.
  destruct (appendTreeArray_rows_distinct 1%positive example_heap _ eq_refl)
    as (newArray & h' & rows & Hrun & Hnew & Hnd & Hnr & _).
  exists newArray, h', rows.
  split; [exact Hrun|]. split; [exact Hnew|]. split; [exact Hnd | exact Hnr].
Defined.

(* ------------------------------------------------------------------ *)
(** ** [randomizeData]: nothing to draw, a bad item, fair draws *)

Section RandomizeDataMore.
Context {V : Type}.
Implicit Types (h : liststore V) (st : rd_state V) (refs pools : list loc).

Lemma rows_left_cons h p refs :
  rows_left h (p :: refs) = length (default [] (h !! p)) + rows_left h refs.
Proof. unfold rows_left, cur_pools. simpl. now rewrite length_app. Qed.

Lemma rows_left_empty h pools :
  (forall p, p ∈ pools -> h !! p = Some []) -> rows_left h pools = 0.
Proof.
  induction pools as [|p pools IH]; intros Hempty; [reflexivity|].
  rewrite rows_left_cons, (Hempty p) by left. simpl.
  apply IH. intros q Hq. apply Hempty. now right.
Qed.

(** X3.  When no pool holds a row (in particular when there is no pool at all),
    [randomizeData] returns two empty lists at once: the loop is not entered,
    no random number is drawn (so [random.randint(0, -1)] is never reached)
    and no object changes. *)
Theorem randomizeData_no_rows (draws : nat -> nat) (fuel : nat) (array : loc) pools h :
  pools_at h array pools ->
  (forall p, p ∈ pools -> h !! p = Some []) ->
  randomizeData draws fuel (VRef array) h = Some (Ok ([], [], h)).
Proof.
  intros Hwf Hempty. unfold randomizeData.
  rewrite (randomizeData_init_spec array pools h Hwf).
  rewrite (rows_left_empty h pools Hempty).
  now destruct fuel.
Qed.

Lemma list_items_raise h (v : value V) (e : exn) :
  list_items h v = Raise e -> e = TypeError.
Proof.
  destruct v as [x|z|items|l]; simpl; try (now intros [= <-]).
  destruct (h !! l); [discriminate | now intros [= <-]].
Qed.

Lemma randomizeData_count_number h (array : loc) (items : list (value V)) i v :
  h !! array = Some items -> items !! i = Some v -> is_number v ->
  forall (indices : list nat) (acc : Z),
    Forall (fun k => k < length items) indices -> i ∈ indices ->
    randomizeData_count h (VRef array) indices acc = Raise TypeError.
Proof.
  intros Harr Hv Hnum. induction indices as [|k indices IH]; intros acc Hall Hin.
  - inversion Hin.
  - inversion Hall as [|? ? Hk Hall']; subst.
    destruct (lookup_lt_is_Some_2 items k Hk) as [pool Hpool].
    simpl. rewrite Harr. simpl. unfold getitem. rewrite Hpool. simpl.
    unfold len. destruct (list_items h pool) as [rows|e] eqn:E; simpl.
    + apply IH; [assumption|].
      apply elem_of_cons in Hin. destruct Hin as [->|Hin]; [|assumption].
      exfalso. rewrite Hv in Hpool. injection Hpool as <-.
      destruct v; try contradiction; discriminate.
    + now rewrite (list_items_raise _ _ _ E).
Qed.

(** X4.  If some item of [array] is a number, the call raises [TypeError] from
    [len] in the counting loop, whatever the other items are (lists, tuples,
    numbers): before the [while] loop is entered, so before any row is
    popped. *)
Theorem randomizeData_number_item (draws : nat -> nat) (fuel : nat) (array : loc)
  (items : list (value V)) (i : nat) (v : value V) h :
  h !! array = Some items -> items !! i = Some v -> is_number v ->
  randomizeData draws fuel (VRef array) h = Some (Raise TypeError).
Proof.
  intros Harr Hv Hnum. unfold randomizeData, randomizeData_init. simpl.
  rewrite Harr. simpl.
  rewrite (randomizeData_count_number h array items i v Harr Hv Hnum).
  - reflexivity.
  - apply Forall_forall. intros k Hk. apply elem_of_seq in Hk. lia.
  - apply elem_of_seq. pose proof (lookup_lt_Some _ _ _ Hv). lia.
Qed.

Lemma len_sequence h (v : value V) :
  is_sequence h v -> exists n, len h v = Ok n /\ (0 <= n)%Z.
Proof.
  destruct v as [x|z|items|l]; simpl; try contradiction.
  - intros _. eexists. split; [reflexivity | lia].
  - intros [items Hl]. unfold len. simpl. rewrite Hl. simpl.
    eexists. split; [reflexivity | lia].
Qed.

(** The counting loop accepts every sequence, tuples included. *)
Lemma randomizeData_count_sequences h (array : loc) (items : list (value V)) :
  h !! array = Some items -> Forall (is_sequence h) items ->
  forall (indices : list nat) (acc : Z),
    Forall (fun k => k < length items) indices ->
    exists n, randomizeData_count h (VRef array) indices acc = Ok n /\
      (acc <= n)%Z /\
      forall i t, i ∈ indices -> items !! i = Some (VTuple t) ->
        (acc + Z.of_nat (length t) <= n)%Z.
Proof.
  intros Harr Hseq. induction indices as [|k indices IH]; intros acc Hall.
  - exists acc. split; [reflexivity|]. split; [lia|]. intros i t Hin. inversion Hin.
  - inversion Hall as [|? ? Hk Hall']; subst.
    destruct (lookup_lt_is_Some_2 items k Hk) as [pool Hpool].
    pose proof (Forall_lookup_1 _ _ _ _ Hseq Hpool) as Hs.
    destruct (len_sequence h pool Hs) as (m & Hm & Hm0).
    destruct (IH (acc + m)%Z Hall') as (n & Hn & Hle & Htup).
    exists n. split.
    + simpl. rewrite Harr. simpl. unfold getitem. rewrite Hpool. simpl.
      rewrite Hm. simpl. exact Hn.
    + split; [lia|]. intros i t Hin Hi.
      apply elem_of_cons in Hin. destruct Hin as [->|Hin].
      * rewrite Hi in Hpool. injection Hpool as <-.
        unfold len in Hm. simpl in Hm. injection Hm as <-. lia.
      * specialize (Htup i t Hin Hi). lia.
Qed.

(** X25.  A pool given as a tuple (or as any other sequence that is not a
    list) is not refused by the counting loop: its items are counted like
    rows.  The call fails only in the [while] loop, with [AttributeError] at
    [pop], when a draw selects that pool; here it is the first draw. *)
Theorem randomizeData_tuple_pool (draws : nat -> nat) (fuel : nat) (array : loc)
  (items : list (value V)) (i : nat) (t : list (value V)) h :
  h !! array = Some items -> Forall (is_sequence h) items ->
  items !! i = Some (VTuple t) -> t ≠ [] ->
  draws 0 mod length items = i -> 0 < fuel ->
  (exists n, randomizeData_init (VRef array) h
             = Ok {| rd_heap := h; trainData := []; targetData := []; nEvents := n |} /\
             (Z.of_nat (length t) <= n)%Z) /\
  randomizeData draws fuel (VRef array) h = Some (Raise AttributeError).
Proof.
  intros Harr Hseq Hi Hne Hdraw Hfuel.
  destruct (randomizeData_count_sequences h array items Harr Hseq
              (seq 0 (length items)) 0) as (n & Hn & _ & Htup).
  { apply Forall_forall. intros k Hk. apply elem_of_seq in Hk. lia. }
  pose proof (lookup_lt_Some _ _ _ Hi) as Hilt.
  assert (Hlen : (Z.of_nat (length t) <= n)%Z).
  { apply (Htup i t); [apply elem_of_seq; lia | exact Hi]. }
  assert (Hinit : randomizeData_init (VRef array) h
                  = Ok {| rd_heap := h; trainData := []; targetData := [];
                          nEvents := n |}).
  { unfold randomizeData_init. simpl. rewrite Harr. simpl. now rewrite Hn. }
  split; [exists n; split; [exact Hinit | exact Hlen]|].
  unfold randomizeData. rewrite Hinit.
  assert (Hpos : (0 < n)%Z) by (destruct t; [congruence | simpl in Hlen; lia]).
  destruct fuel as [|fuel]; [lia|]. cbn [randomizeData_while nEvents].
  destruct (Z.ltb_spec 0 n) as [_|Hle]; [|lia].
  assert (Hbody : randomizeData_body (VRef array) (draws 0)
                    {| rd_heap := h; trainData := []; targetData := []; nEvents := n |}
                  = Raise AttributeError).
  { unfold randomizeData_body. cbv zeta. cbn [rd_heap].
    rewrite (len_list _ _ _ Harr). cbn [mbind result_bind].
    rewrite (randint_index (length items) (draws 0)) by lia. cbn [mbind result_bind].
    cbn [list_items]. rewrite Harr. cbn [mbind result_bind].
    rewrite (getitem_int_of_nat _ (draws 0 mod length items) (VTuple t))
      by (now rewrite Hdraw).
    cbn [mbind result_bind]. unfold len. cbn [list_items mbind result_bind].
    destruct (Z.ltb_spec 0 (Z.of_nat (length t))) as [_|Hle];
      [reflexivity | destruct t; [congruence | simpl in Hle; lia]]. }
  now rewrite Hbody.
Qed.

(** X5.  With a generator that keeps drawing every pool index, the call returns
    on every list of distinct pools, with as many rows as the pools held. *)
Theorem randomizeData_fair_terminates (draws : nat -> nat) (array : loc) pools h :
  pools_at h array pools ->
  fair_draws draws (length pools) ->
  exists (fuel : nat) (train : list (value V)) (target : list Z) (h' : liststore V),
    randomizeData draws fuel (VRef array) h = Some (Ok (train, target, h')) /\
    length train = rows_left h pools /\
    length target = rows_left h pools.
Proof.
  intros Hwf Hfair.
  pose proof (randomizeData_init_spec array pools h Hwf) as Hinit.
  pose proof (rd_inv_init array pools h Hwf) as Hinv0.
  set (st0 := {| rd_heap := h; trainData := []; targetData := [];
                 nEvents := Z.of_nat (rows_left h pools) |}) in *.
  assert (Hhits : eventually_hits draws (pool_sizes (rd_heap st0) pools)).
  { apply fair_draws_eventually_hit. now rewrite pool_sizes_length. }
  destruct (iter_reaches_zero draws array pools h st0 Hinv0 Hhits)
    as (K & st_K & HK & Hz & Hbefore).
  assert (Hwhile : randomizeData_while draws (VRef array) K 0 st0 = Some (Ok st_K)).
  { apply (while_reaches draws array st0 K st_K HK ltac:(lia) Hbefore K 0 st0);
      reflexivity. }
  pose proof (rd_inv_iter draws array pools h st0 Hinv0 K st_K HK) as HinvK.
  destruct (rd_inv_final array pools h st_K HinvK Hz) as (Hlen & Hperm & _).
  exists K, (trainData st_K), (targetData st_K), (rd_heap st_K).
  split; [unfold randomizeData; now rewrite Hinit, Hwhile|].
  assert (Htrain : length (trainData st_K) = rows_left h pools).
  { rewrite (Permutation_length Hperm). unfold rows_left. now rewrite cur_pools_seq. }
  split; [exact Htrain | now rewrite <- Hlen].
Qed.

End RandomizeDataMore.

(* ------------------------------------------------------------------ *)
(** ** [randomizeData]: one pool object given twice *)

Section RandomizeDataAliased.
Context {V : Type}.
Implicit Types (h : liststore V) (st : rd_state V) (refs : list loc).

(** The counting loop counts a pool's rows once for every index at which the
    pool stands. *)
Lemma randomizeData_count_refs (array : loc) refs h :
  refs_at h array refs ->
  forall (indices : list nat) (acc : Z),
    Forall (fun i => i < length refs) indices ->
    randomizeData_count h (VRef array) indices acc =
    Ok (acc + Z.of_nat (length (concat (map (pool_rows h refs) indices))))%Z.
Proof.
  intros (Harr & Hself & Hrefs).
  induction indices as [|i indices IH]; intros acc Hall.
  - simpl. f_equal. lia.
  - inversion Hall as [|? ? Hi Hall']; subst.
    destruct (lookup_lt_is_Some_2 refs i Hi) as [p Hp].
    destruct (Hrefs p) as [rows Hrows]; [eapply list_elem_of_lookup_2; eauto|].
    simpl. rewrite Harr. simpl. unfold getitem.
    rewrite list_lookup_fmap, Hp. simpl.
    rewrite (len_list _ _ _ Hrows). simpl. rewrite IH by assumption. f_equal.
    unfold pool_rows at 2. rewrite Hp, Hrows. simpl.
    rewrite length_app. lia.
Qed.

Lemma randomizeData_init_refs (array : loc) refs h :
  refs_at h array refs ->
  randomizeData_init (VRef array) h =
  Ok {| rd_heap := h; trainData := []; targetData := [];
        nEvents := Z.of_nat (rows_left h refs) |}.
Proof.
  intros Hwf. unfold randomizeData_init. simpl.
  pose proof Hwf as (Harr & _). rewrite Harr. simpl. rewrite length_map.
  rewrite (randomizeData_count_refs array refs h Hwf).
  - simpl. unfold rows_left. now rewrite cur_pools_seq.
  - apply Forall_forall. intros i Hi. apply elem_of_seq in Hi. lia.
Qed.

(** One iteration on such an argument: the pool at the drawn index loses its
    last row, or the state stays as it is when that pool is empty. *)
Lemma randomizeData_body_refs (array : loc) refs (raw : nat) st :
  refs_at (rd_heap st) array refs -> refs ≠ [] ->
  exists q rows,
    q ∈ refs /\ rd_heap st !! q = Some rows /\
    match last rows with
    | None => randomizeData_body (VRef array) raw st = Ok st
    | Some r =>
        rows = removelast rows ++ [r] /\
        exists train target,
          randomizeData_body (VRef array) raw st =
            Ok {| rd_heap := <[q := removelast rows]> (rd_heap st);
                  trainData := train; targetData := target;
                  nEvents := (nEvents st - 1)%Z |}
    end.
Proof.
  intros (Harr & Hself & Hrefs) Hne.
  assert (Hn : 0 < length refs) by (destruct refs; [congruence | simpl; lia]).
  set (i := raw mod length refs).
  assert (Hi : i < length refs) by (apply Nat.mod_upper_bound; lia).
  destruct (lookup_lt_is_Some_2 refs i Hi) as [q Hq].
  assert (Hin : q ∈ refs) by (eapply list_elem_of_lookup_2; eauto).
  destruct (Hrefs q Hin) as [rows Hrows].
  exists q, rows. split; [assumption|]. split; [assumption|].
  assert (Hbody : forall k,
    (n ← len (rd_heap st) (VRef array);
     rng ← randint 0 (n - 1) raw;
     items ← list_items (rd_heap st) (VRef array);
     pool ← getitem_int items rng;
     k rng pool) = k (Z.of_nat i) (VRef q) :> result (rd_state V)).
  { intros k. rewrite (len_list _ _ _ Harr). simpl. rewrite length_map.
    rewrite randint_index by assumption. simpl. rewrite Harr. simpl.
    rewrite (getitem_int_of_nat _ i (VRef q)); [reflexivity|].
    now rewrite list_lookup_fmap, Hq. }
  unfold randomizeData_body. cbv zeta.
  rewrite (Hbody (fun rng pool => m ← len (rd_heap st) pool; _)).
  rewrite (len_list _ _ _ Hrows). simpl.
  destruct (last rows) as [r|] eqn:Hlast.
  - apply last_Some in Hlast. destruct Hlast as [rows' ->].
    rewrite removelast_last. split; [reflexivity|].
    rewrite length_app. simpl.
    destruct (Z.ltb_spec 0 (Z.of_nat (length rows' + 1))) as [_|Hle]; [|lia].
    rewrite (list_pop_snoc _ _ _ _ Hrows). simpl. eauto.
  - apply last_None in Hlast. subst rows. reflexivity.
Qed.

(** A pop from [q] takes one row off the count for every index at which [q]
    stands. *)
Lemma rows_left_pop h (q : loc) (rows : list (value V)) (r : value V) refs :
  h !! q = Some (rows ++ [r]) ->
  rows_left (<[q := rows]> h) refs + count_occ Pos.eq_dec refs q = rows_left h refs.
Proof.
  intros Hq. induction refs as [|p refs IH]; [reflexivity|].
  rewrite !rows_left_cons. simpl.
  destruct (Pos.eq_dec p q) as [->|Hne].
  - rewrite lookup_insert_eq, Hq. simpl. rewrite length_app. simpl. lia.
  - rewrite lookup_insert_ne by congruence. lia.
Qed.

Lemma rows_left_member h (p : loc) (rows : list (value V)) refs :
  p ∈ refs -> h !! p = Some rows -> length rows <= rows_left h refs.
Proof.
  intros Hin Hp. induction refs as [|q refs IH]; [inversion Hin|].
  rewrite rows_left_cons. apply elem_of_cons in Hin. destruct Hin as [<-|Hin].
  - rewrite Hp. simpl. lia.
  - specialize (IH Hin). lia.
Qed.

Lemma count_occ_twice (refs : list loc) (p : loc) (i j : nat) :
  i <> j -> refs !! i = Some p -> refs !! j = Some p ->
  2 <= count_occ Pos.eq_dec refs p.
Proof.
  revert i j. induction refs as [|q refs IH]; intros i j Hij Hi Hj.
  - now rewrite lookup_nil in Hi.
  - simpl. destruct i as [|i], j as [|j]; simpl in Hi, Hj.
    + congruence.
    + injection Hi as ->. destruct (Pos.eq_dec p p); [|congruence].
      assert (In p refs) by (apply list_elem_of_In; eapply list_elem_of_lookup_2; eauto).
      pose proof (proj1 (count_occ_In Pos.eq_dec refs p) H). lia.
    + injection Hj as ->. destruct (Pos.eq_dec p p); [|congruence].
      assert (In p refs) by (apply list_elem_of_In; eapply list_elem_of_lookup_2; eauto).
      pose proof (proj1 (count_occ_In Pos.eq_dec refs p) H). lia.
    + specialize (IH i j ltac:(lia) Hi Hj). destruct (Pos.eq_dec q p); lia.
Qed.

Section Loop.
Variables (array p : loc) (refs : list loc).
Hypothesis Htwice : 2 <= count_occ Pos.eq_dec refs p.

(** What stays true in the loop: [nEvents] is at least the number of rows
    counted with their multiplicity, and more than that once [p] has lost a
    row. *)
Definition aliased_inv st : Prop :=
  refs_at (rd_heap st) array refs /\
  ((Z.of_nat (rows_left (rd_heap st) refs) <= nEvents st)%Z /\
   (exists rows, rd_heap st !! p = Some rows /\ rows ≠ [])
   \/ (Z.of_nat (rows_left (rd_heap st) refs) + 1 <= nEvents st)%Z).

Lemma aliased_member : p ∈ refs.
Proof.
  apply list_elem_of_In. apply (count_occ_In Pos.eq_dec). lia.
Qed.

Lemma aliased_inv_positive st : aliased_inv st -> (0 < nEvents st)%Z.
Proof.
  intros [Hwf [[Hle (rows & Hp & Hne)] | Hlt]]; [|lia].
  pose proof (rows_left_member _ _ _ _ aliased_member Hp).
  destruct rows; [congruence | simpl in *; lia].
Qed.

Lemma aliased_inv_body raw st :
  aliased_inv st ->
  exists st', randomizeData_body (VRef array) raw st = Ok st' /\ aliased_inv st'.
Proof.
  intros Hinv. pose proof Hinv as [Hwf Hcount].
  assert (Hne : refs ≠ []).
  { intros E. pose proof aliased_member as Hin. rewrite E in Hin. inversion Hin. }
  destruct (randomizeData_body_refs array refs raw st Hwf Hne)
    as (q & rows & Hq & Hrows & Hcase).
  destruct (last rows) as [r|] eqn:Hlast; [|exists st; now split].
  destruct Hcase as (Erows & train & target & Hbody).
  eexists. split; [exact Hbody|].
  destruct Hwf as (Harr & Hself & Hrefs).
  assert (Haq : array ≠ q) by (intros ->; contradiction).
  rewrite Erows in Hrows.
  pose proof (rows_left_pop _ _ _ _ refs Hrows) as Hpop.
  assert (Hq1 : 1 <= count_occ Pos.eq_dec refs q).
  { apply (count_occ_In Pos.eq_dec). now apply list_elem_of_In. }
  split.
  - split; [simpl; now rewrite lookup_insert_ne by congruence|].
    split; [assumption|]. intros l Hl. simpl.
    destruct (decide (l = q)) as [->|Hlq].
    + rewrite lookup_insert_eq. eauto.
    + rewrite lookup_insert_ne by congruence. now apply Hrefs.
  - simpl. destruct (decide (q = p)) as [->|Hqp].
    + right. destruct Hcount as [[Hle _]|Hlt]; lia.
    + destruct Hcount as [[Hle (rows' & Hp & Hne')]|Hlt]; [left|right; lia].
      split; [lia|]. exists rows'. split; [|assumption].
      now rewrite lookup_insert_ne by congruence.
Qed.

Lemma aliased_while_runs (draws : nat -> nat) (fuel : nat) : forall k st,
  aliased_inv st -> randomizeData_while draws (VRef array) fuel k st = None.
Proof.
  induction fuel as [|fuel IH]; intros k st Hinv; simpl;
    pose proof (aliased_inv_positive st Hinv) as Hpos;
    destruct (Z.ltb_spec 0 (nEvents st)) as [_|Hle]; try lia; [reflexivity|].
  destruct (aliased_inv_body (draws k) st Hinv) as (st' & -> & Hinv').
  now apply IH.
Qed.

End Loop.

(** X6.  When one non-empty pool object stands at two indices of [array], the
    call never returns and never raises: the counting loop counts the pool's
    rows twice, each [pop] removes a row once, so [nEvents] stays positive
    after every pool is empty and the [while] loop runs for ever, whatever
    numbers are drawn. *)
Theorem randomizeData_aliased_pool_diverges (array p : loc) refs (i j : nat)
  (rows : list (value V)) h :
  refs_at h array refs ->
  i <> j -> refs !! i = Some p -> refs !! j = Some p ->
  h !! p = Some rows -> rows ≠ [] ->
  forall (draws : nat -> nat) (fuel : nat),
    randomizeData draws fuel (VRef array) h = None.
Proof.
  intros Hwf Hij Hi Hj Hp Hne draws fuel.
  pose proof (count_occ_twice refs p i j Hij Hi Hj) as Htwice.
  unfold randomizeData. rewrite (randomizeData_init_refs array refs h Hwf).
  rewrite (aliased_while_runs array p refs Htwice draws fuel); [reflexivity|].
  split; [exact Hwf|]. left. simpl. split; [lia|]. eauto.
Qed.

End RandomizeDataAliased.

Lemma aliased_store_refs : refs_at aliased_store 1%positive [2%positive; 2%positive].
Proof.
  split; [reflexivity|]. split; [list_not_elem|].
  intros p Hp. apply elem_of_cons in Hp. destruct Hp as [->|Hp].
  - now eexists.
  - apply list_elem_of_singleton in Hp. subst p. now eexists.
Qed.

(** The list [[p, p]] with the one pool [p = [7]]: a list of pools for which
    the call returns nothing, whatever numbers are drawn and however long it
    runs. *)
Lemma randomizeData_shared_pool_no_result :
  aliased_store !! 1%positive = Some [VRef 2%positive; VRef 2%positive] /\
  aliased_store !! 2%positive = Some [VScalar 7%Z] /\
  forall (draws : nat -> nat) (fuel : nat),
    randomizeData draws fuel (VRef 1%positive) aliased_store = None.
Proof.
  split; [reflexivity|]. split; [reflexivity|]. intros draws fuel.
  unfold randomizeData.
  rewrite (randomizeData_init_refs 1%positive _ aliased_store aliased_store_refs).
  rewrite (aliased_while_runs 1%positive 2%positive [2%positive; 2%positive]);
    [reflexivity | simpl; lia |].
  split; [exact aliased_store_refs|]. left. split; [simpl; lia|].
  exists [VScalar 7%Z]. split; [reflexivity | discriminate].
Qed.


Lemma randomizeData_no_rows_witness :
  pools_at no_pools_store 1%positive [] /\
  randomizeData (fun k => k) 0 (VRef 1%positive) no_pools_store
    = Some (Ok ([], [], no_pools_store)).
Proof.
  assert (Hwf : pools_at no_pools_store 1%positive []).
  { split; [reflexivity|]. split; [constructor|]. split; [list_not_elem|].
    intros p Hp. inversion Hp. }
  split; [exact Hwf|].
  apply (randomizeData_no_rows (fun k => k) 0 1%positive [] no_pools_store Hwf).
  intros p Hp. inversion Hp.
Defined.

Lemma randomizeData_number_item_witness :
  number_store !! 1%positive = Some [VInt 5] /\
  randomizeData (fun k => k) 3 (VRef 1%positive) number_store
    = Some (Raise TypeError).
Proof.
  split; [reflexivity|].
  exact (randomizeData_number_item (fun k => k) 3 1%positive [VInt 5] 0 (VInt 5)
           number_store eq_refl eq_refl I).
Defined.

Lemma randomizeData_tuple_pool_witness :
  tuple_store !! 1%positive = Some [VRef 2%positive; VTuple [VScalar 5%Z]] /\
  randomizeData (fun k => S k) 5 (VRef 1%positive) tuple_store
    = Some (Raise AttributeError).
Proof.
  split; [reflexivity|].
  refine (proj2 (randomizeData_tuple_pool (fun k => S k) 5 1%positive
                   [VRef 2%positive; VTuple [VScalar 5%Z]] 1 [VScalar 5%Z]
                   tuple_store eq_refl _ eq_refl _ eq_refl _)).
  - repeat constructor. now eexists.
  - discriminate.
  - lia.
Defined.

Lemma randomizeData_fair_terminates_witness :
  pools_at example_store 1%positive [2%positive; 3%positive] /\
  fair_draws example_draws 2 /\
  exists fuel train target h',
    randomizeData example_draws fuel (VRef 1%positive) example_store
      = Some (Ok (train, target, h')) /\
    length train = 3 /\ length target = 3.
Proof.
  split; [exact example_store_wf|]. split; [exact example_draws_fair|].
  destruct (randomizeData_fair_terminates example_draws 1%positive
              [2%positive; 3%positive] example_store example_store_wf
              example_draws_fair)
    as (fuel & train & target & h' & Hrun & Htrain & Htarget).
  exists fuel, train, target, h'.
  split; [exact Hrun|]. split; [exact Htrain | exact Htarget].
Defined.

Lemma randomizeData_aliased_pool_diverges_witness :
  refs_at aliased_store 1%positive [2%positive; 2%positive] /\
  forall fuel, randomizeData (fun k => k) fuel (VRef 1%positive) aliased_store = None.
Proof.
  assert (Hwf : refs_at aliased_store 1%positive [2%positive; 2%positive]).
  { split; [reflexivity|]. split; [list_not_elem|].
    intros p Hp. apply elem_of_cons in Hp. destruct Hp as [->|Hp].
    - now eexists.
    - apply list_elem_of_singleton in Hp. subst p. now eexists. }
  split; [exact Hwf|]. intros fuel.
  apply (randomizeData_aliased_pool_diverges 1%positive 2%positive
           [2%positive; 2%positive] 0 1 [VScalar 7%Z] aliased_store Hwf);
    [lia | reflexivity | reflexivity | reflexivity | discriminate].
Defined.

(* ------------------------------------------------------------------ *)
(** ** [plotPerformance]: errors and what is left behind *)

Lemma plt_savefig_missing (path : string) (w : world) num f rest :
  focused w num f rest ->
  dirname path ≠ "" -> (dirname path ∉ dirs w) ->
  plt_savefig path w = (w, Raise FileNotFoundError).
Proof.
  intros [Hfigs _] Hne Hdir. unfold plt_savefig, plt_gcf.
  rewrite py_bind_unfold, Hfigs. simpl. unfold write_figure.
  destruct (decide _) as [[E|E]|_]; [contradiction | contradiction | reflexivity].
Qed.

Lemma getitem_raise {A : Type} (l : list A) (i : nat) :
  length l <= i -> getitem l i = Raise IndexError.
Proof.
  intros H. unfold getitem. now rewrite (proj2 (lookup_ge_None l i) H).
Qed.

Lemma lift_raise {A : Type} (r : result A) (e : exn) (w : world) :
  r = Raise e -> lift r w = (w, Raise e).
Proof. now intros ->. Qed.

(** The paths written so far are those of the trace. *)
Lemma saves_add_trace (e : event) (w : world) :
  saves (add_trace e w) =
  saves w ++ match e with ESavefig p f => [(p, f)] | _ => [] end.
Proof. unfold saves. simpl. rewrite omap_app. f_equal. now destruct e. Qed.

(** X7.  Without a directory [plots] the first [savefig] raises
    [FileNotFoundError]: no file is written, and the figure the call opened
    stays open, in front of the figures that were open before. *)
Theorem plotPerformance_missing_directory (loss acc : list (list float64))
  (w : world) (l0 l1 : list float64) :
  loss !! 0 = Some l0 -> loss !! 1 = Some l1 ->
  ("plots" ∉ dirs w) ->
  exists (w' : world) (num : nat) (f : figure),
    plotPerformance loss acc w = (w', Raise FileNotFoundError) /\
    files w' = files w /\ saves w' = saves w /\
    figs w' = (num, f) :: figs w /\
    lines_of <$> axes_at (2, 2, 1) f = Some [(l0, "loss"); (l1, "val_loss")].
Proof.
  intros Hl0 Hl1 Hdir.
  destruct (plt_figure_focused (Some (15, 10)) w) as (num & Hfig & Hfresh).
  eexists _, num, _. split.
  - unfold plotPerformance.
    rewrite (py_bind_ok _ _ _ _ _ Hfig).
    py_step plt_subplot_new.
    py_step @lift_ok. py_step ax_call_focused.
    py_step @lift_ok. py_step ax_call_focused.
    py_step ax_call_focused. py_step ax_call_focused. py_step ax_call_focused.
    erewrite py_bind_raise; [reflexivity|].
    eapply plt_savefig_missing; [focus_solve | discriminate | exact Hdir].
  - split; [reflexivity|]. split.
    + unfold saves. lazy [trace add_trace set_figs set_files].
      rewrite omap_app. simpl. apply app_nil_r.
    + split; reflexivity.
Qed.

(** X8.  With fewer than two series in [loss] the call raises [IndexError] while
    drawing the loss subplot: the figure is open, nothing has been written. *)
Theorem plotPerformance_short_loss (loss acc : list (list float64)) (w : world) :
  length loss < 2 ->
  exists (w' : world) (num : nat) (f : figure),
    plotPerformance loss acc w = (w', Raise IndexError) /\
    files w' = files w /\ saves w' = saves w /\
    figs w' = (num, f) :: figs w.
Proof.
  intros Hlen.
  destruct (plt_figure_focused (Some (15, 10)) w) as (num & Hfig & Hfresh).
  destruct loss as [|l0 [|l1 loss]]; [| |simpl in Hlen; lia].
  - eexists _, num, _. split.
    + unfold plotPerformance.
      rewrite (py_bind_ok _ _ _ _ _ Hfig).
      py_step plt_subplot_new.
      erewrite py_bind_raise; [reflexivity|].
      apply lift_raise, getitem_raise. simpl. lia.
    + split; [reflexivity|]. split; [|reflexivity].
      unfold saves. lazy [trace add_trace set_figs set_files].
      rewrite omap_app. simpl. apply app_nil_r.
  - eexists _, num, _. split.
    + unfold plotPerformance.
      rewrite (py_bind_ok _ _ _ _ _ Hfig).
      py_step plt_subplot_new.
      py_step @lift_ok. py_step ax_call_focused.
      erewrite py_bind_raise; [reflexivity|].
      apply lift_raise, getitem_raise. simpl. lia.
    + split; [reflexivity|]. split; [|reflexivity].
      unfold saves. lazy [trace add_trace set_figs set_files].
      rewrite omap_app. simpl. apply app_nil_r.
Qed.

(** X9.  With an empty [acc] the call raises [IndexError] only after the loss
    subplot has been written: [plots/loss.pdf] and [plots/loss.png] exist,
    the two accuracy files have not been touched. *)
Theorem plotPerformance_empty_acc (loss : list (list float64)) (w : world)
  (l0 l1 : list float64) :
  loss !! 0 = Some l0 -> loss !! 1 = Some l1 ->
  "plots" ∈ dirs w ->
  exists (w' : world) (f_loss : figure),
    plotPerformance loss [] w = (w', Raise IndexError) /\
    files w' !! "plots/loss.pdf" = Some f_loss /\
    files w' !! "plots/loss.png" = Some f_loss /\
    files w' !! "plots/acc.pdf" = files w !! "plots/acc.pdf" /\
    files w' !! "plots/acc.png" = files w !! "plots/acc.png" /\
    saves w' = saves w ++ [("plots/loss.pdf", f_loss); ("plots/loss.png", f_loss)] /\
    lines_of <$> axes_at (2, 2, 1) f_loss = Some [(l0, "loss"); (l1, "val_loss")].
Proof.
  intros Hl0 Hl1 Hdir.
  destruct (plt_figure_focused (Some (15, 10)) w) as (num & Hfig & Hfresh).
  eexists _, _. split.
  - unfold plotPerformance.
    rewrite (py_bind_ok _ _ _ _ _ Hfig).
    py_step plt_subplot_new.
    py_step @lift_ok. py_step ax_call_focused.
    py_step @lift_ok. py_step ax_call_focused.
    py_step ax_call_focused. py_step ax_call_focused. py_step ax_call_focused.
    py_step plt_savefig_focused. py_step plt_savefig_focused.
    py_step plt_subplot_new.
    erewrite py_bind_raise; [reflexivity|].
    apply lift_raise, getitem_raise. simpl. lia.
  - split; [|split; [|split; [|split; [|split]]]].
    + lazy [files set_figs add_trace set_files].
      now rewrite lookup_insert_ne, lookup_insert_eq by discriminate.
    + lazy [files set_figs add_trace set_files]. now rewrite lookup_insert_eq.
    + lazy [files set_figs add_trace set_files].
      now rewrite !lookup_insert_ne by discriminate.
    + lazy [files set_figs add_trace set_files].
      now rewrite !lookup_insert_ne by discriminate.
    + unfold saves. lazy [trace add_trace set_figs set_files].
      rewrite <- !app_assoc, omap_app. reflexivity.
    + reflexivity.
Qed.

(** X10.  A successful call leaves the figure it opened open, as the current
    figure, in front of the figures that were open before; it prints nothing
    and touches no array.  Each call so adds one open figure. *)
Theorem plotPerformance_leaves_figure_open (loss acc : list (list float64))
  (w : world) (l0 l1 a0 : list float64) :
  loss !! 0 = Some l0 -> loss !! 1 = Some l1 -> acc !! 0 = Some a0 ->
  "plots" ∈ dirs w ->
  exists (w' : world) (num : nat) (f : figure),
    plotPerformance loss acc w = (w', Ok tt) /\
    figs w' = (num, f) :: figs w /\
    files w' !! "plots/acc.png" = Some f /\
    heap w' = heap w /\ stdout w' = stdout w /\ dirs w' = dirs w.
Proof.
  intros Hl0 Hl1 Ha0 Hdir.
  destruct (plotPerformance_run loss acc w l0 l1 a0 Hl0 Hl1 Ha0 Hdir) as [num Hrun].
  cbv zeta in Hrun. eexists _, num, _. split; [exact Hrun|]. simpl.
  split; [reflexivity|]. split; [now rewrite lookup_insert_eq|].
  repeat split; reflexivity.
Qed.

Lemma plotPerformance_missing_directory_witness :
  ("plots" ∉ dirs (fresh_world ∅ ∅)) /\
  exists (w' : world),
    plotPerformance example_loss example_acc (fresh_world ∅ ∅)
      = (w', Raise FileNotFoundError) /\
    files w' = ∅.
Proof.
  assert (Hdir : "plots" ∉ dirs (fresh_world ∅ ∅)).
  { simpl. apply not_elem_of_empty. }
  split; [exact Hdir|].
  destruct (plotPerformance_missing_directory example_loss example_acc
              (fresh_world ∅ ∅) _ _ eq_refl eq_refl Hdir)
    as (w' & num & f & Hrun & Hfiles & _).
  exists w'. split; [exact Hrun | exact Hfiles].
Defined.

Lemma plotPerformance_short_loss_witness :
  length [[f64_of_Z 1]] < 2 /\
  exists (w' : world),
    plotPerformance [[f64_of_Z 1]] example_acc (fresh_world ∅ {[ "plots" ]})
      = (w', Raise IndexError) /\
    files w' = ∅.
Proof.
  assert (Hlen : length [[f64_of_Z 1]] < 2) by (simpl; lia).
  split; [exact Hlen|].
  destruct (plotPerformance_short_loss [[f64_of_Z 1]] example_acc
              (fresh_world ∅ {[ "plots" ]}) Hlen)
    as (w' & num & f & Hrun & Hfiles & _).
  exists w'. split; [exact Hrun | exact Hfiles].
Defined.

Lemma plotPerformance_empty_acc_witness :
  "plots" ∈ dirs (fresh_world ∅ {[ "plots" ]}) /\
  exists (w' : world) (f_loss : figure),
    plotPerformance example_loss [] (fresh_world ∅ {[ "plots" ]})
      = (w', Raise IndexError) /\
    files w' !! "plots/loss.png" = Some f_loss /\
    files w' !! "plots/acc.png" = None.
Proof.
  assert (Hdir : "plots" ∈ dirs (fresh_world ∅ {[ "plots" ]})).
  { simpl. apply elem_of_singleton. reflexivity. }
  split; [exact Hdir|].
  destruct (plotPerformance_empty_acc example_loss (fresh_world ∅ {[ "plots" ]})
              _ _ eq_refl eq_refl Hdir)
    as (w' & f_loss & Hrun & _ & Hpng & _ & Hacc & _).
  exists w', f_loss. split; [exact Hrun|]. split; [exact Hpng | exact Hacc].
Defined.

Lemma plotPerformance_leaves_figure_open_witness :
  "plots" ∈ dirs (fresh_world ∅ {[ "plots" ]}) /\
  exists (w' : world) (num : nat) (f : figure),
    plotPerformance example_loss example_acc (fresh_world ∅ {[ "plots" ]})
      = (w', Ok tt) /\
    figs w' = [(num, f)].
Proof.
  assert (Hdir : "plots" ∈ dirs (fresh_world ∅ {[ "plots" ]})).
  { simpl. apply elem_of_singleton. reflexivity. }
  split; [exact Hdir|].
  destruct (plotPerformance_leaves_figure_open example_loss example_acc
              (fresh_world ∅ {[ "plots" ]}) _ _ _ eq_refl eq_refl eq_refl Hdir)
    as (w' & num & f & Hrun & Hfigs & _).
  exists w', num, f. split; [exact Hrun | exact Hfigs].
Defined.

(* ------------------------------------------------------------------ *)
(** ** [plotProbabilities]: the figures and the files it leaves *)

Lemma string_length_app (s1 s2 : string) :
  String.length (s1 +:+ s2) = String.length s1 + String.length s2.
Proof. induction s1 as [|c s1 IH]; simpl; [reflexivity | now rewrite IH]. Qed.

Lemma string_app_inj_r (s1 s2 suffix : string) :
  s1 +:+ suffix = s2 +:+ suffix -> s1 = s2.
Proof.
  revert s2. induction s1 as [|c s1 IH]; intros [|d s2] H; simpl in H.
  - reflexivity.
  - apply (f_equal String.length) in H.
    rewrite !string_length_app in H. simpl in H. lia.
  - apply (f_equal String.length) in H.
    rewrite !string_length_app in H. simpl in H. lia.
  - injection H as -> H. f_equal. now apply IH.
Qed.

(** Different labels give different files. *)
Lemma prob_path_inj (p q : prob_entry) : prob_path p = prob_path q -> label p = label q.
Proof.
  unfold prob_path. intros H. apply (inj (String.app "prob_")) in H.
  now apply string_app_inj_r in H.
Qed.

Lemma last_seq_0 (n : nat) : last (seq 0 (S n)) = Some n.
Proof. rewrite seq_S. apply last_snoc. Qed.

Section PlotProbabilitiesFiles.
Variable probs : list prob_entry.
Hypothesis Hshape : Forall (fun p => well_shaped (length probs) (prob p)) probs.
Hypothesis Hlabels : NoDup (map label probs).

Lemma prob_path_index (i j : nat) (p q : prob_entry) :
  probs !! i = Some p -> probs !! j = Some q -> prob_path p = prob_path q -> i = j.
Proof.
  intros Hp Hq Hpath. apply prob_path_inj in Hpath.
  apply (NoDup_lookup (map label probs) i j (label p)); [assumption| |].
  - now rewrite list_lookup_fmap, Hp.
  - now rewrite list_lookup_fmap, Hq, Hpath.
Qed.

(** The inner loop for class [i]: only the file of class [i] is written, and
    it ends up holding the figure of the last [j]. *)
Lemma plotProbabilities_inner_files (i : nat) (p_i : prob_entry) (js : list nat) :
  forall (w : world),
  probs !! i = Some p_i -> Forall (fun j => j < length probs) js ->
  (dirname (prob_path p_i) = "" \/ dirname (prob_path p_i) ∈ dirs w) ->
  exists w',
    for_each js (plotProbabilities_body probs i) w = (w', Ok tt) /\
    dirs w' = dirs w /\
    (forall path, path ≠ prob_path p_i -> files w' !! path = files w !! path) /\
    (forall j, last js = Some j ->
       exists p_j data, probs !! j = Some p_j /\ column (prob p_j) i = Ok data /\
         files w' !! prob_path p_i = Some (hist_figure p_i p_j data)).
Proof.
  induction js as [|j js IH]; intros w Hp_i Hjs Hdir.
  - exists w. split; [reflexivity|]. split; [reflexivity|].
    split; [reflexivity|]. intros j Hj. discriminate.
  - inversion Hjs as [|? ? Hj Hjs']; subst.
    pose proof (lookup_lt_Some _ _ _ Hp_i) as Hi.
    destruct (body_events_ok probs Hshape 0 i j Hi Hj)
      as (p_i' & p_j & data & Hp_i' & Hp_j & Hdata & _).
    rewrite Hp_i in Hp_i'. injection Hp_i' as <-.
    pose proof (plotProbabilities_body_run probs i j p_i p_j data w Hp_i Hp_j Hdata Hdir)
      as Hbody.
    simpl for_each. rewrite (py_bind_ok _ _ _ _ _ Hbody).
    match type of Hbody with _ = (?x, _) => set (w1 := x) in * end.
    destruct (IH w1 Hp_i Hjs' Hdir) as (w' & Hrun & Hd & Hother & Hlast).
    exists w'. split; [exact Hrun|]. split; [exact Hd|]. split.
    + intros path Hpath. rewrite (Hother path Hpath). unfold w1. simpl.
      now rewrite lookup_insert_ne by congruence.
    + intros j' Hj'. destruct js as [|j2 js].
      * simpl in Hj'. injection Hj' as <-. simpl in Hrun. injection Hrun as <-.
        exists p_j, data. split; [assumption|]. split; [assumption|].
        unfold w1. simpl. apply lookup_insert_eq.
      * rewrite last_cons_cons in Hj'. exact (Hlast j' Hj').
Qed.

Lemma plotProbabilities_outer_files (idxs : list nat) : forall (w : world),
  NoDup idxs -> Forall (fun i => i < length probs) idxs ->
  (forall p, p ∈ probs -> dirname (prob_path p) = "" \/ dirname (prob_path p) ∈ dirs w) ->
  exists w',
    for_each idxs (fun iProb =>
      for_each (seq 0 (length probs)) (plotProbabilities_body probs iProb)) w
    = (w', Ok tt) /\
    (forall path, (forall i p, i ∈ idxs -> probs !! i = Some p -> path ≠ prob_path p) ->
       files w' !! path = files w !! path) /\
    (forall i p_i, i ∈ idxs -> probs !! i = Some p_i ->
       exists p_last data, last probs = Some p_last /\
         column (prob p_last) i = Ok data /\
         files w' !! prob_path p_i = Some (hist_figure p_i p_last data)).
Proof.
  induction idxs as [|i idxs IH]; intros w Hnd Hidxs Hdirs.
  - exists w. split; [reflexivity|]. split; [reflexivity|].
    intros i p_i Hi. inversion Hi.
  - inversion Hidxs as [|? ? Hi Hidxs']; subst.
    apply NoDup_cons in Hnd. destruct Hnd as [Hni Hnd].
    destruct (lookup_lt_is_Some_2 probs i Hi) as [p_i Hp_i].
    assert (Hin : p_i ∈ probs) by (eapply list_elem_of_lookup_2; eauto).
    destruct (plotProbabilities_inner_files i p_i (seq 0 (length probs)) w Hp_i)
      as (w1 & Hrun1 & Hd1 & Hother1 & Hlast1); [|now apply Hdirs|].
    { apply Forall_forall. intros j Hj. apply elem_of_seq in Hj. lia. }
    simpl for_each. rewrite (py_bind_ok _ _ _ _ _ Hrun1).
    destruct (IH w1 Hnd Hidxs') as (w' & Hrun & Hother & Hfiles).
    { intros p Hp. rewrite Hd1. now apply Hdirs. }
    exists w'. split; [exact Hrun|]. split.
    + intros path Hpath. rewrite Hother.
      * apply Hother1. apply (Hpath i p_i); [left | assumption].
      * intros i' p' Hi' Hp'. apply (Hpath i' p'); [now right | assumption].
    + intros i' p' Hi' Hp'. apply elem_of_cons in Hi'. destruct Hi' as [->|Hi'].
      * rewrite Hp_i in Hp'. injection Hp' as <-.
        destruct (length probs) as [|n] eqn:Hn; [lia|].
        destruct (Hlast1 n (last_seq_0 n)) as (p_last & data & Hp_last & Hdata & Hfile).
        exists p_last, data. split; [|split; [exact Hdata|]].
        { rewrite last_lookup, Hn. exact Hp_last. }
        rewrite Hother; [exact Hfile|].
        intros i' q Hi' Hq Hpath.
        apply Hni. now rewrite (prob_path_index i i' p_i q Hp_i Hq Hpath).
      * exact (Hfiles i' p' Hi' Hp').
Qed.

(** X12.  On a well-shaped bundle with pairwise different labels, the file of
    every class [i] ends up holding one histogram only: that of the last
    class of the bundle (its column [i]); what the figures of the other
    classes showed has been overwritten.  No other file is touched. *)
Theorem plotProbabilities_last_class_only (w : world) :
  (forall p, p ∈ probs -> dirname (prob_path p) = "" \/ dirname (prob_path p) ∈ dirs w) ->
  exists w',
    plotProbabilities probs w = (w', Ok tt) /\
    (forall i p_i, probs !! i = Some p_i ->
       exists p_last data, last probs = Some p_last /\
         column (prob p_last) i = Ok data /\
         files w' !! prob_path p_i = Some (hist_figure p_i p_last data) /\
         figure_hists (hist_figure p_i p_last data)
           = [Hist data 20 0 1 (label p_last) (color p_last) "step" true true]) /\
    (forall path, (forall p, p ∈ probs -> path ≠ prob_path p) ->
       files w' !! path = files w !! path).
Proof.
  intros Hdirs.
  destruct (plotProbabilities_outer_files (seq 0 (length probs)) w) as
    (w' & Hrun & Hother & Hfiles); [apply NoDup_seq| |exact Hdirs|].
  { apply Forall_forall. intros i Hi. apply elem_of_seq in Hi. lia. }
  exists w'. split; [exact Hrun|]. split.
  - intros i p_i Hp_i.
    destruct (Hfiles i p_i) as (p_last & data & Hlast & Hdata & Hfile);
      [|assumption|].
    { apply elem_of_seq. pose proof (lookup_lt_Some _ _ _ Hp_i). lia. }
    exists p_last, data. repeat split; assumption || reflexivity.
  - intros path Hpath. apply Hother. intros i p _ Hp.
    apply Hpath. eapply list_elem_of_lookup_2; eauto.
Qed.

(** X13.  Every figure the call opens it also closes: the figures open afterwards
    are those open before, in the same order; nothing is printed and no
    array is touched. *)
Theorem plotProbabilities_closes_figures (w : world) :
  (forall p, p ∈ probs -> dirname (prob_path p) = "" \/ dirname (prob_path p) ∈ dirs w) ->
  exists w',
    plotProbabilities probs w = (w', Ok tt) /\
    figs w' = figs w /\ heap w' = heap w /\ stdout w' = stdout w /\
    length (omap (fun e => match e with EClose n => Some n | _ => None end) (trace w'))
    = length (omap (fun e => match e with EClose n => Some n | _ => None end) (trace w))
      + (length (figures_created w') - length (figures_created w)).
Proof.
  intros Hdirs.
  destruct (plotProbabilities_run probs Hshape w Hdirs)
    as (w' & Hrun & Hh & Hf & Hd & Hs & Ht).
  exists w'. split; [exact Hrun|]. split; [exact Hf|]. split; [exact Hh|].
  split; [exact Hs|].
  unfold figures_created. rewrite Ht, !omap_app, !length_app.
  set (num := S (foldr Nat.max 0 (map fst (figs w)))).
  assert (Hinner : forall i (js : list nat), i < length probs ->
    Forall (fun j => j < length probs) js ->
    let evs := flat_map (body_events probs num i) js in
    length (omap (fun e => match e with EClose n => Some n | _ => None end) evs)
    = length (omap (fun e => match e with EFigure n => Some n | _ => None end) evs)).
  { intros i js Hi. induction 1 as [|j js Hj _ IH]; simpl; [reflexivity|].
    destruct (body_events_ok probs Hshape num i j Hi Hj)
      as (p_i & p_j & data & _ & _ & _ & ->).
    simpl. f_equal. exact IH. }
  assert (Houter : forall (idxs : list nat), Forall (fun i => i < length probs) idxs ->
    let evs := flat_map (fun i => flat_map (body_events probs num i)
                                           (seq 0 (length probs))) idxs in
    length (omap (fun e => match e with EClose n => Some n | _ => None end) evs)
    = length (omap (fun e => match e with EFigure n => Some n | _ => None end) evs)).
  { induction 1 as [|i idxs Hi _ IH]; simpl; [reflexivity|].
    rewrite !omap_app, !length_app. f_equal; [|exact IH].
    apply Hinner; [assumption|].
    apply Forall_forall. intros j Hj. apply elem_of_seq in Hj. lia. }
  rewrite (Houter (seq 0 (length probs))).
  - lia.
  - apply Forall_forall. intros i Hi. apply elem_of_seq in Hi. lia.
Qed.

End PlotProbabilitiesFiles.

Lemma two_class_probs_shape :
  Forall (fun p => well_shaped (length two_class_probs) (prob p)) two_class_probs.
Proof.
  repeat constructor; simpl; auto.
Qed.

Lemma two_class_probs_labels : NoDup (map label two_class_probs).
Proof.
  simpl. apply NoDup_cons. split; [list_not_elem | apply NoDup_singleton].
Qed.

Lemma two_class_probs_dirs (w : world) (p : prob_entry) :
  p ∈ two_class_probs ->
  dirname (prob_path p) = "" \/ dirname (prob_path p) ∈ dirs w.
Proof.
  intros Hp. left. apply elem_of_cons in Hp. destruct Hp as [->|Hp].
  - reflexivity.
  - apply list_elem_of_singleton in Hp. now subst p.
Qed.

Lemma plotProbabilities_counts_witness :
  exists w' new,
    plotProbabilities two_class_probs (fresh_world ∅ ∅) = (w', Ok tt) /\
    length (figures_created w') = 4 /\
    saves w' = new /\ length new = 4 /\
    Forall (fun pf : string * figure => length (figure_hists pf.2) = 1) new.
Proof.
  destruct (plotProbabilities_counts two_class_probs two_class_probs_shape
              (fresh_world ∅ ∅) (two_class_probs_dirs _))
    as (w' & new & Hrun & Hfigs & Hsaves & Hlen & Hone).
  exists w', new. split; [exact Hrun|]. split; [exact Hfigs|].
  split; [exact Hsaves|]. split; [exact Hlen | exact Hone].
Defined.

Lemma plotProbabilities_last_class_only_witness :
  exists w',
    plotProbabilities two_class_probs (fresh_world ∅ ∅) = (w', Ok tt) /\
    figure_hists <$> files w' !! "prob_A.pdf"
      = Some [Hist [f64_of_Z 0] 20 0 1 "B" "b" "step" true true].
Proof.
  destruct (plotProbabilities_last_class_only two_class_probs two_class_probs_shape
              two_class_probs_labels (fresh_world ∅ ∅) (two_class_probs_dirs _))
    as (w' & Hrun & Hfiles & _).
  exists w'. split; [exact Hrun|].
  destruct (Hfiles 0 _ eq_refl) as (p_last & data & Hlast & Hdata & Hfile & Hhists).
  injection Hlast as <-. injection Hdata as <-.
  change (prob_path _) with "prob_A.pdf" in Hfile.
  rewrite Hfile. reflexivity.
Defined.

Lemma plotProbabilities_closes_figures_witness :
  exists w',
    plotProbabilities two_class_probs (fresh_world ∅ ∅) = (w', Ok tt) /\
    figs w' = [].
Proof.
  destruct (plotProbabilities_closes_figures two_class_probs two_class_probs_shape
              (fresh_world ∅ ∅) (two_class_probs_dirs _))
    as (w' & Hrun & Hfigs & _).
  exists w'. split; [exact Hrun | exact Hfigs].
Defined.

(* ------------------------------------------------------------------ *)
(** ** [make_keras_picklable]: each hook on its own *)

Section KerasHooks.
Variables (model_dict weights : Type).
Variable save_bytes : model_dict -> list Byte.byte.
Variable load_bytes : list Byte.byte -> result model_dict.

Local Abbreviation kstate := (kstate model_dict).
Local Abbreviation patched := (make_keras_picklable model_dict).

(** The temporary file of [__setstate__], once the state's bytes are written
    and flushed: it holds exactly these bytes, and closing it gives back the
    disk as it was. *)
Lemma setstate_tmpfile (d : disk) (bytes : list Byte.byte) :
  let '(fd, d1) := NamedTemporaryFile d in
  let '(fd2, d2) := fd_flush (fd_write fd bytes) d1 in
  d2 !! tmp_name fd2 = Some bytes /\ tmp_close fd2 d2 = d /\ tmp_close fd d1 = d.
Proof.
  unfold NamedTemporaryFile, fd_write, fd_flush, tmp_close, fd_flush.
  cbn -[insert fresh].
  set (name := fresh (dom d)).
  assert (Hfresh : d !! name = None) by (apply not_elem_of_dom, is_fresh).
  rewrite !lookup_insert_eq. cbn -[insert fresh].
  rewrite drop_nil, app_nil_r, !insert_insert_eq.
  split; [reflexivity|]. split; now apply delete_insert_id.
Qed.

(** X15.  Capturing a model changes nothing: the file [save_model] wrote is gone
    again, no other file and no object has changed, and the state returned
    holds, under the one key [model_str], exactly the bytes [save_model]
    wrote. *)
Theorem capture_leaves_no_trace (self : loc) (m : model_dict) (s : kstate) :
  objects _ s !! self = Some m ->
  capture _ save_bytes self (patched s)
  = (patched s, Ok {[ "model_str" := save_bytes m ]}).
Proof.
  intros Hself.
  assert (Hself' : objects _ (patched s) !! self = Some m) by exact Hself.
  unfold capture. simpl cls_getstate. cbv iota.
  exact (getstate_spec model_dict save_bytes self m (patched s) Hself').
Qed.

(** X16.  Restoring from a state without the key [model_str] raises [KeyError]
    and changes nothing: the temporary file is removed on the way out and
    the object keeps its attributes. *)
Theorem restore_missing_key (target : loc) (state : gmap string (list Byte.byte))
  (s : kstate) :
  state !! "model_str" = None ->
  restore _ load_bytes target state (patched s) = (patched s, Raise KeyError).
Proof.
  intros Hkey. unfold restore. simpl cls_setstate. cbv iota.
  unfold __setstate__.
  pose proof (setstate_tmpfile (files_of _ (patched s)) []) as Htmp.
  destruct (NamedTemporaryFile (files_of _ (patched s))) as [fd d1].
  destruct (fd_flush (fd_write fd []) d1) as [fd2 d2].
  destruct Htmp as (_ & _ & Hclose).
  rewrite Hkey, Hclose. reflexivity.
Qed.

(** X17.  When [load_model] fails on the state's bytes, restoring raises that
    error and changes nothing: the temporary file is removed and the object
    keeps its attributes. *)
Theorem restore_load_error (target : loc) (state : gmap string (list Byte.byte))
  (bytes : list Byte.byte) (e : exn) (s : kstate) :
  state !! "model_str" = Some bytes ->
  load_bytes bytes = Raise e ->
  restore _ load_bytes target state (patched s) = (patched s, Raise e).
Proof.
  intros Hkey Hload. unfold restore. simpl cls_setstate. cbv iota.
  unfold __setstate__.
  pose proof (setstate_tmpfile (files_of _ (patched s)) bytes) as Htmp.
  destruct (NamedTemporaryFile (files_of _ (patched s))) as [fd d1].
  rewrite Hkey.
  destruct (fd_flush (fd_write fd bytes) d1) as [fd2 d2].
  destruct Htmp as (Hfile & Hclose & _).
  unfold load_model. rewrite Hfile, Hload, Hclose. reflexivity.
Qed.

(** X18.  Restoring replaces the whole attribute dictionary of the target by that
    of the model [load_model] builds from the state's bytes, whatever the
    target held before (also when it held nothing: a new object); the other
    objects and the disk are as before. *)
Theorem restore_replaces_dict (target : loc) (state : gmap string (list Byte.byte))
  (bytes : list Byte.byte) (m' : model_dict) (s : kstate) :
  state !! "model_str" = Some bytes ->
  load_bytes bytes = Ok m' ->
  exists s',
    restore _ load_bytes target state (patched s) = (s', Ok tt) /\
    objects _ s' = <[target := m']> (objects _ s) /\
    objects _ s' !! target = Some m' /\
    (forall l, l ≠ target -> objects _ s' !! l = objects _ s !! l) /\
    files_of _ s' = files_of _ s /\
    Model _ s' = Model _ (patched s).
Proof.
  intros Hkey Hload. unfold restore. simpl cls_setstate. cbv iota.
  unfold __setstate__.
  pose proof (setstate_tmpfile (files_of _ (patched s)) bytes) as Htmp.
  destruct (NamedTemporaryFile (files_of _ (patched s))) as [fd d1].
  rewrite Hkey.
  destruct (fd_flush (fd_write fd bytes) d1) as [fd2 d2].
  destruct Htmp as (Hfile & Hclose & _).
  unfold load_model. rewrite Hfile, Hload, Hclose.
  eexists. split; [reflexivity|]. simpl.
  split; [reflexivity|]. split; [apply lookup_insert_eq|].
  split; [|split; reflexivity].
  intros l Hl. now rewrite lookup_insert_ne by congruence.
Qed.

End KerasHooks.

Lemma capture_leaves_no_trace_witness :
  capture _ toy_save 1%positive (make_keras_picklable _ toy_state)
  = (make_keras_picklable _ toy_state, Ok {[ "model_str" := [Byte.x01; Byte.x02] ]}).
Proof.
  exact (capture_leaves_no_trace toy_model toy_save 1%positive _ toy_state eq_refl).
Defined.

Lemma restore_missing_key_witness :
  restore _ toy_load 2%positive ∅ (make_keras_picklable _ toy_state)
  = (make_keras_picklable _ toy_state, Raise KeyError).
Proof.
  exact (restore_missing_key toy_model toy_load 2%positive ∅ toy_state eq_refl).
Defined.

Lemma restore_load_error_witness :
  restore _ (fun _ => Raise ValueError) 2%positive {[ "model_str" := [Byte.x01] ]}
    (make_keras_picklable toy_model toy_state)
  = (make_keras_picklable _ toy_state, Raise ValueError).
Proof.
  exact (restore_load_error toy_model (fun _ => Raise ValueError) 2%positive
           {[ "model_str" := [Byte.x01] ]} [Byte.x01] ValueError toy_state
           (lookup_singleton_eq _ _) eq_refl).
Defined.

Lemma restore_replaces_dict_witness :
  exists s',
    restore _ toy_load 2%positive {[ "model_str" := [Byte.x01] ]}
      (make_keras_picklable _ toy_state) = (s', Ok tt) /\
    objects _ s' !! 2%positive = Some {| toy_name := "loaded"; toy_weights := [Byte.x01] |}.
Proof.
  destruct (restore_replaces_dict toy_model toy_load 2%positive
              {[ "model_str" := [Byte.x01] ]} [Byte.x01] _ toy_state
              (lookup_singleton_eq _ _) eq_refl)
    as (s' & Hrun & _ & Htarget & _).
  exists s'. split; [exact Hrun | exact Htarget].
Defined.

(* ------------------------------------------------------------------ *)
(** ** [plot_confusion_matrix]: what is drawn on the current axes *)

(** A pyplot call on the current axes appends to what is drawn on it,
    creating the figure and the axes when there is none. *)
Lemma plt_call_drawn (c : ax_cmd) (w : world) :
  exists w', plt_call c w = (w', Ok tt) /\
             drawn w' = drawn w ++ [c] /\ heap w' = heap w.
Proof.
  assert (H : exists w', plt_call c w = (w', Ok tt) /\ drawn w' = drawn w ++ [c]).
  { destruct (figs w) as [|[num f] rest] eqn:Hfigs.
    - eexists. split.
      + unfold plt_call, plt_gca, plt_gcf, plt_figure.
        rewrite !py_bind_unfold, Hfigs. simpl. reflexivity.
      + unfold drawn, current_axes. rewrite Hfigs. reflexivity.
    - destruct (fig_axes f) as [|a axs] eqn:Haxes.
      + eexists. split.
        * unfold plt_call, plt_gca, plt_gcf.
          rewrite !py_bind_unfold, Hfigs. simpl. rewrite Haxes.
          unfold plt_subplot, plt_gcf. rewrite py_bind_unfold, Hfigs. simpl.
          unfold axes_at. rewrite Haxes. simpl. rewrite Hfigs.
          reflexivity.
        * unfold drawn, current_axes. rewrite Hfigs. simpl. rewrite Haxes. simpl.
          destruct (decide (num = num)); [|congruence]. reflexivity.
      + eexists. split.
        * unfold plt_call.
          rewrite (py_bind_ok _ _ _ _ _ (plt_gca_current w num f a axs rest Hfigs Haxes)).
          reflexivity.
        * unfold drawn, current_axes. simpl. rewrite Hfigs. simpl.
          destruct (decide (num = num)); [|congruence]. simpl. rewrite Haxes. simpl.
          destruct (decide (ax_id a = ax_id a)); [|congruence]. reflexivity. }
  destruct H as (w' & Hrun & Hd). exists w'. split; [exact Hrun|]. split; [exact Hd|].
  destruct (plot_only_plt_call c w) as [Hheap _]. now rewrite Hrun in Hheap.
Qed.

(** A pyplot call on the current figure leaves what is drawn on the current
    axes as it is. *)
Lemma plt_fig_call_drawn (c : fig_cmd) (w : world) :
  exists w', plt_fig_call c w = (w', Ok tt) /\
             drawn w' = drawn w /\ heap w' = heap w.
Proof.
  assert (H : exists w', plt_fig_call c w = (w', Ok tt) /\ drawn w' = drawn w).
  { destruct (figs w) as [|[num f] rest] eqn:Hfigs.
    - eexists. split.
      + unfold plt_fig_call, plt_gcf, plt_figure. rewrite py_bind_unfold, Hfigs.
        reflexivity.
      + unfold drawn, current_axes. rewrite Hfigs. reflexivity.
    - eexists. split.
      + unfold plt_fig_call, plt_gcf. rewrite py_bind_unfold, Hfigs. simpl.
        unfold set_current_figure, update. rewrite Hfigs. reflexivity.
      + unfold drawn, current_axes. rewrite Hfigs. reflexivity. }
  destruct H as (w' & Hrun & Hd). exists w'. split; [exact Hrun|]. split; [exact Hd|].
  destruct (plot_only_plt_fig_call c w) as [Hheap _]. now rewrite Hrun in Hheap.
Qed.

Lemma for_each_drawn {A : Type} (xs : list A) (body : A -> py unit) (g : A -> ax_cmd) :
  (forall x, x ∈ xs -> forall w, exists w',
     body x w = (w', Ok tt) /\ drawn w' = drawn w ++ [g x] /\ heap w' = heap w) ->
  forall w, exists w',
    for_each xs body w = (w', Ok tt) /\
    drawn w' = drawn w ++ map g xs /\ heap w' = heap w.
Proof.
  induction xs as [|x xs IH]; intros Hbody w.
  - exists w. split; [reflexivity|]. split; [now rewrite app_nil_r | reflexivity].
  - destruct (Hbody x ltac:(left) w) as (w1 & Hrun1 & Hd1 & Hh1).
    destruct (IH (fun y Hy => Hbody y ltac:(now right)) w1) as (w' & Hrun & Hd & Hh).
    exists w'. simpl for_each. rewrite (py_bind_ok _ _ _ _ _ Hrun1).
    split; [exact Hrun|]. split; [|congruence].
    rewrite Hd, Hd1, <- app_assoc. reflexivity.
Qed.

(** Row-major order: cell [(i, j)] is the [(i * columns + j)]-th pair of the
    product of the two ranges. *)
Lemma list_prod_lookup {A B : Type} (l1 : list A) (l2 : list B) (i j : nat) (x : A) (y : B) :
  l1 !! i = Some x -> l2 !! j = Some y ->
  list_prod l1 l2 !! (i * length l2 + j) = Some (x, y).
Proof.
  revert i. induction l1 as [|x0 l1 IH]; intros i Hx Hy; [now rewrite lookup_nil in Hx|].
  simpl. destruct i as [|i]; simpl in *.
  - injection Hx as ->. rewrite lookup_app_l.
    + now rewrite list_lookup_fmap, Hy.
    + rewrite length_map. eapply lookup_lt_Some; eauto.
  - rewrite lookup_app_r by (rewrite length_map; lia).
    rewrite length_map.
    replace (length l2 + i * length l2 + j - length l2) with (i * length l2 + j) by lia.
    now apply IH.
Qed.

(** The part after [imshow] on an array whose cells can all be read and
    formatted: title, ticks, one text per cell in row-major order, labels. *)
Lemma annotate_drawn (l : loc) (a : ndarray) (classes : list string)
  (normalize : bool) (title : string) (mx : scalar) (C : nat)
  (cellf : nat * nat -> ax_cmd) (w : world) :
  heap w !! l = Some a -> ndarray_max a = Ok mx -> shape1 a = Ok C ->
  (forall i j, i < shape0 a -> j < C ->
     exists v s, getitem2 a i j = Ok v /\
       py_format v (if normalize then ".2f" else "d") = Ok s /\
       cellf (i, j) = Text j i s "center"
         (if f64_ltb (f64_div (scalar_to_f64 mx) (f64_of_Z 2)) (scalar_to_f64 v)
          then "white" else "black")) ->
  exists w',
    annotate l classes normalize title w = (w', Ok tt) /\
    drawn w' = drawn w ++
      [SetTitle title; SetXticks (tick_marks classes) classes 45;
       SetYticks (tick_marks classes) classes] ++
      map cellf (list_prod (seq 0 (shape0 a)) (seq 0 C)) ++
      [SetYlabel "True label"; SetXlabel "Predicted label"] /\
    heap w' = heap w.
Proof.
  intros Hl Hmx HC Hcells. unfold annotate. cbv zeta. fold (tick_marks classes).
  destruct (plt_call_drawn (SetTitle title) w) as (w1 & R1 & D1 & H1).
  rewrite (py_bind_ok _ _ _ _ _ R1).
  destruct (plt_fig_call_drawn Colorbar w1) as (w2 & R2 & D2 & H2).
  rewrite (py_bind_ok _ _ _ _ _ R2).
  destruct (plt_call_drawn (SetXticks (tick_marks classes) classes 45) w2)
    as (w3 & R3 & D3 & H3).
  rewrite (py_bind_ok _ _ _ _ _ R3).
  destruct (plt_call_drawn (SetYticks (tick_marks classes) classes) w3)
    as (w4 & R4 & D4 & H4).
  rewrite (py_bind_ok _ _ _ _ _ R4).
  assert (Hl4 : heap w4 !! l = Some a) by (rewrite H4, H3, H2, H1; exact Hl).
  rewrite (py_bind_ok _ _ _ _ _ (np_get_ok _ _ _ Hl4)).
  rewrite (py_bind_ok _ _ _ _ _ (lift_ok _ _ w4 Hmx)).
  rewrite (py_bind_ok _ _ _ _ _ (lift_ok _ _ w4 HC)).
  match goal with
  | |- context [for_each ?xs ?body] =>
      destruct (for_each_drawn xs body cellf) with (w := w4) as (w5 & R5 & D5 & H5)
  end.
  { intros [i j] Hij w0. apply list_elem_of_In, in_prod_iff in Hij.
    destruct Hij as [Hi Hj]. apply in_seq in Hi. apply in_seq in Hj.
    destruct (Hcells i j ltac:(lia) ltac:(lia)) as (v & s & Hv & Hs & ->).
    rewrite (py_bind_ok _ _ _ _ _ (lift_ok _ _ w0 Hv)).
    rewrite (py_bind_ok _ _ _ _ _ (lift_ok _ _ w0 Hs)).
    apply plt_call_drawn. }
  rewrite (py_bind_ok _ _ _ _ _ R5).
  destruct (plt_fig_call_drawn TightLayout w5) as (w6 & R6 & D6 & H6).
  rewrite (py_bind_ok _ _ _ _ _ R6).
  destruct (plt_call_drawn (SetYlabel "True label") w6) as (w7 & R7 & D7 & H7).
  rewrite (py_bind_ok _ _ _ _ _ R7).
  destruct (plt_call_drawn (SetXlabel "Predicted label") w7) as (w8 & R8 & D8 & H8).
  exists w8. split; [exact R8|]. split; [|congruence].
  rewrite D8, D7, D6, D5, D4, D3, D2, D1. rewrite <- !app_assoc. reflexivity.
Qed.

Lemma matrix_cell {A : Type} (rows : list (list A)) (C i j : nat) :
  Forall (fun row => length row = C) rows -> i < length rows -> j < C ->
  exists row x, rows !! i = Some row /\ row !! j = Some x.
Proof.
  intros Hrect Hi Hj.
  destruct (lookup_lt_is_Some_2 rows i Hi) as [row Hrow].
  pose proof (Forall_lookup_1 _ _ _ _ Hrect Hrow) as Hlen. simpl in Hlen.
  destruct (lookup_lt_is_Some_2 row j ltac:(lia)) as [x Hx].
  now exists row, x.
Qed.

Lemma max_of_nonempty {A : Type} (mx : A -> A -> A) (xs : list A) :
  xs ≠ [] -> exists m, max_of mx xs = Ok m.
Proof. destruct xs; [congruence | simpl; eauto]. Qed.

(** A non-empty rectangular matrix of counts, shown as it is or normalised:
    its shape, its maximum and its cells, as [plot_confusion_matrix] reads
    them. *)
Lemma confusion_cells (rows : list (list Z)) (row0 : list Z) (normalize : bool) :
  head rows = Some row0 -> row0 ≠ [] ->
  Forall (fun row => length row = length row0) rows ->
  let D := if normalize then Float2 (normalized_rows rows) else Int2 rows in
  let fmt := if normalize then ".2f" else "d" in
  shape0 D = length rows /\
  shape1 D = Ok (length row0) /\
  (exists mx, ndarray_max D = Ok mx) /\
  (forall i j, i < length rows -> j < length row0 ->
     exists v, getitem2 D i j = Ok v /\ py_format v fmt = Ok (Formatted v fmt)).
Proof.
  intros Hhead Hne Hrect D fmt.
  destruct normalize; subst D fmt; cbn [shape0 shape1 ndarray_max getitem2].
  - split; [apply length_map|]. split; [|split].
    + destruct rows as [|r rows']; [discriminate|]. injection Hhead as ->.
      simpl. now rewrite length_map.
    + destruct (max_of_nonempty f64_maximum (concat (normalized_rows rows)))
        as [m ->]; [|simpl; eauto].
      destruct rows as [|r rows']; [discriminate|]. injection Hhead as ->.
      destruct row0; [congruence | discriminate].
    + intros i j Hi Hj.
      destruct (matrix_cell rows (length row0) i j Hrect Hi Hj)
        as (row & x & Hrow & Hx).
      unfold getitem. rewrite (normalized_rows_lookup rows i row Hrow). simpl.
      rewrite list_lookup_fmap, Hx. simpl. eexists. split; reflexivity.
  - split; [reflexivity|]. split; [|split].
    + now rewrite Hhead.
    + destruct (max_of_nonempty Z.max (concat rows)) as [m ->]; [|simpl; eauto].
      destruct rows as [|r rows']; [discriminate|]. injection Hhead as ->.
      destruct row0; [congruence | discriminate].
    + intros i j Hi Hj.
      destruct (matrix_cell rows (length row0) i j Hrect Hi Hj)
        as (row & x & Hrow & Hx).
      unfold getitem. rewrite Hrow. simpl. rewrite Hx. simpl.
      eexists. split; reflexivity.
Qed.

(** Up to [plt.imshow]: the matrix to show is in the heap, printed, and no
    figure has been touched. *)
Lemma plot_confusion_matrix_head (cm : loc) (rows : list (list Z))
  (classes : list string) (normalize : bool) (title cmap : string) (w : world) :
  heap w !! cm = Some (Int2 rows) ->
  let D := if normalize then Float2 (normalized_rows rows) else Int2 rows in
  exists (l : loc) (w2 : world),
    heap w2 !! l = Some D /\ figs w2 = figs w /\ heap w ⊆ heap w2 /\
    plot_confusion_matrix cm classes normalize title cmap w
    = (plt_call (Imshow D "nearest" cmap);; annotate l classes normalize title) w2.
Proof.
  intros Hcm D. unfold plot_confusion_matrix. destruct normalize.
  - destruct (normalized_spec cm rows w Hcm) as (l & h' & Hrun & Hl & Hsub & _).
    exists l, (add_stdout (PrintArray D)
                 (add_stdout (PrintStr "Normalized confusion matrix") (set_heap h' w))).
    split; [exact Hl|]. split; [reflexivity|]. split; [exact Hsub|].
    assert (H1 : (cm' ← normalized cm;
                  print (PrintStr "Normalized confusion matrix");; mret cm') w
                 = (add_stdout (PrintStr "Normalized confusion matrix")
                      (set_heap h' w), Ok l)).
    { now rewrite (py_bind_ok _ _ _ _ _ Hrun). }
    rewrite (py_bind_ok _ _ _ _ _ H1).
    rewrite (py_bind_ok _ _ _ _ D) by (apply np_get_ok; exact Hl).
    assert (H2 : print (PrintArray D)
                   (add_stdout (PrintStr "Normalized confusion matrix") (set_heap h' w))
                 = (add_stdout (PrintArray D)
                      (add_stdout (PrintStr "Normalized confusion matrix")
                         (set_heap h' w)), Ok tt)) by reflexivity.
    rewrite (py_bind_ok _ _ _ _ _ H2).
    now rewrite (py_bind_ok _ _ _ _ D) by (apply np_get_ok; exact Hl).
  - exists cm, (add_stdout (PrintArray D)
                  (add_stdout (PrintStr "Confusion matrix, without normalization") w)).
    split; [exact Hcm|]. split; [reflexivity|]. split; [reflexivity|].
    assert (H1 : (print (PrintStr "Confusion matrix, without normalization");;
                  mret cm) w
                 = (add_stdout (PrintStr "Confusion matrix, without normalization") w,
                    Ok cm)) by reflexivity.
    rewrite (py_bind_ok _ _ _ _ _ H1).
    rewrite (py_bind_ok _ _ _ _ D) by (apply np_get_ok; exact Hcm).
    assert (H2 : print (PrintArray D)
                   (add_stdout (PrintStr "Confusion matrix, without normalization") w)
                 = (add_stdout (PrintArray D)
                      (add_stdout (PrintStr "Confusion matrix, without normalization") w),
                    Ok tt)) by reflexivity.
    rewrite (py_bind_ok _ _ _ _ _ H2).
    now rewrite (py_bind_ok _ _ _ _ D) by (apply np_get_ok; exact Hcm).
Qed.

(** The whole call on a non-empty rectangular matrix of counts: it returns,
    and the calls it makes on the current axes are the image, the title, the
    ticks, the cell texts in row-major order and the axis labels. *)
Lemma plot_confusion_matrix_drawn (cm : loc) (rows : list (list Z))
  (row0 : list Z) (classes : list string) (normalize : bool) (title cmap : string)
  (w : world) :
  heap w !! cm = Some (Int2 rows) ->
  head rows = Some row0 -> row0 ≠ [] ->
  Forall (fun row => length row = length row0) rows ->
  let D := if normalize then Float2 (normalized_rows rows) else Int2 rows in
  let fmt := if normalize then ".2f" else "d" in
  exists (w' : world) (mx : scalar) (texts : list ax_cmd),
    plot_confusion_matrix cm classes normalize title cmap w = (w', Ok tt) /\
    ndarray_max D = Ok mx /\
    drawn w' = drawn w ++
      [Imshow D "nearest" cmap; SetTitle title;
       SetXticks (tick_marks classes) classes 45;
       SetYticks (tick_marks classes) classes] ++
      texts ++ [SetYlabel "True label"; SetXlabel "Predicted label"] /\
    Forall2 (fun ij c =>
               cell_command D fmt (f64_div (scalar_to_f64 mx) (f64_of_Z 2)) ij = Ok c)
            (list_prod (seq 0 (length rows)) (seq 0 (length row0))) texts.
Proof.
  intros Hcm Hhead Hne Hrect D fmt.
  destruct (confusion_cells rows row0 normalize Hhead Hne Hrect)
    as (Hs0 & Hs1 & [mx Hmx] & Hcells).
  fold D in Hs0, Hs1, Hmx, Hcells. fold fmt in Hcells.
  destruct (plot_confusion_matrix_head cm rows classes normalize title cmap w Hcm)
    as (l & w2 & Hl & Hfigs & _ & Hrun).
  fold D in Hl, Hrun. rewrite Hrun.
  destruct (plt_call_drawn (Imshow D "nearest" cmap) w2) as (w3 & R3 & D3 & H3).
  rewrite (py_bind_ok _ _ _ _ _ R3).
  set (thresh := f64_div (scalar_to_f64 mx) (f64_of_Z 2)).
  set (cellf := fun ij : nat * nat =>
    match cell_command D fmt thresh ij with
    | Ok c => c
    | Raise _ => SetTitle ""
    end).
  assert (Hcmd : forall i j, i < length rows -> j < length row0 ->
    exists c, cell_command D fmt thresh (i, j) = Ok c /\ cellf (i, j) = c).
  { intros i j Hi Hj. destruct (Hcells i j Hi Hj) as (v & Hv & Hfmt).
    unfold cellf, cell_command. simpl. rewrite Hv. simpl. rewrite Hfmt. simpl. eauto. }
  destruct (annotate_drawn l D classes normalize title mx (length row0) cellf w3)
    as (w' & Hann & Hd & _); [now rewrite H3 | exact Hmx | exact Hs1 | |].
  { intros i j Hi Hj. rewrite Hs0 in Hi.
    destruct (Hcells i j Hi Hj) as (v & Hv & Hfmt).
    exists v, (Formatted v fmt). split; [exact Hv|]. split; [exact Hfmt|].
    unfold cellf, cell_command. simpl. rewrite Hv. simpl. now rewrite Hfmt. }
  exists w', mx, (map cellf (list_prod (seq 0 (length rows)) (seq 0 (length row0)))).
  split; [exact Hann|]. split; [exact Hmx|]. split.
  - rewrite Hd, D3, Hs0. unfold drawn, current_axes. rewrite Hfigs.
    rewrite <- !app_assoc. reflexivity.
  - apply Forall2_fmap_r, Forall_Forall2_diag, Forall_forall.
    intros [i j] Hij. apply list_elem_of_In, in_prod_iff in Hij.
    destruct Hij as [Hi Hj]. apply in_seq in Hi. apply in_seq in Hj.
    destruct (Hcmd i j ltac:(lia) ltac:(lia)) as (c & Hc & Hf).
    unfold compose. rewrite Hf. exact Hc.
Qed.

(** X19.  On a non-empty rectangular matrix of counts the call returns normally,
    and what it draws on the current axes is, in this order: the image, the
    title, the ticks, one text per cell, the two axis labels.  The texts come
    in row-major order; the text of cell [(i, j)] stands at [x = j], [y = i],
    shows that cell's value (of the normalised matrix when [normalize] is
    set) in the format ['.2f'] or ['d'], and is white exactly when the value
    exceeds half the matrix's maximum. *)
Theorem plot_confusion_matrix_annotations (cm : loc) (rows : list (list Z))
  (row0 : list Z) (classes : list string) (normalize : bool) (title cmap : string)
  (w : world) :
  heap w !! cm = Some (Int2 rows) ->
  head rows = Some row0 -> row0 ≠ [] ->
  Forall (fun row => length row = length row0) rows ->
  let D := if normalize then Float2 (normalized_rows rows) else Int2 rows in
  let fmt := if normalize then ".2f" else "d" in
  exists (w' : world) (mx : scalar) (texts : list ax_cmd),
    plot_confusion_matrix cm classes normalize title cmap w = (w', Ok tt) /\
    ndarray_max D = Ok mx /\
    drawn w' = drawn w ++
      [Imshow D "nearest" cmap; SetTitle title;
       SetXticks (tick_marks classes) classes 45;
       SetYticks (tick_marks classes) classes] ++
      texts ++ [SetYlabel "True label"; SetXlabel "Predicted label"] /\
    length texts = length rows * length row0 /\
    (forall i j, i < length rows -> j < length row0 ->
       exists v, getitem2 D i j = Ok v /\
         texts !! (i * length row0 + j) =
         Some (Text j i (Formatted v fmt) "center"
                 (if f64_ltb (f64_div (scalar_to_f64 mx) (f64_of_Z 2)) (scalar_to_f64 v)
                  then "white" else "black"))).
Proof.
  intros Hcm Hhead Hne Hrect D fmt.
  destruct (plot_confusion_matrix_drawn cm rows row0 classes normalize title cmap w
              Hcm Hhead Hne Hrect) as (w' & mx & texts & Hrun & Hmx & Hd & Hcells).
  fold D in Hmx, Hd, Hcells. fold fmt in Hcells.
  exists w', mx, texts. split; [exact Hrun|]. split; [exact Hmx|]. split; [exact Hd|].
  pose proof (Forall2_length _ _ _ Hcells) as Hlen.
  rewrite length_prod, !length_seq in Hlen.
  split; [now rewrite <- Hlen|].
  intros i j Hi Hj.
  pose proof (list_prod_lookup (seq 0 (length rows)) (seq 0 (length row0)) i j i j
                (lookup_seq_lt _ _ _ Hi) (lookup_seq_lt _ _ _ Hj)) as Hij.
  rewrite length_seq in Hij.
  destruct (Forall2_lookup_l _ _ _ _ _ Hcells Hij) as (c & Hc & Hcmd).
  unfold cell_command in Hcmd. simpl in Hcmd.
  destruct (confusion_cells rows row0 normalize Hhead Hne Hrect)
    as (_ & _ & _ & Hread).
  destruct (Hread i j Hi Hj) as (v & Hv & Hfmt).
  fold D in Hv. fold fmt in Hfmt.
  rewrite Hv in Hcmd. simpl in Hcmd. rewrite Hfmt in Hcmd. simpl in Hcmd.
  injection Hcmd as <-. exists v. split; [exact Hv | exact Hc].
Qed.

(* ------------------------------------------------------------------ *)
(** ** [plot_confusion_matrix]: NaN entries and float matrices *)

Lemma foldl_maximum_nan (xs : list float64) : forall x : float64,
  is_nan x = true \/ Exists (fun y => is_nan y = true) xs ->
  is_nan (foldl f64_maximum x xs) = true.
Proof.
  induction xs as [|y xs IH]; intros x [Hx|Hxs]; simpl.
  - exact Hx.
  - inversion Hxs.
  - apply IH. left. unfold f64_maximum. now rewrite Hx.
  - apply IH. inversion Hxs as [? ? Hy|? ? Hxs']; subst.
    + left. unfold f64_maximum. destruct (is_nan x) eqn:Ex; [exact Ex|]. now rewrite Hy.
    + now right.
Qed.

Lemma max_of_nan (xs : list float64) (m : float64) :
  max_of f64_maximum xs = Ok m ->
  Exists (fun y => is_nan y = true) xs -> m = S754_nan.
Proof.
  destruct xs as [|x xs]; [discriminate|]. simpl. intros [= <-] Hex.
  assert (H : is_nan (foldl f64_maximum x xs) = true).
  { apply foldl_maximum_nan. inversion Hex; subst; [now left | now right]. }
  now destruct (foldl f64_maximum x xs).
Qed.

Lemma cell_command_black (a : ndarray) (fmt : string) (y : float64)
  (ij : nat * nat) (c : ax_cmd) :
  cell_command a fmt (f64_div S754_nan y) ij = Ok c -> text_color c = Some "black".
Proof.
  unfold cell_command.
  destruct (getitem2 a ij.1 ij.2) as [v|]; simpl; [|discriminate].
  destruct (py_format v fmt) as [s|]; simpl; [|discriminate].
  intros [= <-]. simpl. now destruct y.
Qed.

(** X20.  When a row that sums to zero holds a zero, the normalised matrix holds a
    NaN; then the maximum is NaN, so is the threshold, no cell "exceeds" it,
    and every cell text of the plot is black, also in the rows that are
    fine. *)
Theorem plot_confusion_matrix_nan_all_black (cm : loc) (rows : list (list Z))
  (row0 row : list Z) (i j : nat) (classes : list string) (title cmap : string)
  (w : world) :
  heap w !! cm = Some (Int2 rows) ->
  head rows = Some row0 -> row0 ≠ [] ->
  Forall (fun row => length row = length row0) rows ->
  rows !! i = Some row -> row_sum row = 0%Z -> row !! j = Some 0%Z ->
  exists (w' : world) (texts : list ax_cmd),
    plot_confusion_matrix cm classes true title cmap w = (w', Ok tt) /\
    ndarray_max (Float2 (normalized_rows rows)) = Ok (SFloat S754_nan) /\
    drawn w' = drawn w ++
      [Imshow (Float2 (normalized_rows rows)) "nearest" cmap; SetTitle title;
       SetXticks (tick_marks classes) classes 45;
       SetYticks (tick_marks classes) classes] ++
      texts ++ [SetYlabel "True label"; SetXlabel "Predicted label"] /\
    length texts = length rows * length row0 /\
    Forall (fun c => text_color c = Some "black") texts.
Proof.
  intros Hcm Hhead Hne Hrect Hrow Hsum Hx.
  destruct (plot_confusion_matrix_drawn cm rows row0 classes true title cmap w
              Hcm Hhead Hne Hrect) as (w' & mx & texts & Hrun & Hmx & Hd & Hcells).
  cbv zeta in *.
  assert (Hnan : mx = SFloat S754_nan).
  { simpl in Hmx.
    destruct (max_of f64_maximum (concat (normalized_rows rows))) as [m|] eqn:Em;
      [|discriminate].
    simpl in Hmx. injection Hmx as <-. f_equal.
    apply (max_of_nan _ _ Em). apply Exists_exists. exists S754_nan.
    split; [|reflexivity].
    apply list_elem_of_In, in_concat.
    exists (map (fun x => f64_div (f64_of_Z x) (f64_of_Z (row_sum row))) row).
    split.
    - apply list_elem_of_In. eapply list_elem_of_lookup_2.
      exact (normalized_rows_lookup rows i row Hrow).
    - apply list_elem_of_In. eapply (list_elem_of_lookup_2 _ j).
      rewrite list_lookup_fmap, Hx, Hsum. reflexivity. }
  subst mx.
  exists w', texts. split; [exact Hrun|]. split; [exact Hmx|]. split; [exact Hd|].
  split.
  - rewrite <- (Forall2_length _ _ _ Hcells). now rewrite length_prod, !length_seq.
  - apply Forall_forall. intros c Hc.
    apply list_elem_of_lookup_1 in Hc. destruct Hc as [k Hk].
    destruct (Forall2_lookup_r _ _ _ _ _ Hcells Hk) as (ij & _ & Hcmd).
    exact (cell_command_black _ _ _ _ _ Hcmd).
Qed.

(** Without [normalize], [imshow] gets the caller's array whatever it holds. *)
Lemma plot_confusion_matrix_head_plain (cm : loc) (a : ndarray)
  (classes : list string) (title cmap : string) (w : world) :
  heap w !! cm = Some a ->
  exists w2 : world,
    heap w2 = heap w /\ figs w2 = figs w /\
    stdout w2 = stdout w ++ [PrintStr "Confusion matrix, without normalization";
                             PrintArray a] /\
    plot_confusion_matrix cm classes false title cmap w
    = (plt_imshow a "nearest" cmap;; annotate cm classes false title) w2.
Proof.
  intros Hcm. unfold plot_confusion_matrix.
  exists (add_stdout (PrintArray a)
            (add_stdout (PrintStr "Confusion matrix, without normalization") w)).
  split; [reflexivity|]. split; [reflexivity|].
  split; [simpl; now rewrite <- app_assoc|].
  assert (H1 : (print (PrintStr "Confusion matrix, without normalization");;
                mret cm) w
               = (add_stdout (PrintStr "Confusion matrix, without normalization") w,
                  Ok cm)) by reflexivity.
  rewrite (py_bind_ok _ _ _ _ _ H1).
  rewrite (py_bind_ok _ _ _ _ a) by (apply np_get_ok; exact Hcm).
  assert (H2 : print (PrintArray a)
                 (add_stdout (PrintStr "Confusion matrix, without normalization") w)
               = (add_stdout (PrintArray a)
                    (add_stdout (PrintStr "Confusion matrix, without normalization") w),
                  Ok tt)) by reflexivity.
  rewrite (py_bind_ok _ _ _ _ _ H2).
  now rewrite (py_bind_ok _ _ _ _ a) by (apply np_get_ok; exact Hcm).
Qed.

(** X21.  A float matrix (one the caller has normalised already, say) with
    [normalize] left unset makes the call raise [ValueError]: the format
    ['d'] does not take a float.  This happens at the first cell, after the
    matrix has been printed and shown with its title and ticks; no cell text
    and no axis label is drawn. *)
Theorem plot_confusion_matrix_float_unnormalized (cm : loc)
  (rows : list (list float64)) (row0 : list float64) (classes : list string)
  (title cmap : string) (w : world) :
  heap w !! cm = Some (Float2 rows) ->
  head rows = Some row0 -> row0 ≠ [] ->
  exists w' : world,
    plot_confusion_matrix cm classes false title cmap w = (w', Raise ValueError) /\
    printed_matrix w' = Some (Float2 rows) /\
    drawn w' = drawn w ++
      [Imshow (Float2 rows) "nearest" cmap; SetTitle title;
       SetXticks (tick_marks classes) classes 45;
       SetYticks (tick_marks classes) classes].
Proof.
  intros Hcm Hhead Hne.
  destruct rows as [|r rows']; [discriminate|]. injection Hhead as ->.
  destruct row0 as [|x0 row0']; [congruence|].
  set (a := Float2 ((x0 :: row0') :: rows')) in *.
  destruct (plot_confusion_matrix_head_plain cm a classes title cmap w Hcm)
    as (w2 & Hh2 & Hf2 & Ho2 & Hrun).
  rewrite Hrun. rewrite (plt_imshow_2d a) by reflexivity.
  destruct (plt_call_drawn (Imshow a "nearest" cmap) w2) as (w3 & R3 & D3 & H3).
  rewrite (py_bind_ok _ _ _ _ _ R3).
  unfold annotate. cbv zeta. fold (tick_marks classes).
  destruct (plt_call_drawn (SetTitle title) w3) as (w4 & R4 & D4 & H4).
  rewrite (py_bind_ok _ _ _ _ _ R4).
  destruct (plt_fig_call_drawn Colorbar w4) as (w5 & R5 & D5 & H5).
  rewrite (py_bind_ok _ _ _ _ _ R5).
  destruct (plt_call_drawn (SetXticks (tick_marks classes) classes 45) w5)
    as (w6 & R6 & D6 & H6).
  rewrite (py_bind_ok _ _ _ _ _ R6).
  destruct (plt_call_drawn (SetYticks (tick_marks classes) classes) w6)
    as (w7 & R7 & D7 & H7).
  rewrite (py_bind_ok _ _ _ _ _ R7).
  assert (Hl7 : heap w7 !! cm = Some a) by (rewrite H7, H6, H5, H4, H3, Hh2; exact Hcm).
  rewrite (py_bind_ok _ _ _ _ _ (np_get_ok _ _ _ Hl7)).
  assert (Hmax : exists mx, ndarray_max a = Ok mx) by (simpl; eauto).
  destruct Hmax as [mx Hmx].
  rewrite (py_bind_ok _ _ _ _ _ (lift_ok _ _ w7 Hmx)).
  assert (HC : shape1 a = Ok (S (length row0'))) by reflexivity.
  rewrite (py_bind_ok _ _ _ _ _ (lift_ok _ _ w7 HC)).
  exists w7. split; [|split].
  - reflexivity.
  - unfold printed_matrix.
    assert (Hout : stdout w7 = stdout w2).
    { destruct (plot_only_plt_call (Imshow a "nearest" cmap) w2) as [_ E3].
      destruct (plot_only_plt_call (SetTitle title) w3) as [_ E4].
      destruct (plot_only_plt_fig_call Colorbar w4) as [_ E5].
      destruct (plot_only_plt_call (SetXticks (tick_marks classes) classes 45) w5)
        as [_ E6].
      destruct (plot_only_plt_call (SetYticks (tick_marks classes) classes) w6)
        as [_ E7].
      rewrite R3 in E3. rewrite R4 in E4. rewrite R5 in E5. rewrite R6 in E6.
      rewrite R7 in E7. simpl in *. congruence. }
    rewrite Hout, Ho2.
    change (stdout w ++ [?x; ?y]) with (stdout w ++ [x] ++ [y]).
    rewrite app_assoc. now rewrite last_snoc.
  - rewrite D7, D6, D5, D4, D3. unfold drawn, current_axes. rewrite Hf2.
    rewrite <- !app_assoc. reflexivity.
Qed.

(* ------------------------------------------------------------------ *)
(** ** [plot_confusion_matrix]: calls in sequence, and what is left alone *)

Lemma cell_command_text (a : ndarray) (fmt : string) (thresh : float64)
  (ij : nat * nat) (c : ax_cmd) :
  cell_command a fmt thresh ij = Ok c -> is_imshow c = false.
Proof.
  unfold cell_command.
  destruct (getitem2 a ij.1 ij.2) as [v|]; simpl; [|discriminate].
  destruct (py_format v fmt) as [s|]; simpl; [|discriminate].
  now intros [= <-].
Qed.

Lemma omap_imshow_none (cs : list ax_cmd) :
  Forall (fun c => is_imshow c = false) cs ->
  omap (fun c => match c with Imshow d _ _ => Some d | _ => None end) cs = [].
Proof.
  induction 1 as [|c cs Hc _ IH]; [reflexivity|].
  simpl. destruct c; try discriminate; exact IH.
Qed.

(** X22.  The function never opens a figure of its own when one is open: a second
    call draws on the axes of the first.  After two calls on non-empty
    rectangular matrices the current axes holds both images, the second on
    top of the first (and the texts of both). *)
Theorem plot_confusion_matrix_twice (cm1 cm2 : loc) (rows1 rows2 : list (list Z))
  (row1 row2 : list Z) (classes1 classes2 : list string) (normalize1 normalize2 : bool)
  (title1 title2 cmap1 cmap2 : string) (w : world) :
  heap w !! cm1 = Some (Int2 rows1) ->
  head rows1 = Some row1 -> row1 ≠ [] ->
  Forall (fun row => length row = length row1) rows1 ->
  heap w !! cm2 = Some (Int2 rows2) ->
  head rows2 = Some row2 -> row2 ≠ [] ->
  Forall (fun row => length row = length row2) rows2 ->
  let D1 := if normalize1 then Float2 (normalized_rows rows1) else Int2 rows1 in
  let D2 := if normalize2 then Float2 (normalized_rows rows2) else Int2 rows2 in
  exists w1 w2 : world,
    plot_confusion_matrix cm1 classes1 normalize1 title1 cmap1 w = (w1, Ok tt) /\
    plot_confusion_matrix cm2 classes2 normalize2 title2 cmap2 w1 = (w2, Ok tt) /\
    images_drawn w1 = images_drawn w ++ [D1] /\
    images_drawn w2 = images_drawn w ++ [D1; D2] /\
    length (texts_of (drawn w2))
    = length (texts_of (drawn w))
      + length rows1 * length row1 + length rows2 * length row2.
Proof.
  intros Hcm1 Hhead1 Hne1 Hrect1 Hcm2 Hhead2 Hne2 Hrect2 D1 D2.
  destruct (plot_confusion_matrix_drawn cm1 rows1 row1 classes1 normalize1 title1
              cmap1 w Hcm1 Hhead1 Hne1 Hrect1)
    as (w1 & mx1 & texts1 & Hrun1 & _ & Hd1 & Hcells1).
  assert (Hsub : heap w ⊆ heap w1).
  { assert (H0 : heap w ⊆ heap w) by reflexivity.
    pose proof (plot_confusion_matrix_subseteq (heap w) cm1 classes1 normalize1
                  title1 cmap1 w H0) as H.
    simpl in H. now rewrite Hrun1 in H. }
  pose proof (lookup_weaken _ _ _ _ Hcm2 Hsub) as Hcm2'.
  destruct (plot_confusion_matrix_drawn cm2 rows2 row2 classes2 normalize2 title2
              cmap2 w1 Hcm2' Hhead2 Hne2 Hrect2)
    as (w2 & mx2 & texts2 & Hrun2 & _ & Hd2 & Hcells2).
  cbv zeta in *. fold D1 in Hd1, Hcells1. fold D2 in Hd2, Hcells2.
  assert (Htext : forall D fmt th ijs texts,
    Forall2 (fun ij c => cell_command D fmt th ij = Ok c) ijs texts ->
    Forall (fun c => is_imshow c = false) texts /\ texts_of texts = texts).
  { intros D fmt th ijs texts H. induction H as [|ij c ijs texts Hc _ [IH1 IH2]].
    - split; [constructor | reflexivity].
    - split; [constructor; [exact (cell_command_text _ _ _ _ _ Hc)|exact IH1]|].
      unfold cell_command in Hc.
      destruct (getitem2 D ij.1 ij.2) as [v|]; simpl in Hc; [|discriminate].
      destruct (py_format v fmt) as [s|]; simpl in Hc; [|discriminate].
      injection Hc as <-. simpl. now rewrite IH2. }
  destruct (Htext _ _ _ _ _ Hcells1) as [Him1 Htx1].
  destruct (Htext _ _ _ _ _ Hcells2) as [Him2 Htx2].
  pose proof (Forall2_length _ _ _ Hcells1) as Hlen1.
  pose proof (Forall2_length _ _ _ Hcells2) as Hlen2.
  rewrite length_prod, !length_seq in Hlen1, Hlen2.
  assert (Himg1 : images_drawn w1 = images_drawn w ++ [D1]).
  { unfold images_drawn. rewrite Hd1, !omap_app, (omap_imshow_none texts1 Him1).
    reflexivity. }
  exists w1, w2. split; [exact Hrun1|]. split; [exact Hrun2|].
  split; [exact Himg1|]. split.
  - unfold images_drawn in *. rewrite Hd2, !omap_app, (omap_imshow_none texts2 Him2).
    rewrite Himg1. simpl. now rewrite <- app_assoc.
  - rewrite Hd2, Hd1. unfold texts_of. rewrite !List.filter_app.
    fold (texts_of texts1). fold (texts_of texts2). rewrite Htx1, Htx2.
    simpl. rewrite !length_app. simpl. lia.
Qed.

Section DrawsOnly.
Variables (F : gmap string figure) (S : list (string * figure)) (Dr : gset string).
Variables (had_figure : Prop) (N : list nat) (n : nat).

Local Abbreviation quiet := (draws_only F S Dr had_figure N n).

Lemma quiet_np_new a : preserves quiet (np_new a).
Proof. intros w Hw. exact Hw. Qed.

Lemma quiet_print o : preserves quiet (print o).
Proof. intros w Hw. exact Hw. Qed.

Lemma quiet_plt_gcf : preserves quiet plt_gcf.
Proof.
  intros w Hw. unfold plt_gcf.
  destruct (head (figs w)) as [nf|] eqn:Hhead; simpl; [exact Hw|].
  destruct Hw as (Hf & Hs & Hd & Hfig).
  split; [exact Hf|]. split; [|split; [exact Hd|]].
  - unfold saves in *. simpl. rewrite omap_app, Hs. simpl. apply app_nil_r.
  - intros Hb. destruct (Hfig Hb) as [Hne _].
    destruct (figs w); [congruence | discriminate].
Qed.

Lemma quiet_set_current_figure f : preserves quiet (set_current_figure f).
Proof.
  intros w Hw. simpl.
  destruct (figs w) as [|[num f'] rest] eqn:Hfigs; [exact Hw|].
  destruct Hw as (Hf & Hs & Hd & Hfig).
  split; [exact Hf|]. split; [exact Hs|]. split; [exact Hd|].
  intros Hb. destruct (Hfig Hb) as (_ & HN & Hn). rewrite Hfigs in Hn.
  split; [discriminate|]. split; [exact HN | exact Hn].
Qed.

Lemma quiet_plt_subplot r c i : preserves quiet (plt_subplot r c i).
Proof.
  unfold plt_subplot. apply preserves_bind; [apply quiet_plt_gcf|].
  intros [num f]. destruct (axes_at (r, c, i) f);
    (apply preserves_bind; [apply quiet_set_current_figure|]);
    intros _; apply preserves_ret.
Qed.

Lemma quiet_plt_gca : preserves quiet plt_gca.
Proof.
  unfold plt_gca. apply preserves_bind; [apply quiet_plt_gcf|].
  intros [num f]. destruct (fig_axes f);
    [apply quiet_plt_subplot | apply preserves_ret].
Qed.

Lemma quiet_ax_call handle c : preserves quiet (ax_call handle c).
Proof.
  intros w (Hf & Hs & Hd & Hfig). simpl.
  split; [exact Hf|]. split; [exact Hs|]. split; [exact Hd|].
  intros Hb. destruct (Hfig Hb) as (Hne & HN & Hn).
  split; [|split; [exact HN | simpl; now rewrite length_map]].
  simpl. destruct (figs w); [congruence | discriminate].
Qed.

Lemma quiet_plt_call c : preserves quiet (plt_call c).
Proof.
  unfold plt_call. apply preserves_bind; [apply quiet_plt_gca|].
  intros h. apply quiet_ax_call.
Qed.

Lemma quiet_plt_imshow a interpolation cmap :
  preserves quiet (plt_imshow a interpolation cmap).
Proof.
  unfold plt_imshow. apply preserves_bind; [apply quiet_plt_gca|].
  intros h. destruct (two_dimensional a); [apply quiet_ax_call | apply preserves_lift].
Qed.

Lemma quiet_plt_fig_call c : preserves quiet (plt_fig_call c).
Proof.
  unfold plt_fig_call. apply preserves_bind; [apply quiet_plt_gcf|].
  intros [num f]. apply quiet_set_current_figure.
Qed.

Lemma quiet_plot_confusion_matrix cm classes normalize title cmap :
  preserves quiet (plot_confusion_matrix cm classes normalize title cmap).
Proof.
  unfold plot_confusion_matrix, normalized, annotate.
  repeat first
    [ apply preserves_lift
    | apply preserves_ret
    | apply np_get_preserves
    | apply quiet_np_new
    | apply quiet_print
    | apply quiet_plt_call
    | apply quiet_plt_imshow
    | apply quiet_plt_fig_call
    | apply preserves_for_each; intros [? ?]
    | match goal with |- preserves _ (if ?b then _ else _) => destruct b end
    | apply preserves_bind; [|intros ?] ].
Qed.

End DrawsOnly.

(** X23.  Whatever its arguments, and also when it raises, the call writes no
    file and saves no figure; and when a figure is open it creates none: it
    draws on the current figure, the number of open figures staying what it
    was. *)
Theorem plot_confusion_matrix_draws_only (cm : loc) (classes : list string)
  (normalize : bool) (title cmap : string) (w : world) :
  let w' := (plot_confusion_matrix cm classes normalize title cmap w).1 in
  files w' = files w /\ saves w' = saves w /\ dirs w' = dirs w /\
  (figs w ≠ [] ->
     figures_created w' = figures_created w /\ length (figs w') = length (figs w)).
Proof.
  intros w'.
  destruct (quiet_plot_confusion_matrix (files w) (saves w) (dirs w) (figs w ≠ [])
              (figures_created w) (length (figs w)) cm classes normalize title cmap w)
    as (Hf & Hs & Hd & Hfig).
  { split; [reflexivity|]. split; [reflexivity|]. split; [reflexivity|].
    intros Hne. split; [exact Hne|]. split; reflexivity. }
  split; [exact Hf|]. split; [exact Hs|]. split; [exact Hd|].
  intros Hne. destruct (Hfig Hne) as (_ & HN & Hn). split; [exact HN | exact Hn].
Qed.

Lemma example_cm_rect : Forall (fun row => length row = length [8; 2]%Z) example_cm.
Proof. repeat constructor. Qed.

Lemma zero_row_cm_rect : Forall (fun row => length row = length [0; 0]%Z) zero_row_cm.
Proof. repeat constructor. Qed.

Lemma plot_confusion_matrix_annotations_witness :
  exists (w' : world) (texts : list ax_cmd),
    plot_confusion_matrix 1%positive ["a"; "b"] false "Confusion matrix" "Blues"
      example_cm_world = (w', Ok tt) /\
    length texts = 4 /\
    texts_of (drawn w') = texts /\
    texts !! 0 = Some (Text 0 0 (Formatted (SInt 8) "d") "center" "white") /\
    texts !! 1 = Some (Text 1 0 (Formatted (SInt 2) "d") "center" "black").
Proof.
  destruct (plot_confusion_matrix_annotations 1%positive example_cm [8; 2]%Z
              ["a"; "b"] false "Confusion matrix" "Blues" example_cm_world
              eq_refl eq_refl ltac:(discriminate) example_cm_rect)
    as (w' & mx & texts & Hrun & Hmx & Hd & Hlen & Hcells).
  injection Hmx as <-.
  destruct (Hcells 0 0 ltac:(simpl; lia) ltac:(simpl; lia)) as (v0 & Hv0 & Ht0).
  destruct (Hcells 0 1 ltac:(simpl; lia) ltac:(simpl; lia)) as (v1 & Hv1 & Ht1).
  injection Hv0 as <-. injection Hv1 as <-.
  exists w', texts. split; [exact Hrun|]. split; [exact Hlen|].
  split; [|split; [exact Ht0 | exact Ht1]].
  rewrite Hd.
  destruct texts as [|t0 [|t1 [|t2 [|t3 [|t4 texts]]]]]; try discriminate Hlen.
  destruct (Hcells 1 0 ltac:(simpl; lia) ltac:(simpl; lia)) as (v2 & _ & Ht2).
  destruct (Hcells 1 1 ltac:(simpl; lia) ltac:(simpl; lia)) as (v3 & _ & Ht3).
  simpl in Ht0, Ht1, Ht2, Ht3.
  injection Ht0 as ->. injection Ht1 as ->. injection Ht2 as ->. injection Ht3 as ->.
  reflexivity.
Defined.

Lemma plot_confusion_matrix_nan_all_black_witness :
  exists (w' : world) (texts : list ax_cmd),
    plot_confusion_matrix 1%positive ["a"; "b"] true "Confusion matrix" "Blues"
      zero_row_cm_world = (w', Ok tt) /\
    length texts = 6 /\
    Forall (fun c => text_color c = Some "black") texts.
Proof.
  destruct (plot_confusion_matrix_nan_all_black 1%positive zero_row_cm [0; 0]%Z
              [0; 0]%Z 0 0 ["a"; "b"] "Confusion matrix" "Blues" zero_row_cm_world
              eq_refl eq_refl ltac:(discriminate) zero_row_cm_rect
              eq_refl eq_refl eq_refl)
    as (w' & texts & Hrun & _ & _ & Hlen & Hblack).
  exists w', texts. split; [exact Hrun|]. split; [exact Hlen | exact Hblack].
Defined.

Lemma plot_confusion_matrix_float_unnormalized_witness :
  exists w' : world,
    plot_confusion_matrix 1%positive ["a"; "b"] false "Confusion matrix" "Blues"
      float_cm_world = (w', Raise ValueError) /\
    printed_matrix w' = Some (Float2 float_cm).
Proof.
  destruct (plot_confusion_matrix_float_unnormalized 1%positive float_cm _
              ["a"; "b"] "Confusion matrix" "Blues" float_cm_world
              eq_refl eq_refl ltac:(discriminate))
    as (w' & Hrun & Hprinted & _).
  exists w'. split; [exact Hrun | exact Hprinted].
Defined.

Lemma plot_confusion_matrix_twice_witness :
  exists w1 w2 : world,
    plot_confusion_matrix 1%positive ["a"; "b"] false "Counts" "Blues"
      example_cm_world = (w1, Ok tt) /\
    plot_confusion_matrix 1%positive ["a"; "b"] true "Rates" "Blues" w1 = (w2, Ok tt) /\
    images_drawn w2 = [Int2 example_cm; Float2 (normalized_rows example_cm)].
Proof.
  destruct (plot_confusion_matrix_twice 1%positive 1%positive example_cm example_cm
              [8; 2]%Z [8; 2]%Z ["a"; "b"] ["a"; "b"] false true "Counts" "Rates"
              "Blues" "Blues" example_cm_world
              eq_refl eq_refl ltac:(discriminate) example_cm_rect
              eq_refl eq_refl ltac:(discriminate) example_cm_rect)
    as (w1 & w2 & Hrun1 & Hrun2 & _ & Himg & _).
  exists w1, w2. split; [exact Hrun1|]. split; [exact Hrun2 | exact Himg].
Defined.

(* ------------------------------------------------------------------ *)
(** ** Two more error paths *)

(** X24.  Normalising a one-dimensional array raises (numpy's axis error, a
    [ValueError]) at [cm.sum(axis=1)]: before anything is printed or drawn.
    The caller's arrays are as before. *)
Theorem plot_confusion_matrix_one_dimensional (cm : loc) (xs : list Z)
  (classes : list string) (title cmap : string) (w : world) :
  heap w !! cm = Some (Int1 xs) ->
  exists w' : world,
    plot_confusion_matrix cm classes true title cmap w = (w', Raise ValueError) /\
    stdout w' = stdout w /\ figs w' = figs w /\ files w' = files w /\
    heap w ⊆ heap w'.
Proof.
  intros Hcm.
  set (l1 := fresh (dom (heap w))).
  assert (Hl1 : heap w !! l1 = None) by (apply not_elem_of_dom, is_fresh).
  set (h1 := <[l1 := astype_float (Int1 xs)]> (heap w)).
  assert (Hcm1 : h1 !! cm = Some (Int1 xs)).
  { unfold h1. rewrite lookup_insert_ne; [assumption | congruence]. }
  exists (set_heap h1 w). split; [|split; [reflexivity|]].
  - unfold plot_confusion_matrix.
    assert (Hnorm : normalized cm w = (set_heap h1 w, Raise ValueError)).
    { unfold normalized.
      rewrite (py_bind_ok _ _ _ _ _ (np_get_ok _ _ _ Hcm)).
      rewrite py_bind_unfold. unfold np_new at 1. cbv zeta. fold l1. fold h1.
      rewrite (py_bind_ok _ _ (set_heap h1 w) (set_heap h1 w) (Int1 xs))
        by (apply np_get_ok; exact Hcm1).
      reflexivity. }
    assert (H1 : (cm' ← normalized cm;
                  print (PrintStr "Normalized confusion matrix");; mret cm') w
                 = (set_heap h1 w, Raise ValueError)).
    { now rewrite (py_bind_raise _ _ _ _ _ Hnorm). }
    now rewrite (py_bind_raise _ _ _ _ _ H1).
  - split; [reflexivity|]. split; [reflexivity|].
    simpl. apply insert_subseteq, Hl1.
Qed.

Lemma plot_confusion_matrix_one_dimensional_witness :
  exists w' : world,
    plot_confusion_matrix 1%positive ["a"; "b"] true "Confusion matrix" "Blues"
      flat_cm_world = (w', Raise ValueError) /\
    stdout w' = [] /\ figs w' = [].
Proof.
  destruct (plot_confusion_matrix_one_dimensional 1%positive [8; 2; 3; 7]%Z
              ["a"; "b"] "Confusion matrix" "Blues" flat_cm_world eq_refl)
    as (w' & Hrun & Hout & Hfigs & _).
  exists w'. split; [exact Hrun|]. split; [exact Hout | exact Hfigs].
Defined.

(** Asking for the current axes draws nothing on it. *)
Lemma plt_gca_drawn (w : world) :
  exists w' handle, plt_gca w = (w', Ok handle) /\ drawn w' = drawn w.
Proof.
  destruct (figs w) as [|[num f] rest] eqn:Hfigs.
  - eexists _, _. split.
    + unfold plt_gca, plt_gcf, plt_figure.
      rewrite !py_bind_unfold, Hfigs. simpl.
      unfold plt_subplot, plt_gcf. rewrite py_bind_unfold. simpl. reflexivity.
    + unfold drawn, current_axes. rewrite Hfigs. reflexivity.
  - destruct (fig_axes f) as [|a axs] eqn:Haxes.
    + eexists _, _. split.
      * unfold plt_gca, plt_gcf.
        rewrite !py_bind_unfold, Hfigs. simpl. rewrite Haxes.
        unfold plt_subplot, plt_gcf. rewrite py_bind_unfold, Hfigs. simpl.
        unfold axes_at. rewrite Haxes. simpl. reflexivity.
      * unfold drawn, current_axes. simpl. rewrite Hfigs. simpl. rewrite Haxes.
        reflexivity.
    + eexists _, _. split.
      * exact (plt_gca_current w num f a axs rest Hfigs Haxes).
      * reflexivity.
Qed.



(** X14.  When the file of the first class lies in a directory that does not
    exist (its label holds a [/]), the first [savefig] raises
    [FileNotFoundError]; [plt.close()] is not reached, so the figure just
    drawn stays open, and no file is written. *)
Theorem plotProbabilities_missing_directory (p : prob_entry)
  (probs : list prob_entry) (w : world) :
  well_shaped 1 (prob p) ->
  dirname (prob_path p) ≠ "" -> (dirname (prob_path p) ∉ dirs w) ->
  exists (w' : world) (num : nat) (data : list float64),
    plotProbabilities (p :: probs) w = (w', Raise FileNotFoundError) /\
    column (prob p) 0 = Ok data /\
    figs w' = (num, hist_figure p p data) :: figs w /\
    files w' = files w /\ saves w' = saves w.
Proof.
  intros Hshape Hne Hdir.
  destruct (column_ok 1 (prob p) 0 Hshape ltac:(lia)) as [data Hdata].
  pose proof (figure_number_fresh (figs w)) as Hfresh.
  set (num := S (foldr Nat.max 0 (map fst (figs w)))) in *.
  assert (Hfig : plt_figure None w =
    (add_trace (EFigure num) (set_figs ((num, empty_figure None) :: figs w) w), Ok num))
    by reflexivity.
  eexists _, num, data. split; [|split; [exact Hdata|]].
  - unfold plotProbabilities. simpl for_each.
    erewrite py_bind_raise; [reflexivity|].
    erewrite py_bind_raise; [reflexivity|].
    unfold plotProbabilities_body.
    rewrite (py_bind_ok _ _ _ _ _ Hfig).
    py_step @lift_ok.
    py_step plt_call_focused_empty.
    py_step @lift_ok.
    erewrite py_bind_ok; [| apply lift_ok; exact Hdata].
    py_step plt_call_focused_axes.
    py_step plt_call_focused_axes.
    py_step @lift_ok.
    erewrite py_bind_raise; [reflexivity|].
    eapply plt_savefig_missing; [split; [reflexivity | assumption] | exact Hne | exact Hdir].
  - split; [reflexivity|]. split; [reflexivity|].
    unfold saves. lazy [trace add_trace set_figs set_files].
    rewrite omap_app. simpl. apply app_nil_r.
Qed.

Lemma plotProbabilities_missing_directory_witness :
  exists (w' : world) (num : nat) (f : figure),
    plotProbabilities slash_probs (fresh_world ∅ ∅) = (w', Raise FileNotFoundError) /\
    figs w' = [(num, f)] /\ files w' = ∅.
Proof.
  assert (Hshape : well_shaped 1 {| n_columns := 1; prob_rows := [[f64_of_Z 1]] |}).
  { split; [simpl; lia | repeat constructor]. }
  destruct (plotProbabilities_missing_directory
              {| prob := {| n_columns := 1; prob_rows := [[f64_of_Z 1]] |};
                 label := "W/Z"; color := "r" |} [] (fresh_world ∅ ∅) Hshape
              ltac:(discriminate) (not_elem_of_empty _))
    as (w' & num & data & Hrun & _ & Hfigs & Hfiles & _).
  exists w', num. eexists. split; [exact Hrun|]. split; [exact Hfigs | exact Hfiles].
Defined.
